(** * MetroPlan: the path-finding engine and its HTTP facade

    A shallow embedding of the Node.js backend
    ([utils/timeUtils.js], [config/config.js], [middleware/validation.js],
    [middleware/errorHandler.js], [services/pathfindingService.js],
    [routes/pathfinding.js]) and of the
    TypeScript port [find_paths_dfs.ts], followed by the properties of the
    specification that were checked against them.

    Conventions of the embedding.
    - A JavaScript number is an integer [Z]; a computation whose number is
      [NaN] or not an integer is reported as [None] (or as the error
      [NotANumber]) instead of being carried on. A number of a request
      is followed when it is a safe integer, below [2^53] in magnitude;
      where the program reads a larger one, the model says so and goes
      no further.
    - A JavaScript string is a [string], one [ascii] per code unit; the
      code units are those below 256.
    - A JavaScript exception is an [Err] result.
    - An object used as a dictionary is a [gmap]; an array is a [list]. *)

From stdpp Require Import base option list gmap strings.
From Stdlib Require Import ZArith Lia Ascii DecimalString DecimalPos DecimalZ.

Open Scope Z_scope.

(** ** Results of computations that may throw *)

Inductive error : Type :=
| TypeError    (* a property is read on [undefined] *)
| NotANumber   (* a time string does not denote an integer *)
| OutOfFuel.   (* the recursion bound of the model was reached *)

Inductive result (A : Type) : Type :=
| Ok (a : A)
| Err (e : error).

Arguments Ok {A} a.
Arguments Err {A} e.

Definition bind {A B} (r : result A) (k : A -> result B) : result B :=
  match r with
  | Ok a => k a
  | Err e => Err e
  end.

Notation "'let*' x ':=' r 'in' k" := (bind r (fun x => k))
  (at level 10, x name, r at level 100, k at level 200).

(** ** The JavaScript built-ins the program relies on *)

Module JS.

(** [Number.prototype.toString] of an integer, in decimal notation. *)
Definition toString (z : Z) : string := NilZero.string_of_int (Z.to_int z).

(** [String(v)] for a number [v] of a request that is a safe integer,
    below [2^53] in magnitude: its decimal notation. A larger number need
    not be the integer that was sent, and from [10^21] on JavaScript
    writes it with an exponent ([1e+21]); the model follows neither:
    [None]. *)
Definition decimal_notation (v : Z) : option string :=
  if Z.abs v <? 2 ^ 53 then Some (toString v) else None.

Fixpoint repeat_char (n : nat) (c : ascii) : string :=
  match n with
  | O => EmptyString
  | S n' => String c (repeat_char n' c)
  end.

(** [s.padStart(n, c)] for a one-character filler. *)
Definition padStart (n : nat) (c : ascii) (s : string) : string :=
  repeat_char (n - String.length s) c +:+ s.

Definition code (c : ascii) : Z := Z.of_N (Ascii.N_of_ascii c).

(** White space among the code units below 256, as [trim], [parseInt] and
    [Number] skip it: the tab, the line feed, the vertical tab, the form
    feed, the carriage return, the space and the no-break space. *)
Definition is_white (c : ascii) : bool :=
  let n := code c in ((9 <=? n) && (n <=? 13)) || (n =? 32) || (n =? 160).

Fixpoint trimStart_list (cs : list ascii) : list ascii :=
  match cs with
  | c :: r => if is_white c then trimStart_list r else cs
  | [] => []
  end.

Definition trim_list (cs : list ascii) : list ascii :=
  rev (trimStart_list (rev (trimStart_list cs))).

(** [s.trim()]. *)
Definition trim (s : string) : string :=
  String.string_of_list_ascii (trim_list (String.list_ascii_of_string s)).

(** The value of a digit in the given radix. *)
Definition digit (radix : Z) (c : ascii) : option Z :=
  let n := code c in
  let v := if (48 <=? n) && (n <=? 57) then n - 48
           else if (97 <=? n) && (n <=? 122) then n - 87
           else if (65 <=? n) && (n <=? 90) then n - 55
           else radix in
  if v <? radix then Some v else None.

(** The longest prefix of digits, read in the given radix; [acc] is
    [None] until a digit has been read. *)
Fixpoint digits_prefix (radix : Z) (cs : list ascii) (acc : option Z) : option Z :=
  match cs with
  | c :: r =>
      match digit radix c with
      | Some d => digits_prefix radix r (Some (radix * default 0 acc + d))
      | None => acc
      end
  | [] => acc
  end.

(** A whole string of decimal digits; [None] when a character is not one. *)
Fixpoint digits_all (cs : list ascii) (acc : Z) : option Z :=
  match cs with
  | c :: r =>
      match digit 10 c with
      | Some d => digits_all r (10 * acc + d)
      | None => None
      end
  | [] => Some acc
  end.

Definition signed (cs : list ascii) : Z * list ascii :=
  match cs with
  | "-"%char :: r => (-1, r)
  | "+"%char :: r => (1, r)
  | _ => (1, cs)
  end.

(** [parseInt(s, 10)]: [None] is [NaN]. *)
Definition parseInt10 (s : string) : option Z :=
  let '(sg, r) := signed (trimStart_list (String.list_ascii_of_string s)) in
  (fun v => sg * v) <$> digits_prefix 10 r None.

(** [parseInt(s)]: the radix is 16 after a [0x] prefix and 10 otherwise. *)
Definition parseInt (s : string) : option Z :=
  let '(sg, r) := signed (trimStart_list (String.list_ascii_of_string s)) in
  match r with
  | "0"%char :: x :: r' =>
      if (code x =? 120) || (code x =? 88)
      then (fun v => sg * v) <$> digits_prefix 16 r' None
      else (fun v => sg * v) <$> digits_prefix 10 r None
  | _ => (fun v => sg * v) <$> digits_prefix 10 r None
  end.

(** [Number(s)] on the strings that denote an integer in decimal
    notation, and on the empty string; [None] stands for [NaN] and for
    the numeric literals outside the integer model (fractions,
    exponents, other radices). *)
Definition Number (s : string) : option Z :=
  match trim_list (String.list_ascii_of_string s) with
  | [] => Some 0
  | cs =>
      let '(sg, r) := signed cs in
      match r with
      | [] => None
      | _ => (fun v => sg * v) <$> digits_all r 0
      end
  end.

Fixpoint split_list (sep : ascii) (cs cur : list ascii) : list string :=
  match cs with
  | [] => [String.string_of_list_ascii (rev cur)]
  | c :: r =>
      if Ascii.eqb c sep
      then String.string_of_list_ascii (rev cur) :: split_list sep r []
      else split_list sep r (c :: cur)
  end.

(** [s.split(c)] for a one-character separator. *)
Definition split (sep : ascii) (s : string) : list string :=
  split_list sep (String.list_ascii_of_string s) [].

(** [Math.min(...xs)] of a non-empty array. *)
Definition Math_min (x : Z) (xs : list Z) : Z := foldl Z.min x xs.

(** [Array.prototype.sort] with a comparator: a stable insertion sort. *)
Section Sort.
Context {A : Type} (cmp : A -> A -> Z).

Fixpoint insert_sorted (x : A) (l : list A) : list A :=
  match l with
  | [] => [x]
  | y :: l' => if 0 <? cmp x y then y :: insert_sorted x l' else x :: l
  end.

Definition sort (l : list A) : list A := foldr insert_sorted [] l.
End Sort.

End JS.

(** ** [utils/timeUtils.js] *)

(** [parseTime(timeStr)] for a string argument. *)
Definition parseTime (timeStr : string) : option Z :=
  if bool_decide (timeStr = "") then Some 0
  else if bool_decide (timeStr = "00:00") then Some 1440
  else
    match JS.Number <$> JS.split ":" timeStr with
    | Some hours :: Some minutes :: _ => Some (hours * 60 + minutes)
    | _ => None
    end.

Definition pad2 (z : Z) : string := JS.padStart 2 "0" (JS.toString z).

(** [toTime(totalMinutes)]: [%] is the truncating remainder. *)
Definition toTime (totalMinutes : Z) : string :=
  let minutes := Z.rem totalMinutes 1440 in
  let hours := minutes / 60 in
  let mins := Z.rem minutes 60 in
  pad2 hours +:+ ":" +:+ pad2 mins.

Definition timeDifference (startTime endTime : Z) : Z :=
  let diff := endTime - startTime in
  if diff <? 0 then diff + 1440 else diff.

Definition formatDuration (minutes : Z) : string :=
  let hours := minutes / 60 in
  let mins := Z.rem minutes 60 in
  JS.toString hours +:+ "h " +:+ JS.toString mins +:+ "m".

(** ** The data of [services/pathfindingService.js] *)

(** A node of the time-expanded graph, [[station, train, "HH:MM"]]. *)
Record Node : Type := mkNode {
  station : string;
  train : string;
  time : string }.

(** An entry of the adjacency list, [{ to, type, duration }]. *)
Record Edge : Type := mkEdge {
  edge_to : nat;
  edge_type : string;
  edge_duration : Z }.

(** An entry of [edgeHistory], [{ from, to, type, duration }]. *)
Record HistoryEdge : Type := mkHistoryEdge {
  h_from : nat;
  h_to : nat;
  h_type : string;
  h_duration : Z }.

(** An entry of [trainInfo]. *)
Record TrainInfo : Type := mkTrainInfo {
  info_is_fast : bool;
  directionality : option (list Z) }.

Record TransferDetail : Type := mkTransferDetail {
  td_station : string;
  td_arrival_time : string;
  td_departure_time : string;
  wait_minutes : Z }.

Record TransferOption : Type := mkTransferOption {
  step : Z;
  options : list TransferDetail }.

(** A path record. [D] is the type of the entries of [transfer_details]:
    [TransferDetail] everywhere in the backend; the port may store
    [undefined] there, hence [option TransferDetail] for its merged
    records. [id] and [transfer_options] are absent until assigned. *)
Record PathRec (D : Type) : Type := mkPath {
  id : option Z;
  type : string;
  train_sequence : list string;
  transfer_details : list D;
  departure_time : string;
  arrival_time : string;
  total_time : string;
  total_minutes : Z;
  is_fast : bool;
  transfer_count : Z;
  transfer_options : option (list TransferOption) }.

Arguments mkPath {D}.
Arguments id {D}.
Arguments type {D}.
Arguments train_sequence {D}.
Arguments transfer_details {D}.
Arguments departure_time {D}.
Arguments arrival_time {D}.
Arguments total_time {D}.
Arguments total_minutes {D}.
Arguments is_fast {D}.
Arguments transfer_count {D}.
Arguments transfer_options {D}.

Abbreviation PathSummary := (PathRec TransferDetail).

(** [path.id = v]. *)
Definition set_id {D} (v : Z) (p : PathRec D) : PathRec D :=
  mkPath (Some v) (type p) (train_sequence p) (transfer_details p)
    (departure_time p) (arrival_time p) (total_time p) (total_minutes p)
    (is_fast p) (transfer_count p) (transfer_options p).

(** [base.transfer_options = opts; base.transfer_details = details]. *)
Definition set_options {D E} (opts : list TransferOption) (details : list E)
    (p : PathRec D) : PathRec E :=
  mkPath (id p) (type p) (train_sequence p) details
    (departure_time p) (arrival_time p) (total_time p) (total_minutes p)
    (is_fast p) (transfer_count p) (Some opts).

(** The same record with every entry of [transfer_details] mapped. *)
Definition map_details {D E} (f : D -> E) (p : PathRec D) : PathRec E :=
  mkPath (id p) (type p) (train_sequence p) (f <$> transfer_details p)
    (departure_time p) (arrival_time p) (total_time p) (total_minutes p)
    (is_fast p) (transfer_count p) (transfer_options p).

(** [this.paths] and [this.stats] of the service. *)
Record ServiceState : Type := mkState {
  paths : list PathSummary;
  skipped_same_station_transfers : Z }.

Global Instance TransferDetail_eq_dec : EqDecision TransferDetail.
Proof. solve_decision. Defined.

(** A [for ... of] loop over an array whose body may throw. *)
Fixpoint for_of {A St} (body : A -> St -> result St) (l : list A) (s : St) : result St :=
  match l with
  | [] => Ok s
  | x :: r => let* s' := body x s in for_of body r s'
  end.

(** The same over [array.entries()], counting from [idx]. *)
Fixpoint for_entries {A St} (body : nat -> A -> St -> result St)
    (idx : nat) (l : list A) (s : St) : result St :=
  match l with
  | [] => Ok s
  | x :: r => let* s' := body idx x s in for_entries body (S idx) r s'
  end.

(** ** [summarizePath] *)

(** The loop over [edgeHistory]: the timeline and the transfer details. *)
Fixpoint walk_history (nodes : list Node) (edgeHistory : list HistoryEdge)
    (timeline : Z) (transferDetails : list TransferDetail)
  : result (Z * list TransferDetail) :=
  match edgeHistory with
  | [] => Ok (timeline, transferDetails)
  | edge :: rest =>
      let prevTime := timeline in
      let timeline := timeline + h_duration edge in
      if bool_decide (h_type edge = "transfer") then
        match nodes !! h_from edge with
        | None => Err TypeError
        | Some n =>
            walk_history nodes rest timeline
              (transferDetails ++
                 [mkTransferDetail (station n) (toTime prevTime) (toTime timeline)
                    (h_duration edge)])
        end
      else walk_history nodes rest timeline transferDetails
  end.

Definition summarizePath (nodes : list Node) (edgeHistory : list HistoryEdge)
    (trainSequence : list string) (startTime endTime : Z)
    (trainInfo : gmap string TrainInfo) : result PathSummary :=
  let* walked := walk_history nodes edgeHistory startTime [] in
  let timeline := walked.1 in
  let transferDetails := walked.2 in
  let timeline := if bool_decide (timeline <> endTime) then endTime else timeline in
  let totalMinutes := timeline - startTime in
  let totalMinutes := if totalMinutes <? 0 then totalMinutes + 1440 else totalMinutes in
  let trainSeqCopy := trainSequence in
  let isFast :=
    existsb (fun trainId => from_option info_is_fast false (trainInfo !! trainId))
      trainSeqCopy in
  Ok (mkPath None
        (if 0 <? Z.of_nat (length transferDetails) then "Transfer" else "Direct")
        trainSeqCopy
        transferDetails
        (toTime startTime)
        (toTime timeline)
        (formatDuration totalMinutes)
        totalMinutes
        isFast
        (Z.of_nat (length transferDetails))
        None).

(** ** The directionality check of [findAllPaths] *)

(** The inner loop: some line [j] below both lengths has [a[j]] and
    [b[j]] non-zero and [a[j] === -b[j]]. *)
Fixpoint opposite_on_a_line (a b : list Z) : bool :=
  match a, b with
  | x :: a', y :: b' =>
      (negb (x =? 0) && negb (y =? 0) && (x =? - y)) || opposite_on_a_line a' b'
  | _, _ => false
  end.

(** The outer loop over the consecutive pairs of [seq]; a pair with a
    train missing from the map is passed over. *)
Fixpoint direction_invalid (directionMap : gmap string (list Z)) (seq : list string) : bool :=
  match seq with
  | t1 :: rest =>
      match rest with
      | t2 :: _ =>
          match directionMap !! t1, directionMap !! t2 with
          | Some a, Some b => opposite_on_a_line a b
          | _, _ => false
          end || direction_invalid directionMap rest
      | [] => false
      end
  | [] => false
  end.

(** ** [findAllPaths] *)

(** [this.paths.forEach((path, idx) => path.id = idx + 1)]. *)
Definition assign_ids {D} (l : list (PathRec D)) : list (PathRec D) :=
  imap (fun idx p => set_id (Z.of_nat idx + 1) p) l.

(** The indices of the nodes at a station, in the order of [nodes]. *)
Definition startNodes_of (nodes : list Node) (startStation : string) : list nat :=
  fst <$> List.filter (fun p => bool_decide (station p.2 = startStation))
            (imap (fun idx node => (idx, node)) nodes).

Section FindAllPaths.

(** [String.prototype.localeCompare]: its result depends on the host. *)
Variable localeCompare : string -> string -> Z.

Variable nodes : list Node.
Variable adjacency : gmap nat (list Edge).
Variable startStation endStation : string.
Variable trainInfo : gmap string TrainInfo.
Variable directionMap : option (gmap string (list Z)).
Variable maxTransfers : Z.
Variable allowSameStationConsecutiveTransfers : bool.

(** The test made before a summary is pushed. *)
Definition rejected_by_direction (pathSummary : PathSummary) : bool :=
  match directionMap with
  | Some dm =>
      (0 <? transfer_count pathSummary)
      && direction_invalid dm (train_sequence pathSummary)
  | None => false
  end.

(** The body of the loop over the neighbours of [currentIdx]; [recurse]
    is the recursive call of [dfs]. *)
Definition visit
    (recurse : nat -> Z -> Z -> list nat -> list HistoryEdge -> list string ->
               Z -> option string -> ServiceState -> result ServiceState)
    (currentIdx : nat) (current : Node) (currentTime transfersUsed : Z)
    (path : list nat) (edgeHistory : list HistoryEdge)
    (trainSequence : list string) (startTime : Z)
    (lastTransferStation : option string)
    (edge : Edge) (st : ServiceState) : result ServiceState :=
  let neighborIdx := edge_to edge in
  if bool_decide (neighborIdx ∈ path) then Ok st
  else
    match nodes !! neighborIdx with
    | None => Err TypeError
    | Some neighbor =>
        let neighborTrain := train neighbor in
        let currentTrain := train current in
        let edgeDuration := edge_duration edge in
        if edgeDuration <=? 0 then Ok st
        else
          let nextTime := currentTime + edgeDuration in
          let isTransferNow :=
            bool_decide (edge_type edge = "transfer")
            || negb (bool_decide (neighborTrain = currentTrain)) in
          let transferStation := station current in
          if isTransferNow && negb allowSameStationConsecutiveTransfers
             && match lastTransferStation with
                | Some l => negb (bool_decide (l = "")) && bool_decide (transferStation = l)
                | None => false
                end
          then Ok (mkState (paths st) (skipped_same_station_transfers st + 1))
          else
            let nextTransfers := if isTransferNow then transfersUsed + 1 else transfersUsed in
            if maxTransfers <? nextTransfers then Ok st
            else
              let nextTrainSequence :=
                if bool_decide (last trainSequence = Some neighborTrain)
                then trainSequence
                else trainSequence ++ [neighborTrain] in
              recurse neighborIdx nextTime nextTransfers
                (path ++ [neighborIdx])
                (edgeHistory ++ [mkHistoryEdge currentIdx neighborIdx (edge_type edge) edgeDuration])
                nextTrainSequence startTime
                (if isTransferNow then Some transferStation else lastTransferStation)
                st
    end.

(** The closure [dfs]. The recursion is bounded by [fuel]; [findAllPaths]
    starts it with the number of nodes, which is never used up. *)
Fixpoint dfs (fuel : nat) (currentIdx : nat) (currentTime transfersUsed : Z)
    (path : list nat) (edgeHistory : list HistoryEdge)
    (trainSequence : list string) (startTime : Z)
    (lastTransferStation : option string) (st : ServiceState)
  : result ServiceState :=
  match fuel with
  | O => Err OutOfFuel
  | S fuel' =>
      match nodes !! currentIdx with
      | None => Err TypeError
      | Some current =>
          if bool_decide (station current = endStation)
             && (0 <? Z.of_nat (length edgeHistory))
          then
            let* pathSummary :=
              summarizePath nodes edgeHistory trainSequence startTime currentTime trainInfo in
            if rejected_by_direction pathSummary then Ok st
            else Ok (mkState (paths st ++ [pathSummary]) (skipped_same_station_transfers st))
          else
            let neighbors := default [] (adjacency !! currentIdx) in
            for_of
              (visit (dfs fuel') currentIdx current currentTime transfersUsed path
                 edgeHistory trainSequence startTime lastTransferStation)
              neighbors st
      end
  end.

(** The comparator of the final sort. *)
Definition by_duration_then_departure (a b : PathSummary) : Z :=
  if bool_decide (total_minutes a <> total_minutes b)
  then total_minutes a - total_minutes b
  else localeCompare (departure_time a) (departure_time b).

(** The loop over the start nodes. *)
Definition start_dfs (startIdx : nat) (st : ServiceState) : result ServiceState :=
  match nodes !! startIdx with
  | None => Err TypeError
  | Some start =>
      match parseTime (time start) with
      | None => Err NotANumber
      | Some startTime =>
          dfs (length nodes) startIdx startTime 0 [startIdx] [] [train start]
            startTime None st
      end
  end.

(** [findAllPaths]: the returned array [this.paths] together with
    [this.stats]. *)
Definition findAllPaths : result ServiceState :=
  let startNodes := startNodes_of nodes startStation in
  if bool_decide (startNodes = []) then Ok (mkState [] 0)
  else
    let* st := for_of start_dfs startNodes (mkState [] 0) in
    Ok (mkState
          (assign_ids (JS.sort by_duration_then_departure (paths st)))
          (skipped_same_station_transfers st)).

End FindAllPaths.

(** ** [filterPathsByTimeWindow] *)

Definition filterPathsByTimeWindow (paths : list PathSummary) (windowMinutes : Z)
  : list PathSummary * Z :=
  match paths with
  | [] => ([], 0)
  | p :: ps =>
      let fastestMinutes := JS.Math_min (total_minutes p) (total_minutes <$> ps) in
      let cutoffMinutes := fastestMinutes + Z.max windowMinutes 0 in
      (List.filter (fun p => total_minutes p <=? cutoffMinutes) paths, fastestMinutes)
  end.

(** ** [mergePathsByTrainSequence] *)

(** The grouping key. The source compares the [JSON.stringify] images of
    these six components, which determine them. *)
Abbreviation MergeKey := (list string * string * Z * string * string * Z)%type.

(** [entry.transfer_count || (entry.transfer_details || []).length]. *)
Definition transferCount_of (entry : PathSummary) : Z :=
  if transfer_count entry =? 0
  then Z.of_nat (length (transfer_details entry))
  else transfer_count entry.

Definition merge_key (entry : PathSummary) : MergeKey :=
  (train_sequence entry, type entry, transferCount_of entry,
   departure_time entry, arrival_time entry, total_minutes entry).

(** A value of the map [grouped]: the copied entry and its scratch field
    [_transfer_option_lists]. *)
Record Group : Type := mkGroup {
  base : PathSummary;
  transfer_option_lists : option (list (list TransferDetail)) }.

Record MergeState : Type := mkMergeState {
  grouped : gmap MergeKey Group;
  orderedKeys : list MergeKey }.

(** [Array.from({ length: transferCount }, () => [])]. *)
Definition empty_lists (transferCount : Z) : list (list TransferDetail) :=
  replicate (Z.to_nat transferCount) [].

(** First entry of a group: [optionLists[idx].push(detail)]. *)
Definition push_option (idx : nat) (detail : TransferDetail)
    (optionLists : list (list TransferDetail)) : result (list (list TransferDetail)) :=
  match optionLists !! idx with
  | None => Err TypeError
  | Some l => Ok (<[idx := l ++ [detail]]> optionLists)
  end.

(** Later entries of a group: a list is added when [idx] is past the end,
    and the detail is pushed unless an equal one is there. *)
Definition add_option (idx : nat) (detail : TransferDetail)
    (optionLists : list (list TransferDetail)) : result (list (list TransferDetail)) :=
  let optionLists :=
    if Z.of_nat (length optionLists) <=? Z.of_nat idx
    then optionLists ++ [[]] else optionLists in
  match optionLists !! idx with
  | None => Err TypeError
  | Some l =>
      if bool_decide (detail ∈ l) then Ok optionLists
      else Ok (<[idx := l ++ [detail]]> optionLists)
  end.

(** The body of the first loop. *)
Definition merge_entry (entry : PathSummary) (s : MergeState) : result MergeState :=
  let transferCount := transferCount_of entry in
  let key := merge_key entry in
  match grouped s !! key with
  | None =>
      let* lists :=
        if 0 <? transferCount
        then let* l := for_entries push_option 0 (transfer_details entry)
                         (empty_lists transferCount) in
             Ok (Some l)
        else Ok None in
      Ok (mkMergeState (<[key := mkGroup entry lists]> (grouped s))
            (orderedKeys s ++ [key]))
  | Some g =>
      if transferCount =? 0 then Ok s
      else
        let optionLists := default (empty_lists transferCount) (transfer_option_lists g) in
        let* l := for_entries add_option 0 (transfer_details entry) optionLists in
        Ok (mkMergeState (<[key := mkGroup (base g) (Some l)]> (grouped s))
              (orderedKeys s))
  end.

(** [optionLists.map((optionList, idx) => ({ step: idx + 1, options: optionList }))]. *)
Definition numbered_options (optionLists : list (list TransferDetail)) : list TransferOption :=
  imap (fun idx optionList => mkTransferOption (Z.of_nat idx + 1) optionList) optionLists.

(** The body of the second loop. Every list kept by the filter has a
    first element, which [head] returns. *)
Definition finish_group (g : Group) : PathSummary :=
  match transfer_option_lists g with
  | Some optionLists =>
      set_options
        (List.filter (fun o => 0 <? Z.of_nat (length (options o)))
           (numbered_options optionLists))
        (omap head (List.filter (fun l => 0 <? Z.of_nat (length l)) optionLists))
        (base g)
  | None => base g
  end.

Definition collect_group (s : MergeState) (key : MergeKey) (merged : list PathSummary)
  : result (list PathSummary) :=
  match grouped s !! key with
  | None => Err TypeError
  | Some g => Ok (merged ++ [finish_group g])
  end.

Definition mergePathsByTrainSequence (paths : list PathSummary) : result (list PathSummary) :=
  let* s := for_of merge_entry paths (mkMergeState ∅ []) in
  for_of (collect_group s) (orderedKeys s) [].

(** ** [config/config.js] *)

Module Config.

(** The variables of [process.env] read by the algorithm section. *)
Record Env : Type := mkEnv {
  MAX_TRANSFERS : option string;
  TIME_WINDOW_MINUTES : option string;
  ALLOW_SAME_STATION_TRANSFERS : option string }.

(** [config.algorithm]. *)
Record Algorithm : Type := mkAlgorithm {
  maxTransfers : Z;
  timeWindowMinutes : Z;
  allowSameStationTransfers : bool }.

(** [parseInt(v) || d]: [NaN] and [0] give way to [d]. *)
Definition parseInt_or (v : option string) (d : Z) : Z :=
  match v ≫= JS.parseInt with
  | Some n => if n =? 0 then d else n
  | None => d
  end.

Definition algorithm (env : Env) : Algorithm :=
  mkAlgorithm
    (parseInt_or (MAX_TRANSFERS env) 2)
    (parseInt_or (TIME_WINDOW_MINUTES env) 90)
    (bool_decide (ALLOW_SAME_STATION_TRANSFERS env = Some "true")).

(** [config.validation]. *)
Module validation.
Definition maxStationNameLength : Z := 50.
Definition minStationNameLength : Z := 1.
Definition maxTransfers : Z := 5.
Definition maxTimeWindowMinutes : Z := 480.
End validation.

(** The checks of [validateConfig] on the algorithm section; when one
    fails the process exits at start-up. *)
Definition validateConfig (a : Algorithm) : bool :=
  negb ((maxTransfers a <? 0) || (validation.maxTransfers <? maxTransfers a))
  && negb ((timeWindowMinutes a <? 0)
           || (validation.maxTimeWindowMinutes <? timeWindowMinutes a)).

(** The configuration of a process that started. *)
Definition load (env : Env) : option Algorithm :=
  if validateConfig (algorithm env) then Some (algorithm env) else None.

End Config.

(** ** [middleware/validation.js], [middleware/errorHandler.js] and
    [routes/pathfinding.js] *)

(** The body of a request, typed as the route documents it; [None] is an
    absent field. *)
Record Body : Type := mkBody {
  start_station : option string;
  end_station : option string;
  max_transfers : option Z;
  window_minutes : option Z;
  allow_same_station_consecutive_transfers : option bool }.

(** [req.body] as the validation middleware hands it on: both stations
    are strings and have been trimmed. *)
Record ValidBody : Type := mkValidBody {
  v_start_station : string;
  v_end_station : string;
  v_max_transfers : option Z;
  v_window_minutes : option Z;
  v_allow_same_station_consecutive_transfers : option bool }.

Record Summary : Type := mkSummary {
  raw_path_count : Z;
  summary_window_minutes : Z;
  fastest_minutes : Z;
  filtered_path_count : Z;
  merged_path_count : Z;
  (* [...stats], spread into the summary of a non-empty answer only *)
  summary_skipped_same_station_transfers : option Z }.

Record Statistics : Type := mkStatistics {
  direct_total : Z;
  direct_fast : Z;
  direct_slow : Z;
  transfer_breakdown : Z * Z * Z }.

Record Reply : Type := mkReply {
  reply_start_station : string;
  reply_end_station : string;
  generated_at : string;
  summary : Summary;
  reply_paths : list PathSummary;
  statistics : option Statistics }.

Inductive Response : Type :=
| Rejected (status : Z) (error message : string) (field : option string)
    (* [res.status(status).json({ error, message, field })] *)
| Answered (reply : Reply)
    (* [res.json(reply)], status 200 *)
| Failed (status : Z) (error : string)
    (* the reply of [errorHandler] to an exception *)
| Unmodelled (e : error)
    (* the run left the integer model *)
| Unfollowed.
    (* a number of the body is not a safe integer *)

Definition status_of (r : Response) : option Z :=
  match r with
  | Rejected status _ _ _ => Some status
  | Answered _ => Some 200
  | Failed status _ => Some status
  | Unmodelled _ => None
  | Unfollowed => None
  end.

Definition bad_request (message field : string) : Response :=
  Rejected 400 "Bad Request" message (Some field).

Definition length_message (field : string) : string :=
  field +:+ " length must be between "
    +:+ JS.toString Config.validation.minStationNameLength +:+ " and "
    +:+ JS.toString Config.validation.maxStationNameLength +:+ " characters".

Definition bad_length (s : string) : bool :=
  (Z.of_nat (String.length s) <? Config.validation.minStationNameLength)
  || (Config.validation.maxStationNameLength <? Z.of_nat (String.length s)).

(** The test of an optional number of the body:
    [value !== undefined], and then, for [n = parseInt(value)],
    [isNaN(n) || n < 0 || n > bound]. [parseInt] reads [value] from the
    string it is written as; [None] when [value] is not a safe
    integer. *)
Definition out_of_range (value : option Z) (bound : Z) : option bool :=
  match value with
  | None => Some false
  | Some value =>
      match JS.decimal_notation value with
      | None => None
      | Some s =>
          Some match JS.parseInt s with
               | None => true
               | Some n => (n <? 0) || (bound <? n)
               end
      end
  end.

(** [validatePathfindingRequest]: the reply it sends, or the body it
    passes to [next()]. *)
Definition validatePathfindingRequest (body : Body) : Response + ValidBody :=
  match start_station body with
  | None | Some "" =>
      inl (bad_request "start_station is required and must be a string" "start_station")
  | Some start =>
      match end_station body with
      | None | Some "" =>
          inl (bad_request "end_station is required and must be a string" "end_station")
      | Some end_ =>
          if bad_length start
          then inl (bad_request (length_message "start_station") "start_station")
          else if bad_length end_
          then inl (bad_request (length_message "end_station") "end_station")
          else if bool_decide (JS.trim start = JS.trim end_)
          then inl (bad_request "start_station and end_station must be different" "end_station")
          else
            match out_of_range (max_transfers body) Config.validation.maxTransfers with
            | None => inl Unfollowed
            | Some true =>
                inl (bad_request
                       ("max_transfers must be a number between 0 and "
                          +:+ JS.toString Config.validation.maxTransfers)
                       "max_transfers")
            | Some false =>
                match out_of_range (window_minutes body)
                        Config.validation.maxTimeWindowMinutes with
                | None => inl Unfollowed
                | Some true =>
                    inl (bad_request
                           ("window_minutes must be a number between 0 and "
                              +:+ JS.toString Config.validation.maxTimeWindowMinutes)
                           "window_minutes")
                | Some false =>
                    inr (mkValidBody (JS.trim start) (JS.trim end_)
                           (max_transfers body) (window_minutes body)
                           (allow_same_station_consecutive_transfers body))
                end
            end
      end
  end.

(** The data loaded by [loadInitialData]. *)
Record Snapshot : Type := mkSnapshot {
  graph_nodes : list Node;
  adjacencyList : gmap nat (list Edge);
  snapshot_trainInfo : gmap string TrainInfo;
  snapshot_directionMap : gmap string (list Z) }.

Definition count_where {A} (f : A -> bool) (l : list A) : Z :=
  Z.of_nat (length (List.filter f l)).

(** [Math.min(Math.max(p.transfer_count || 0, 0), 2)]. *)
Definition breakdown_slot (p : PathSummary) : Z :=
  Z.min (Z.max (transfer_count p) 0) 2.

(** What [errorHandler] of [middleware/errorHandler.js] reads of an
    exception: [err.name], [err.type], [err.code], and whether
    [err.message] contains the word [timeout]. *)
Record Exception : Type := mkException {
  err_name : string;
  err_type : option string;
  err_code : option string;
  message_includes_timeout : bool }.

(** [errorHandler]: the status and the [error] text of its reply. *)
Definition errorHandler (err : Exception) : Response :=
  if bool_decide (err_name err = "ValidationError")
  then Failed 400 "Validation Error"
  else if bool_decide (err_name err = "SyntaxError")
          && bool_decide (err_type err = Some "entity.parse.failed")
  then Failed 400 "Invalid JSON"
  else if bool_decide (err_code err = Some "ENOENT")
  then Failed 404 "File Not Found"
  else if bool_decide (err_code err = Some "EACCES")
  then Failed 403 "Permission Denied"
  else if message_includes_timeout err
  then Failed 408 "Request Timeout"
  else Failed 500 "Internal Server Error".

(** An exception of the engine, by its name: it has no [type] and no
    [code], and its message does not speak of a timeout. *)
Definition engine_exception (name : string) : Exception :=
  mkException name None None false.

(** [require] as [routes/pathfinding.js] finds it. The file is an ES
    module: it opens with [import] declarations and closes with
    [export default]. Such a module has no binding for [require], and the
    call throws a ReferenceError. *)
Definition require (id : string) : Exception + Config.Algorithm :=
  inl (engine_exception "ReferenceError").

Section Router.

Variable localeCompare : string -> string -> Z.

(** The statements of the handler of [POST /find] that follow
    [const config = require('../config/config')]; [config] is the section
    [config.algorithm] that they read. [loaded] is the data held by the
    module, [reload] what a new call of [loadInitialData] would give,
    [now] the reading of the clock. An exception goes by [asyncHandler]
    to [errorHandler]. *)
Definition find_with (config : Config.Algorithm)
    (loaded reload : option Snapshot) (now : string) (body : ValidBody) : Response :=
  let startStation := v_start_station body in
  let endStation := v_end_station body in
  let finalMaxTransfers :=
    default (Config.maxTransfers config) (v_max_transfers body) in
  let finalWindowMinutes :=
    default (Config.timeWindowMinutes config) (v_window_minutes body) in
  let finalAllowSameStationTransfers :=
    default (Config.allowSameStationTransfers config)
      (v_allow_same_station_consecutive_transfers body) in
  match (match loaded with Some d => Some d | None => reload end) with
  | None => Rejected 503 "Service Unavailable" "Data files are not available" None
  | Some data =>
      match findAllPaths localeCompare (graph_nodes data) (adjacencyList data)
              startStation endStation (snapshot_trainInfo data)
              (Some (snapshot_directionMap data))
              finalMaxTransfers finalAllowSameStationTransfers with
      | Err TypeError => errorHandler (engine_exception "TypeError")
      | Err e => Unmodelled e
      | Ok st =>
          let allPaths := paths st in
          if bool_decide (allPaths = []) then
            Answered (mkReply startStation endStation now
                        (mkSummary 0 finalWindowMinutes 0 0 0 None) [] None)
          else
            let filtered := filterPathsByTimeWindow allPaths finalWindowMinutes in
            let filteredPaths := filtered.1 in
            let fastestMinutes := filtered.2 in
            match mergePathsByTrainSequence filteredPaths with
            | Err TypeError => errorHandler (engine_exception "TypeError")
            | Err e => Unmodelled e
            | Ok merged =>
                let mergedPaths := assign_ids merged in
                let directPaths :=
                  List.filter (fun p => bool_decide (type p = "Direct")) mergedPaths in
                Answered
                  (mkReply startStation endStation now
                     (mkSummary (Z.of_nat (length allPaths)) finalWindowMinutes
                        fastestMinutes (Z.of_nat (length filteredPaths))
                        (Z.of_nat (length mergedPaths))
                        (Some (skipped_same_station_transfers st)))
                     mergedPaths
                     (Some (mkStatistics
                              (Z.of_nat (length directPaths))
                              (count_where is_fast directPaths)
                              (count_where (fun p => negb (is_fast p)) directPaths)
                              (count_where (fun p => breakdown_slot p =? 0) mergedPaths,
                               count_where (fun p => breakdown_slot p =? 1) mergedPaths,
                               count_where (fun p => breakdown_slot p =? 2) mergedPaths))))
            end
      end
  end.

(** The handler of [POST /find], behind the validation middleware and
    inside [asyncHandler]. Its first statement after the reading of the
    body is the call of [require]; the exception of that call goes by
    [asyncHandler] to [errorHandler]. As the module stands, the
    statements after the call are not reached. *)
Definition find_handler
    (loaded reload : option Snapshot) (now : string) (body : ValidBody) : Response :=
  match require "../config/config" with
  | inl err => errorHandler err
  | inr config => find_with config loaded reload now body
  end.

(** [router.post('/find', validatePathfindingRequest, asyncHandler(...))]. *)
Definition post_find
    (loaded reload : option Snapshot) (now : string) (body : Body) : Response :=
  match validatePathfindingRequest body with
  | inl response => response
  | inr body' => find_handler loaded reload now body'
  end.

End Router.

(** The station directory served by [GET /stations]: the names that occur
    in the nodes. *)
Definition in_station_directory (data : Snapshot) (name : string) : Prop :=
  exists node, node ∈ graph_nodes data /\ station node = name.

(** ** The TypeScript port, [find_paths_dfs.ts] *)

Module Port.

Definition parseTime (timeStr : string) : option Z :=
  if bool_decide (timeStr = "") then Some 0
  else if bool_decide (timeStr = "00:00") then Some 1440
  else
    match JS.parseInt10 <$> JS.split ":" timeStr with
    | Some h :: Some m :: _ => Some (h * 60 + m)
    | _ => None
    end.

Definition toTime (totalMinutes : Z) : string :=
  let totalMinutes := Z.rem (Z.rem totalMinutes 1440 + 1440) 1440 in
  let hours := totalMinutes / 60 in
  let minutes := Z.rem totalMinutes 60 in
  pad2 hours +:+ ":" +:+ pad2 minutes.

Fixpoint walk_history (nodes : list Node) (edgeHistory : list HistoryEdge)
    (timeline : Z) (transferDetails : list TransferDetail)
  : result (Z * list TransferDetail) :=
  match edgeHistory with
  | [] => Ok (timeline, transferDetails)
  | edge :: rest =>
      let prev := timeline in
      let timeline := timeline + h_duration edge in
      if bool_decide (h_type edge = "transfer") then
        match nodes !! h_from edge with
        | None => Err TypeError
        | Some n =>
            walk_history nodes rest timeline
              (transferDetails ++
                 [mkTransferDetail (station n) (toTime prev) (toTime timeline)
                    (h_duration edge)])
        end
      else walk_history nodes rest timeline transferDetails
  end.

Definition summarizePath (nodes : list Node) (edgeHistory : list HistoryEdge)
    (trainSequence : list string) (startTime endTime : Z)
    (trainInfo : gmap string TrainInfo) : result PathSummary :=
  let* walked := walk_history nodes edgeHistory startTime [] in
  let timeline := walked.1 in
  let transferDetails := walked.2 in
  let timeline := if bool_decide (timeline <> endTime) then endTime else timeline in
  let totalMinutes := timeline - startTime in
  let totalMinutes := if totalMinutes <? 0 then totalMinutes + 1440 else totalMinutes in
  let isFast :=
    existsb (fun tid => from_option info_is_fast false (trainInfo !! tid))
      trainSequence in
  Ok (mkPath None
        (if bool_decide (length transferDetails <> 0%nat) then "Transfer" else "Direct")
        trainSequence
        transferDetails
        (toTime startTime)
        (toTime timeline)
        (JS.toString (totalMinutes / 60) +:+ "h "
           +:+ JS.toString (Z.rem totalMinutes 60) +:+ "m")
        totalMinutes
        isFast
        (Z.of_nat (length transferDetails))
        None).

(** [entry.transfer_count ?? entry.transfer_details.length]: the count
    is always present in a [PathSummary]. *)
Definition transferCount_of (entry : PathSummary) : Z := transfer_count entry.

Definition merge_key (entry : PathSummary) : MergeKey :=
  (train_sequence entry, type entry, transferCount_of entry,
   departure_time entry, arrival_time entry, total_minutes entry).

(** Later entries of a group. [optionLists] is [None] when the scratch
    field of the group is [undefined]. As [idx] counts up from zero it
    is at most the length, so that [optionLists[idx] = []] appends. *)
Definition add_option (idx : nat) (detail : TransferDetail)
    (optionLists : option (list (list TransferDetail)))
  : result (option (list (list TransferDetail))) :=
  match optionLists with
  | None => Err TypeError
  | Some lists =>
      let lists := if bool_decide (lists !! idx = None) then lists ++ [[]] else lists in
      match lists !! idx with
      | None => Err TypeError
      | Some l =>
          if bool_decide (detail ∈ l) then Ok (Some lists)
          else Ok (Some (<[idx := l ++ [detail]]> lists))
      end
  end.

Definition merge_entry (entry : PathSummary) (s : MergeState) : result MergeState :=
  let transferCount := transferCount_of entry in
  let key := merge_key entry in
  match grouped s !! key with
  | None =>
      let* lists :=
        if 0 <? transferCount
        then let* l := for_entries push_option 0 (transfer_details entry)
                         (empty_lists transferCount) in
             Ok (Some l)
        else Ok None in
      Ok (mkMergeState (<[key := mkGroup entry lists]> (grouped s))
            (orderedKeys s ++ [key]))
  | Some g =>
      if transferCount =? 0 then Ok s
      else
        let* l := for_entries add_option 0 (transfer_details entry)
                    (transfer_option_lists g) in
        Ok (mkMergeState (<[key := mkGroup (base g) l]> (grouped s)) (orderedKeys s))
  end.

(** The body of the second loop; [opts[0]] is [undefined] for an empty
    list. *)
Definition finish_group (g : Group) : PathRec (option TransferDetail) :=
  match transfer_option_lists g with
  | Some optionLists =>
      set_options (numbered_options optionLists) (head <$> optionLists) (base g)
  | None => map_details Some (base g)
  end.

Definition collect_group (s : MergeState) (key : MergeKey)
    (merged : list (PathRec (option TransferDetail)))
  : result (list (PathRec (option TransferDetail))) :=
  match grouped s !! key with
  | None => Err TypeError
  | Some g => Ok (merged ++ [finish_group g])
  end.

Definition mergePathsByTrainSequence (paths : list PathSummary)
  : result (list (PathRec (option TransferDetail))) :=
  let* s := for_of merge_entry paths (mkMergeState ∅ []) in
  for_of (collect_group s) (orderedKeys s) [].

Section FindAllPaths.

Variable localeCompare : string -> string -> Z.

Variable nodes : list Node.
Variable adjacency : gmap nat (list Edge).
Variable startStation endStation : string.
Variable trainInfo : gmap string TrainInfo.
Variable directionMap : option (gmap string (list Z)).
Variable maxTransfers : Z.
Variable allowSameStationConsecutiveTransfers : bool.

Definition rejected_by_direction (summary : PathSummary) : bool :=
  match directionMap with
  | Some dm =>
      (0 <? transfer_count summary)
      && direction_invalid dm (train_sequence summary)
  | None => false
  end.

Definition visit
    (recurse : nat -> Z -> Z -> list nat -> list HistoryEdge -> list string ->
               Z -> option string -> ServiceState -> result ServiceState)
    (currentIdx : nat) (current : Node) (currentTime transfersUsed : Z)
    (path : list nat) (edgeHistory : list HistoryEdge)
    (trainSequence : list string) (startTime : Z)
    (lastTransferStation : option string)
    (edge : Edge) (st : ServiceState) : result ServiceState :=
  let neighborIdx := edge_to edge in
  if bool_decide (neighborIdx ∈ path) then Ok st
  else
    match nodes !! neighborIdx with
    | None => Err TypeError
    | Some neighbor =>
        let neighborTrain := train neighbor in
        let currentTrain := train current in
        let edgeDuration := edge_duration edge in
        if edgeDuration <=? 0 then Ok st
        else
          let nextTime := currentTime + edgeDuration in
          let isTransferNow :=
            bool_decide (edge_type edge = "transfer")
            || negb (bool_decide (neighborTrain = currentTrain)) in
          let transferStation := station current in
          if isTransferNow && negb allowSameStationConsecutiveTransfers
             && match lastTransferStation with
                | Some l => bool_decide (transferStation = l)
                | None => false
                end
          then Ok (mkState (paths st) (skipped_same_station_transfers st + 1))
          else
            let nextTransfers := if isTransferNow then transfersUsed + 1 else transfersUsed in
            if maxTransfers <? nextTransfers then Ok st
            else
              let lastTrain := last trainSequence in
              let nextTrainSequence :=
                match lastTrain with
                | Some lt =>
                    if bool_decide (lt = "") || negb (bool_decide (neighborTrain = lt))
                    then trainSequence ++ [neighborTrain]
                    else trainSequence
                | None => trainSequence ++ [neighborTrain]
                end in
              recurse neighborIdx nextTime nextTransfers
                (path ++ [neighborIdx])
                (edgeHistory ++ [mkHistoryEdge currentIdx neighborIdx (edge_type edge) edgeDuration])
                nextTrainSequence startTime
                (if isTransferNow then Some transferStation else lastTransferStation)
                st
    end.

Fixpoint dfs (fuel : nat) (currentIdx : nat) (currentTime transfersUsed : Z)
    (path : list nat) (edgeHistory : list HistoryEdge)
    (trainSequence : list string) (startTime : Z)
    (lastTransferStation : option string) (st : ServiceState)
  : result ServiceState :=
  match fuel with
  | O => Err OutOfFuel
  | S fuel' =>
      match nodes !! currentIdx with
      | None => Err TypeError
      | Some current =>
          if bool_decide (station current = endStation)
             && (0 <? Z.of_nat (length edgeHistory))
          then
            let* summary :=
              summarizePath nodes edgeHistory trainSequence startTime currentTime trainInfo in
            if rejected_by_direction summary then Ok st
            else Ok (mkState (paths st ++ [summary]) (skipped_same_station_transfers st))
          else
            let neighbors := default [] (adjacency !! currentIdx) in
            for_of
              (visit (dfs fuel') currentIdx current currentTime transfersUsed path
                 edgeHistory trainSequence startTime lastTransferStation)
              neighbors st
      end
  end.

(** [(a.total_minutes - b.total_minutes) || a.departure_time.localeCompare(b.departure_time)]. *)
Definition by_duration_then_departure (a b : PathSummary) : Z :=
  if total_minutes a - total_minutes b =? 0
  then localeCompare (departure_time a) (departure_time b)
  else total_minutes a - total_minutes b.

Definition start_dfs (startIdx : nat) (st : ServiceState) : result ServiceState :=
  match nodes !! startIdx with
  | None => Err TypeError
  | Some start =>
      match parseTime (time start) with
      | None => Err NotANumber
      | Some startTime =>
          dfs (length nodes) startIdx startTime 0 [startIdx] [] [train start]
            startTime None st
      end
  end.

(** [findAllPaths]: [{ paths, stats }]. *)
Definition findAllPaths : result ServiceState :=
  let startNodes := startNodes_of nodes startStation in
  if bool_decide (length startNodes = 0%nat) then Ok (mkState [] 0)
  else
    let* st := for_of start_dfs startNodes (mkState [] 0) in
    Ok (mkState
          (assign_ids (JS.sort by_duration_then_departure (paths st)))
          (skipped_same_station_transfers st)).

End FindAllPaths.

End Port.

(** ** The two pipelines compared: enumeration, then merge *)

Section Pipelines.

Variable localeCompare : string -> string -> Z.

Definition backend_pipeline (nodes : list Node) (adjacency : gmap nat (list Edge))
    (startStation endStation : string) (trainInfo : gmap string TrainInfo)
    (directionMap : option (gmap string (list Z)))
    (maxTransfers : Z) (allowSameStationConsecutiveTransfers : bool)
  : result (list PathSummary) :=
  let* st := findAllPaths localeCompare nodes adjacency startStation endStation
               trainInfo directionMap maxTransfers
               allowSameStationConsecutiveTransfers in
  mergePathsByTrainSequence (paths st).

Definition port_pipeline (nodes : list Node) (adjacency : gmap nat (list Edge))
    (startStation endStation : string) (trainInfo : gmap string TrainInfo)
    (directionMap : option (gmap string (list Z)))
    (maxTransfers : Z) (allowSameStationConsecutiveTransfers : bool)
  : result (list (PathRec (option TransferDetail))) :=
  let* st := Port.findAllPaths localeCompare nodes adjacency startStation endStation
               trainInfo directionMap maxTransfers
               allowSameStationConsecutiveTransfers in
  Port.mergePathsByTrainSequence (paths st).

End Pipelines.

(** The merged records of the backend seen in the record type of the
    port: every transfer detail is present. *)
Definition as_port_records (r : result (list PathSummary))
  : result (list (PathRec (option TransferDetail))) :=
  let* l := r in Ok (map_details Some <$> l).

(** [localeCompare] as the order of the code units, used to run the
    examples; it is the order of the host on times written [HH:MM]. *)
Definition compare_code_units (a b : string) : Z :=
  match String.compare a b with
  | Lt => -1
  | Eq => 0
  | Gt => 1
  end.

(** ** The calls of [dfs] as a step relation *)

(** The arguments of one call of [dfs]. *)
Record Frame : Type := mkFrame {
  f_idx : nat;
  f_time : Z;
  f_transfers : Z;
  f_path : list nat;
  f_history : list HistoryEdge;
  f_trains : list string;
  f_start : Z;
  f_last : option string }.

(** [isTransferNow] for the edge from [current] to [neighbor]. *)
Definition is_transfer (current neighbor : Node) (edge : Edge) : bool :=
  bool_decide (edge_type edge = "transfer")
  || negb (bool_decide (train neighbor = train current)).

(** The arguments of the recursive call made for [edge]. *)
Definition next_frame (current neighbor : Node) (edge : Edge) (f : Frame) : Frame :=
  mkFrame (edge_to edge)
    (f_time f + edge_duration edge)
    (if is_transfer current neighbor edge then f_transfers f + 1 else f_transfers f)
    (f_path f ++ [edge_to edge])
    (f_history f ++
       [mkHistoryEdge (f_idx f) (edge_to edge) (edge_type edge) (edge_duration edge)])
    (if bool_decide (last (f_trains f) = Some (train neighbor))
     then f_trains f else f_trains f ++ [train neighbor])
    (f_start f)
    (if is_transfer current neighbor edge then Some (station current) else f_last f).

(** The first call made for a start node. *)
Definition first_frame (startIdx : nat) (start : Node) (startTime : Z) : Frame :=
  mkFrame startIdx startTime 0 [startIdx] [] [train start] startTime None.

(** The test on consecutive transfers at one station. *)
Definition same_station_again (allowSameStationConsecutiveTransfers : bool)
    (current neighbor : Node) (edge : Edge) (f : Frame) : bool :=
  is_transfer current neighbor edge && negb allowSameStationConsecutiveTransfers
  && match f_last f with
     | Some l => negb (bool_decide (l = "")) && bool_decide (station current = l)
     | None => false
     end.

(** The number of transfer edges of an edge history. *)
Definition transfers_in (edgeHistory : list HistoryEdge) : nat :=
  length (List.filter (fun h => bool_decide (h_type h = "transfer")) edgeHistory).

(** The sum of the durations of an edge history. *)
Definition duration_of (edgeHistory : list HistoryEdge) : Z :=
  foldr (fun h acc => h_duration h + acc) 0 edgeHistory.

Section Frames.

Variable nodes : list Node.
Variable adjacency : gmap nat (list Edge).
Variable startStation endStation : string.
Variable trainInfo : gmap string TrainInfo.
Variable directionMap : option (gmap string (list Z)).
Variable maxTransfers : Z.
Variable allowSameStationConsecutiveTransfers : bool.

Definition dfs_frame (fuel : nat) (f : Frame) (st : ServiceState) : result ServiceState :=
  dfs nodes adjacency endStation trainInfo directionMap maxTransfers
    allowSameStationConsecutiveTransfers fuel
    (f_idx f) (f_time f) (f_transfers f) (f_path f) (f_history f) (f_trains f)
    (f_start f) (f_last f) st.

(** [dfs] returns at once from a frame at the destination. *)
Definition at_destination (f : Frame) (current : Node) : Prop :=
  station current = endStation /\ f_history f <> [].

(** The conditions under which the loop over the neighbours recurses. *)
Definition explores (f : Frame) (current : Node) (edge : Edge) (neighbor : Node) : Prop :=
  nodes !! f_idx f = Some current /\
  ~ at_destination f current /\
  edge ∈ default [] (adjacency !! f_idx f) /\
  (edge_to edge ∉ f_path f) /\
  nodes !! (edge_to edge) = Some neighbor /\
  0 < edge_duration edge /\
  same_station_again allowSameStationConsecutiveTransfers current neighbor edge f = false /\
  f_transfers (next_frame current neighbor edge f) <= maxTransfers.

(** The frames [findAllPaths] calls [dfs] with. *)
Inductive Reachable : Frame -> Prop :=
| reach_start (startIdx : nat) (start : Node) (startTime : Z) :
    nodes !! startIdx = Some start ->
    station start = startStation ->
    parseTime (time start) = Some startTime ->
    Reachable (first_frame startIdx start startTime)
| reach_step (f : Frame) (current : Node) (edge : Edge) (neighbor : Node) :
    Reachable f ->
    explores f current edge neighbor ->
    Reachable (next_frame current neighbor edge f).

(** The summaries pushed to [this.paths]: computed at a reachable frame at
    the destination, and passed by the directionality check. *)
Definition Emitted (f : Frame) (pathSummary : PathSummary) : Prop :=
  Reachable f /\
  (exists current, nodes !! f_idx f = Some current /\ at_destination f current) /\
  summarizePath nodes (f_history f) (f_trains f) (f_start f) (f_time f) trainInfo
    = Ok pathSummary /\
  rejected_by_direction directionMap pathSummary = false.

End Frames.

(** ** Conditions on the loaded data *)

(** Every adjacency entry points at a node. *)
Definition targets_in_range (nodes : list Node) (adjacency : gmap nat (list Edge)) : Prop :=
  forall i edges edge,
    adjacency !! i = Some edges -> edge ∈ edges ->
    (edge_to edge < length nodes)%nat.

(** The data model of the edges: an edge is of type [transfer] exactly
    when it joins nodes of different trains. *)
Definition edges_respect_trains (nodes : list Node) (adjacency : gmap nat (list Edge)) : Prop :=
  forall i current edges edge neighbor,
    nodes !! i = Some current ->
    adjacency !! i = Some edges -> edge ∈ edges ->
    nodes !! (edge_to edge) = Some neighbor ->
    (edge_type edge = "transfer" <-> train neighbor <> train current).

(** Two consecutive trains of [seq] have direction vectors in the map
    that oppose each other on a line: both entries non-zero, one the
    negation of the other. *)
Definition opposing_directions (directionMap : gmap string (list Z)) (seq : list string) : Prop :=
  exists (i : nat) t1 t2 a b (j : nat) x y,
    seq !! i = Some t1 /\ seq !! S i = Some t2 /\
    directionMap !! t1 = Some a /\ directionMap !! t2 = Some b /\
    a !! j = Some x /\ b !! j = Some y /\
    x <> 0 /\ y <> 0 /\ x = - y.

(** The same with "of opposite sign" read on the signs alone. *)
Definition opposite_signs (directionMap : gmap string (list Z)) (seq : list string) : Prop :=
  exists (i : nat) t1 t2 a b (j : nat) x y,
    seq !! i = Some t1 /\ seq !! S i = Some t2 /\
    directionMap !! t1 = Some a /\ directionMap !! t2 = Some b /\
    a !! j = Some x /\ b !! j = Some y /\
    x * y < 0.

(** The data model of the direction vectors: entries in [{-1, 0, 1}]. *)
Definition unit_directions (directionMap : gmap string (list Z)) : Prop :=
  forall t v x, directionMap !! t = Some v -> x ∈ v -> -1 <= x <= 1.

(** A node time is a time of day written [HH:MM]. *)
Definition clock_time (t : string) : Prop :=
  exists m, 0 <= m < 1440 /\ t = toTime m.

Definition clock_times (nodes : list Node) : Prop :=
  forall node, node ∈ nodes -> clock_time (time node).

(** [body.max_transfers = v], used to compare two requests that differ in
    this field only. *)
Definition with_max_transfers (v : option Z) (body : Body) : Body :=
  mkBody (start_station body) (end_station body) v (window_minutes body)
    (allow_same_station_consecutive_transfers body).

Definition accepted (r : Response + ValidBody) : Prop :=
  match r with
  | inl _ => False
  | inr _ => True
  end.

(** What the two versions of [dfs] need of a frame to agree on it. *)
Definition plain_frame (f : Frame) : Prop :=
  (forall l, f_last f = Some l -> l <> "") /\
  (exists t, last (f_trains f) = Some t /\ t <> "") /\
  0 <= f_start f /\
  0 <= f_time f /\
  Forall (fun h => 0 <= h_duration h) (f_history f).

(** Every node carries a station name and a train id. *)
Definition nodes_named (nodes : list Node) : Prop :=
  forall node, node ∈ nodes -> station node <> "" /\ train node <> "".

(** ** The numbers of a request *)

(** An optional number of a request is a safe integer: it is below
    [2^53] in magnitude, so that a JavaScript number holds it exactly and
    writes it in decimal notation. *)
Definition safe_integer (value : option Z) : Prop :=
  forall n, value = Some n -> Z.abs n < 2 ^ 53.

Definition safe_numbers (body : Body) : Prop :=
  safe_integer (max_transfers body) /\ safe_integer (window_minutes body).

(** The number that a string of decimal digits denotes when it is read
    after the number [acc]. *)
Fixpoint uint_value (d : Decimal.uint) (acc : Z) : Z :=
  match d with
  | Decimal.Nil => acc
  | Decimal.D0 l => uint_value l (10 * acc)
  | Decimal.D1 l => uint_value l (10 * acc + 1)
  | Decimal.D2 l => uint_value l (10 * acc + 2)
  | Decimal.D3 l => uint_value l (10 * acc + 3)
  | Decimal.D4 l => uint_value l (10 * acc + 4)
  | Decimal.D5 l => uint_value l (10 * acc + 5)
  | Decimal.D6 l => uint_value l (10 * acc + 6)
  | Decimal.D7 l => uint_value l (10 * acc + 7)
  | Decimal.D8 l => uint_value l (10 * acc + 8)
  | Decimal.D9 l => uint_value l (10 * acc + 9)
  end.

(** ** Path summaries as the data model has them *)

(** [transfer_count] is the length of [transfer_details]. *)
Definition count_matches_details (p : PathSummary) : Prop :=
  transfer_count p = Z.of_nat (length (transfer_details p)).

(** The record with each step of [transfer_options] cut down to the
    representative option, the one kept in [transfer_details]. *)
Definition representative_only (p : PathSummary) : PathSummary :=
  if 0 <? transfer_count p
  then set_options (numbered_options ((fun d => [d]) <$> transfer_details p))
         (transfer_details p) p
  else p.

(** The record without its [transfer_options]. *)
Definition forget_options (p : PathSummary) : PathSummary :=
  mkPath (id p) (type p) (train_sequence p) (transfer_details p)
    (departure_time p) (arrival_time p) (total_time p) (total_minutes p)
    (is_fast p) (transfer_count p) None.

(** The first loop keeps every group in step with its representative. *)
Definition group_ok (key : MergeKey) (g : Group) : Prop :=
  merge_key (base g) = key /\
  count_matches_details (base g) /\
  match transfer_option_lists g with
  | Some ls => 0 < transfer_count (base g) /\
               head <$> ls = Some <$> transfer_details (base g)
  | None => transfer_count (base g) = 0
  end.

Definition merge_state_ok (s : MergeState) : Prop :=
  NoDup (orderedKeys s) /\
  (forall key, key ∈ orderedKeys s <-> is_Some (grouped s !! key)) /\
  (forall key g, grouped s !! key = Some g -> group_ok key g).

(** The group made for the first entry of a key. *)
Definition fresh_group (entry : PathSummary) : Group :=
  mkGroup entry
    (if 0 <? transfer_count entry
     then Some ((fun d => [d]) <$> transfer_details entry)
     else None).

(** ** Concrete schedules and requests *)

(** Train T1 from X (08:00) to Y (08:30); train T2 from Y (08:40) to
    Z (09:10); a transfer at Y with a wait of ten minutes. *)
Definition one_transfer_nodes : list Node :=
  [mkNode "X" "T1" "08:00"; mkNode "Y" "T1" "08:30";
   mkNode "Y" "T2" "08:40"; mkNode "Z" "T2" "09:10"].

Definition one_transfer_adjacency : gmap nat (list Edge) :=
  list_to_map
    [(0%nat, [mkEdge 1 "travel" 30]); (1%nat, [mkEdge 2 "transfer" 10]);
     (2%nat, [mkEdge 3 "travel" 30]); (3%nat, [])].

Definition one_transfer_snapshot : Snapshot :=
  mkSnapshot one_transfer_nodes one_transfer_adjacency ∅ ∅.

(** A single train T1 from X (08:00) by Y (20:00) to Z (09:00 on the next
    day): 720 and 780 minutes. *)
Definition overnight_nodes : list Node :=
  [mkNode "X" "T1" "08:00"; mkNode "Y" "T1" "20:00"; mkNode "Z" "T1" "09:00"].

Definition overnight_adjacency : gmap nat (list Edge) :=
  list_to_map
    [(0%nat, [mkEdge 1 "travel" 720]); (1%nat, [mkEdge 2 "travel" 780]); (2%nat, [])].

(** Both trains run forward on line 0. *)
Definition same_direction_map : gmap string (list Z) :=
  list_to_map [("T1", [1; 0]); ("T2", [1; 0])].

(** T1 runs forward and T2 backward on line 0. *)
Definition opposite_direction_map : gmap string (list Z) :=
  list_to_map [("T1", [1; 0]); ("T2", [-1; 0])].

(** Two itineraries by T1 then T2 with the same times, one changing at Y
    and one at W. *)
Definition change_at_Y : TransferDetail := mkTransferDetail "Y" "08:30" "08:40" 10.

Definition change_at_W : TransferDetail := mkTransferDetail "W" "08:45" "08:55" 10.

Definition via (detail : TransferDetail) (n : Z) : PathSummary :=
  mkPath (Some n) "Transfer" ["T1"; "T2"] [detail] "08:00" "09:10" "1h 10m" 70
    false 1 None.

Definition two_ways : list PathSummary := [via change_at_Y 1; via change_at_W 2].

(** One train whose id is the empty string, from X (08:00) to Z (09:00). *)
Definition unnamed_train_nodes : list Node :=
  [mkNode "X" "" "08:00"; mkNode "Z" "" "09:00"].

Definition unnamed_train_adjacency : gmap nat (list Edge) :=
  list_to_map [(0%nat, [mkEdge 1 "travel" 60]); (1%nat, [])].




(** [{ start_station: "X", end_station: "Z", max_transfers: 3 }]. *)
Definition three_transfers_request : Body :=
  mkBody (Some "X") (Some "Z") (Some 3) None None.

(** [{ start_station: "X", end_station: "Z", max_transfers: 6 }]. *)
Definition six_transfers_request : Body :=
  mkBody (Some "X") (Some "Z") (Some 6) None None.

(** [{ start_station: "X", end_station: "Nowhere" }]. *)
Definition unknown_end_request : Body := mkBody (Some "X") (Some "Nowhere") None None None.

(** [{ start_station: " X ", end_station: "Z", max_transfers: 3,
    window_minutes: 60 }]. *)
Definition padded_request : Body := mkBody (Some " X ") (Some "Z") (Some 3) (Some 60) None.

(** Three summaries that differ in duration only: 60, 180 and 181 minutes. *)
Definition lasting (minutes : Z) : PathSummary :=
  mkPath None "Direct" ["T1"] [] "08:00" (toTime (480 + minutes))
    (formatDuration minutes) minutes false 0 None.

Definition three_durations : list PathSummary := [lasting 60; lasting 180; lasting 181].

(** ** Tactics for facts about the concrete data *)

(** The cases of a lookup in a map written as a list of bindings. *)
Ltac list_to_map_cases H :=
  apply elem_of_list_to_map_2 in H;
  repeat (apply elem_of_cons in H as [H|H]; [simplify_eq|]);
  [..|by apply elem_of_nil in H].

(** The cases of a membership in a list written out. *)
Ltac list_cases H :=
  repeat (apply elem_of_cons in H as [H|H]; [simplify_eq|]);
  [..|by apply elem_of_nil in H].

(** * Further parts of the program

    The data service [services/dataService.js], the route [GET /stations],
    the rate limiter, and the loading of the data and the driver
    [computePaths] of the port. The files are taken as read: a node is a
    triple of strings, an edge names its two nodes, and the fields that
    may be absent are options. The reading of the clock is an argument. *)

(** ** [services/dataService.js] *)

Global Instance Node_eq_dec : EqDecision Node.
Proof. solve_decision. Defined.

Global Instance Node_countable : Countable Node.
Proof.
  refine (inj_countable' (fun n => (station n, train n, time n))
            (fun t => mkNode t.1.1 t.1.2 t.2) _).
  by intros [].
Defined.

(** An edge of the graph file, [{ from, to, weight, segment_travel_time,
    type }]: [from] and [to] are nodes, written as in [nodes]; the other
    fields may be absent. *)
Record GraphEdge : Type := mkGraphEdge {
  g_from : Node;
  g_to : Node;
  g_weight : option Z;
  g_segment_travel_time : option Z;
  g_type : option string }.

(** [a || b] for a number [a]: [undefined] and [0] give way to [b]. *)
Definition number_or (a : option Z) (b : Z) : Z :=
  match a with
  | Some n => if n =? 0 then b else n
  | None => b
  end.

(** [a || b] for a string [a]: [undefined] and the empty string give way
    to [b]. *)
Definition string_or (a : option string) (b : string) : string :=
  match a with
  | Some s => if bool_decide (s = "") then b else s
  | None => b
  end.

(** [nodes.forEach((node, idx) => nodeLookup.set(JSON.stringify(node), idx))]:
    the key of a node determines it, and of the indices of nodes written
    alike the last one is kept. *)
Definition nodeLookup_of (nodes : list Node) : gmap Node nat :=
  foldl (fun m p => <[p.2 := p.1]> m) ∅ (imap (fun idx node => (idx, node)) nodes).

(** [for (let i = 0; i < nodes.length; i++) adjacency[i] = []]. *)
Definition empty_adjacency (n : nat) : gmap nat (list Edge) :=
  foldl (fun m i => <[i := []]> m) ∅ (seq 0 n).

(** The body of [edges.forEach]. *)
Definition add_edge (nodeLookup : gmap Node nat) (edge : GraphEdge)
    (adjacency : gmap nat (list Edge)) : result (gmap nat (list Edge)) :=
  match nodeLookup !! g_from edge, nodeLookup !! g_to edge with
  | Some fromIdx, Some toIdx =>
      let duration :=
        number_or (g_weight edge) (number_or (g_segment_travel_time edge) 0) in
      if duration <=? 0 then Ok adjacency
      else
        let edgeInfo := mkEdge toIdx (string_or (g_type edge) "travel") duration in
        match adjacency !! fromIdx with
        | Some l => Ok (<[fromIdx := l ++ [edgeInfo]]> adjacency)
        | None => Err TypeError
        end
  | _, _ => Ok adjacency
  end.

Definition buildAdjacencyList (nodes : list Node) (edges : list GraphEdge)
  : result (gmap nat (list Edge)) :=
  for_of (add_edge (nodeLookup_of nodes)) edges (empty_adjacency (length nodes)).

(** The entry an edge of the file gives to the node [i], if any. *)
Definition entry_for (nodeLookup : gmap Node nat) (i : nat) (edge : GraphEdge) : option Edge :=
  match nodeLookup !! g_from edge, nodeLookup !! g_to edge with
  | Some fromIdx, Some toIdx =>
      let duration :=
        number_or (g_weight edge) (number_or (g_segment_travel_time edge) 0) in
      if bool_decide (fromIdx = i) && (0 <? duration)
      then Some (mkEdge toIdx (string_or (g_type edge) "travel") duration)
      else None
  | _, _ => None
  end.

(** [i] is the last index at which [node] stands in [nodes]. *)
Definition last_index_of (nodes : list Node) (node : Node) (i : nat) : Prop :=
  nodes !! i = Some node /\ forall j : nat, (i < j)%nat -> nodes !! j <> Some node.

(** An entry of [scheduleData.train]: [directionality] is [None] unless
    it is an array. *)
Record ScheduleTrain : Type := mkScheduleTrain {
  train_id : string;
  train_is_fast : option bool;
  train_directionality : option (list Z) }.

(** [extractTrainInfo]; the argument is [scheduleData.train]. *)
Definition extractTrainInfo (trains : option (list ScheduleTrain)) : gmap string TrainInfo :=
  foldl
    (fun trainInfo tr =>
       <[train_id tr := mkTrainInfo (default false (train_is_fast tr))
                          (train_directionality tr)]> trainInfo)
    ∅ (default [] trains).

(** [extractDirectionalityMap]. *)
Definition extractDirectionalityMap (trains : option (list ScheduleTrain))
  : gmap string (list Z) :=
  foldl
    (fun directionMap tr =>
       match train_directionality tr with
       | Some v => <[train_id tr := v]> directionMap
       | None => directionMap
       end)
    ∅ (default [] trains).

(** ** Sets in insertion order *)

(** [set.add(x)] on a [Set], held as the list of its elements in the
    order of insertion. *)
Definition Set_add {A} `{EqDecision A} (set : list A) (x : A) : list A :=
  if bool_decide (x ∈ set) then set else set ++ [x].

(** The distinct elements of a list, each at its first occurrence. *)
Definition distinct_in_order {A} `{EqDecision A} (l : list A) : list A :=
  foldl Set_add [] l.

(** ** [GET /stations] of [routes/pathfinding.js] *)

Inductive StationsResponse : Type :=
| StationsUnavailable (status : Z) (error message : string)
| StationList (stations : list string) (total_count : Z).

(** The handler; [graphData] holds the nodes of the graph once loaded.
    [Array.prototype.sort] without a comparator orders strings by their
    code units. *)
Definition get_stations (graphData : option (list Node)) : StationsResponse :=
  match graphData with
  | None => StationsUnavailable 503 "Service Unavailable" "Data not loaded"
  | Some nodes =>
      let stations := foldl Set_add [] (station <$> nodes) in
      let stationList := JS.sort compare_code_units stations in
      StationList stationList (Z.of_nat (length stationList))
  end.

(** The elements of the list come in the order [R]. *)
Definition in_order {A} (R : A -> A -> Prop) (l : list A) : Prop :=
  forall (i j : nat) a b, (i < j)%nat -> l !! i = Some a -> l !! j = Some b -> R a b.

(** ** [createRateLimiter] of [middleware/validation.js] *)

(** What the limiter reads of a request. *)
Record Caller : Type := mkCaller {
  ip : option string;
  x_forwarded_for : option string }.

(** [req.ip || req.headers['x-forwarded-for'] || 'unknown']. *)
Definition clientId_of (req : Caller) : string :=
  string_or (ip req) (string_or (x_forwarded_for req) "unknown").

Inductive LimiterOutcome : Type :=
| Next                                    (* [next()] *)
| TooManyRequests (status : Z).           (* [res.status(429).json(...)] *)

(** The cleaning of the map [requests] once it holds more than 10000
    clients. *)
Definition clean_old_entries (windowMs now : Z) (requests : gmap string (list Z))
  : gmap string (list Z) :=
  if 10000 <? Z.of_nat (size requests)
  then
    let cutoff := now - windowMs in
    omap (fun timestamps =>
            match List.filter (fun timestamp => cutoff <? timestamp) timestamps with
            | [] => None
            | kept => Some kept
            end) requests
  else requests.

(** The middleware made by [createRateLimiter(maxRequests, windowMs)],
    called at the time [now] with the map [requests]: the map it leaves
    and what it does. *)
Definition rate_limiter (maxRequests windowMs : Z) (req : Caller) (now : Z)
    (requests : gmap string (list Z)) : gmap string (list Z) * LimiterOutcome :=
  let clientId := clientId_of req in
  let requests := clean_old_entries windowMs now requests in
  let clientRequests := default [] (requests !! clientId) in
  let recentRequests :=
    List.filter (fun timestamp => now - timestamp <? windowMs) clientRequests in
  if maxRequests <=? Z.of_nat (length recentRequests)
  then (requests, TooManyRequests 429)
  else (<[clientId := recentRequests ++ [now]]> requests, Next).

(** The middleware serving calls in turn, each with the reading of the
    clock at its arrival. *)
Fixpoint serve (maxRequests windowMs : Z) (calls : list (Caller * Z))
    (requests : gmap string (list Z)) : list LimiterOutcome :=
  match calls with
  | [] => []
  | call :: rest =>
      let r := rate_limiter maxRequests windowMs call.1 call.2 requests in
      r.2 :: serve maxRequests windowMs rest r.1
  end.

(** The times of the calls of [client] that were passed on. *)
Definition passed_on (client : string) (calls : list (Caller * Z))
    (outcomes : list LimiterOutcome) : list Z :=
  omap (fun p : Caller * Z * LimiterOutcome =>
          match p.2 with
          | Next => if bool_decide (clientId_of p.1.1 = client) then Some p.1.2 else None
          | TooManyRequests _ => None
          end)
    (zip calls outcomes).

(** The map of the limiter holds, for every client, the times of the
    calls passed on that may still count. *)
Definition limiter_tracks (windowMs : Z) (calls : list (Caller * Z))
    (outcomes : list LimiterOutcome) (requests : gmap string (list Z)) : Prop :=
  forall client now,
    (forall call, call ∈ calls -> call.2 <= now) ->
    List.filter (fun timestamp => now - timestamp <? windowMs)
      (default [] (requests !! client))
    = List.filter (fun timestamp => now - timestamp <? windowMs)
        (passed_on client calls outcomes).

(** Four calls from one address, at 0, 100, 200 and 1100 milliseconds. *)
Definition rush : list (Caller * Z) :=
  [(mkCaller (Some "10.0.0.1") None, 0); (mkCaller (Some "10.0.0.1") None, 100);
   (mkCaller (Some "10.0.0.1") None, 200); (mkCaller (Some "10.0.0.1") None, 1100)].

(** ** The loading of the data in the port, [find_paths_dfs.ts] *)

(** [nodeKey]: the three fields of a node joined by [|||]. *)
Definition nodeKey (n : Node) : string :=
  station n +:+ "|||" +:+ train n +:+ "|||" +:+ time n.

Definition port_nodeLookup_of (nodes : list Node) : gmap string nat :=
  foldl (fun m p => <[nodeKey p.2 := p.1]> m) ∅ (imap (fun idx node => (idx, node)) nodes).

(** The body of the loop over the edges; [a ?? b] gives way to [b] for
    an absent [a] only. *)
Definition port_add_edge (nodeLookup : gmap string nat) (e : GraphEdge)
    (adjacency : gmap nat (list Edge)) : result (gmap nat (list Edge)) :=
  match nodeLookup !! nodeKey (g_from e), nodeLookup !! nodeKey (g_to e) with
  | Some fromIdx, Some toIdx =>
      let duration := default (default 0 (g_segment_travel_time e)) (g_weight e) in
      if duration <=? 0 then Ok adjacency
      else
        let type := default "travel" (g_type e) in
        match adjacency !! fromIdx with
        | Some l => Ok (<[fromIdx := l ++ [mkEdge toIdx type duration]]> adjacency)
        | None => Err TypeError
        end
  | _, _ => Ok adjacency
  end.

Definition buildAdjacency (nodes : list Node) (edges : list GraphEdge)
  : result (gmap nat (list Edge)) :=
  for_of (port_add_edge (port_nodeLookup_of nodes)) edges (empty_adjacency (length nodes)).

(** [loadSchedule]; the argument is [schedule?.train]. *)
Definition loadSchedule (trains : option (list ScheduleTrain)) : gmap string TrainInfo :=
  foldl
    (fun map tr =>
       <[train_id tr := mkTrainInfo (default false (train_is_fast tr))
                          (train_directionality tr)]> map)
    ∅ (default [] trains).

Definition loadDirectionalityMap (trains : option (list ScheduleTrain))
  : gmap string (list Z) :=
  foldl
    (fun out tr =>
       match train_directionality tr with
       | Some v => <[train_id tr := v]> out
       | None => out
       end)
    ∅ (default [] trains).

(** ** [computePaths] of [run_find_paths_demo.ts] *)

(** The six components of the grouping key as a record has them. *)
Definition record_key {D} (p : PathRec D) : MergeKey :=
  (train_sequence p, type p, transfer_count p,
   departure_time p, arrival_time p, total_minutes p).

Record ComputedSummary : Type := mkComputedSummary {
  c_raw_path_count : Z;
  c_window_minutes : Z;
  c_fastest_minutes : Z;
  c_filtered_path_count : Z;
  c_merged_path_count : Z;
  c_stats : Z }.

Inductive Computed : Type :=
| NoPaths (stats : Z)
    (* [{ paths: [], stats }] *)
| Itineraries (merged : list (PathRec (option TransferDetail)))
    (raw_paths : list PathSummary) (summary : ComputedSummary).
    (* [{ paths: merged, raw_paths: paths, summary }] *)

(** [computePaths], given the graph and the schedule it fetches; an
    absent argument takes its default. *)
Definition computePaths (localeCompare : string -> string -> Z)
    (nodes : list Node) (edges : list GraphEdge) (trains : option (list ScheduleTrain))
    (start end_ : string) (maxTransfers windowMinutes : option Z)
    (allowSameStationConsecutiveTransfers : option bool) : result Computed :=
  let maxTransfers := default 2 maxTransfers in
  let windowMinutes := default 90 windowMinutes in
  let allowSameStationConsecutiveTransfers :=
    default false allowSameStationConsecutiveTransfers in
  let* adjacency := buildAdjacency nodes edges in
  let trainInfo := loadSchedule trains in
  let directionMap := loadDirectionalityMap trains in
  let* found :=
    Port.findAllPaths localeCompare nodes adjacency start end_ trainInfo
      (Some directionMap) maxTransfers allowSameStationConsecutiveTransfers in
  match paths found with
  | [] => Ok (NoPaths (skipped_same_station_transfers found))
  | p :: ps =>
      let fastestMinutes := JS.Math_min (total_minutes p) (total_minutes <$> ps) in
      let cutoff := fastestMinutes + (if 0 <=? windowMinutes then windowMinutes else 0) in
      let filtered := List.filter (fun p => total_minutes p <=? cutoff) (paths found) in
      let* merged := Port.mergePathsByTrainSequence filtered in
      let merged := assign_ids merged in
      Ok (Itineraries merged (paths found)
            (mkComputedSummary (Z.of_nat (length (paths found))) windowMinutes
               fastestMinutes (Z.of_nat (length filtered)) (Z.of_nat (length merged))
               (skipped_same_station_transfers found)))
  end.

(** No field of a node holds the character [|]. *)
Definition no_bar (s : string) : Prop := "|"%char ∉ String.list_ascii_of_string s.

Definition nodes_without_bars (nodes : list Node) : Prop :=
  forall node, node ∈ nodes ->
    no_bar (station node) /\ no_bar (train node) /\ no_bar (time node).

(** The fields of an edge on which [||] and [??] agree. *)
Definition plain_edge (e : GraphEdge) : Prop :=
  g_weight e <> Some 0 /\ g_type e <> Some "".

(** The edges of the graph of the one-transfer schedule, as the graph
    file has them. *)
Definition one_transfer_edges : list GraphEdge :=
  [mkGraphEdge (mkNode "X" "T1" "08:00") (mkNode "Y" "T1" "08:30") (Some 30) None
     (Some "travel");
   mkGraphEdge (mkNode "Y" "T1" "08:30") (mkNode "Y" "T2" "08:40") (Some 10) None
     (Some "transfer");
   mkGraphEdge (mkNode "Y" "T2" "08:40") (mkNode "Z" "T2" "09:10") None (Some 30) None].


(** The same edges with the type of the edge from T1 to T2 at Y left
    out in the graph file. *)
Definition untyped_change_edges : list GraphEdge :=
  [mkGraphEdge (mkNode "X" "T1" "08:00") (mkNode "Y" "T1" "08:30") (Some 30) None
     (Some "travel");
   mkGraphEdge (mkNode "Y" "T1" "08:30") (mkNode "Y" "T2" "08:40") (Some 10) None None;
   mkGraphEdge (mkNode "Y" "T2" "08:40") (mkNode "Z" "T2" "09:10") None (Some 30) None].

(** The adjacency list that [buildAdjacencyList] makes of them: the edge
    from T1 to T2 is of type [travel]. *)
Definition untyped_change_adjacency : gmap nat (list Edge) :=
  list_to_map
    [(0%nat, [mkEdge 1 "travel" 30]); (1%nat, [mkEdge 2 "travel" 10]);
     (2%nat, [mkEdge 3 "travel" 30]); (3%nat, [])].

(** ** What the merge keeps of its input *)

(** What a later entry of a group adds to the list of options of one
    step. *)
Definition absorb (l : list TransferDetail) (d : TransferDetail) : list TransferDetail :=
  if bool_decide (d ∈ l) then l else l ++ [d].

(** [entry] is the first entry of [entries] with its key. *)
Definition first_with_key (entries : list PathSummary) (entry : PathSummary) : Prop :=
  exists i : nat,
    entries !! i = Some entry /\
    forall (j : nat) e, (j < i)%nat -> entries !! j = Some e -> merge_key e <> merge_key entry.

(** The option lists of a group hold, step by step and without
    repetition, the transfer details of the entries of its key. *)
Definition options_of_key (entries : list PathSummary) (key : MergeKey)
    (lists : list (list TransferDetail)) : Prop :=
  forall (i : nat) l, lists !! i = Some l ->
    NoDup l /\
    forall d, d ∈ l <-> exists e, e ∈ entries /\ merge_key e = key /\
                                  transfer_details e !! i = Some d.

(** The state of the first loop after the entries [entries]. *)
Definition merge_state_tracks (entries : list PathSummary) (s : MergeState) : Prop :=
  orderedKeys s = distinct_in_order (merge_key <$> entries) /\
  forall key g, grouped s !! key = Some g ->
    first_with_key entries (base g) /\
    forall lists, transfer_option_lists g = Some lists -> options_of_key entries key lists.

(** The list does not begin with white space. *)
Definition starts_clean (cs : list ascii) : Prop :=
  match cs with
  | c :: _ => JS.is_white c = false
  | [] => True
  end.

(** ** The walk a frame stands for *)

(** The edges of [edgeHistory] join the consecutive indices of [path],
    and each one is an entry of the adjacency list of the node it
    leaves. *)
Definition follows_edges (adjacency : gmap nat (list Edge))
    (path : list nat) (edgeHistory : list HistoryEdge) : Prop :=
  length path = S (length edgeHistory) /\
  forall (k : nat) h, edgeHistory !! k = Some h ->
    path !! k = Some (h_from h) /\
    path !! S k = Some (h_to h) /\
    mkEdge (h_to h) (h_type h) (h_duration h) ∈ default [] (adjacency !! h_from h).

(** No two neighbours of a list are equal. *)
Definition changes_at_every_step {A} (l : list A) : Prop :=
  forall (i : nat) a b, l !! i = Some a -> l !! S i = Some b -> a <> b.

(** The keys of the entries never decrease along the list. *)
Definition ascending {A} (key : A -> Z) (l : list A) : Prop :=
  forall (i j : nat) a b,
    (i <= j)%nat -> l !! i = Some a -> l !! j = Some b -> key a <= key b.

(** Two direct trains from X to Z: T1 takes 60 minutes; T2 leaves ten
    minutes later and takes 30. *)
Definition two_trains_nodes : list Node :=
  [mkNode "X" "T1" "08:00"; mkNode "Z" "T1" "09:00";
   mkNode "X" "T2" "08:10"; mkNode "Z" "T2" "08:40"].

Definition two_trains_adjacency : gmap nat (list Edge) :=
  list_to_map
    [(0%nat, [mkEdge 1 "travel" 60]); (1%nat, []);
     (2%nat, [mkEdge 3 "travel" 30]); (3%nat, [])].

(** T1 from X (08:00) to Y (08:30); at Y a change to T2 (08:40) and at
    once a second change to T3 (08:50), which runs on to Z (09:30). *)
Definition double_change_nodes : list Node :=
  [mkNode "X" "T1" "08:00"; mkNode "Y" "T1" "08:30"; mkNode "Y" "T2" "08:40";
   mkNode "Y" "T3" "08:50"; mkNode "Z" "T3" "09:30"].

Definition double_change_adjacency : gmap nat (list Edge) :=
  list_to_map
    [(0%nat, [mkEdge 1 "travel" 30]); (1%nat, [mkEdge 2 "transfer" 10]);
     (2%nat, [mkEdge 3 "transfer" 10]); (3%nat, [mkEdge 4 "travel" 40]); (4%nat, [])].

(** T1 from X (08:00) to Y (08:30), T2 from Y (08:40) to W (09:00) and
    T3 from W (09:10) to Z (09:30): a change at Y and a change at W. *)
Definition two_changes_nodes : list Node :=
  [mkNode "X" "T1" "08:00"; mkNode "Y" "T1" "08:30"; mkNode "Y" "T2" "08:40";
   mkNode "W" "T2" "09:00"; mkNode "W" "T3" "09:10"; mkNode "Z" "T3" "09:30"].

Definition two_changes_adjacency : gmap nat (list Edge) :=
  list_to_map
    [(0%nat, [mkEdge 1 "travel" 30]); (1%nat, [mkEdge 2 "transfer" 10]);
     (2%nat, [mkEdge 3 "travel" 20]); (3%nat, [mkEdge 4 "transfer" 10]);
     (4%nat, [mkEdge 5 "travel" 20]); (5%nat, [])].

(** The edges of that graph, as the graph file has them. *)
Definition two_trains_edges : list GraphEdge :=
  [mkGraphEdge (mkNode "X" "T1" "08:00") (mkNode "Z" "T1" "09:00") (Some 60) None
     (Some "travel");
   mkGraphEdge (mkNode "X" "T2" "08:10") (mkNode "Z" "T2" "08:40") (Some 30) None
     (Some "travel")].

(** * Properties *)


(** ** Time utilities *)

Lemma forallb_Z_range (P : Z -> bool) (n : nat) :
  forallb P (Z.of_nat <$> seq 0 n) = true ->
  forall m, 0 <= m < Z.of_nat n -> P m = true.
Proof.
  intros H m Hm.
  rewrite forallb_forall in H. apply H.
  apply in_map_iff. exists (Z.to_nat m). split; [lia|].
  apply in_seq. lia.
Qed.

(** Every minute of the day, midnight at both ends included, checked by
    running the two functions. *)
Lemma parseTime_toTime_day (m : Z) :
  0 <= m < 1441 ->
  parseTime (toTime m) = Some (if m mod 1440 =? 0 then 1440 else m mod 1440).
Proof.
  intros Hm.
  pose (P := fun m => bool_decide
    (parseTime (toTime m) = Some (if m mod 1440 =? 0 then 1440 else m mod 1440))).
  assert (HP : P m = true).
  { apply (forallb_Z_range P 1441); [vm_compute; reflexivity | lia]. }
  unfold P in HP. by apply bool_decide_eq_true in HP.
Qed.

Lemma toTime_mod (x : Z) : 0 <= x -> toTime x = toTime (x mod 1440).
Proof.
  intros Hx. unfold toTime.
  rewrite !Z.rem_mod_nonneg by (try apply Z.mod_pos_bound; lia).
  by rewrite Z.mod_mod.
Qed.

(** From any non-negative minute count, the string written by [toTime] is
    read back by [parseTime] as a minute of the same class modulo 1440,
    between 1 and 1440. *)
Lemma parseTime_toTime_nonneg (x : Z) :
  0 <= x ->
  exists v, parseTime (toTime x) = Some v /\ v mod 1440 = x mod 1440 /\ 1 <= v <= 1440.
Proof.
  intros Hx. rewrite toTime_mod by done.
  pose proof (Z.mod_pos_bound x 1440 ltac:(lia)) as Hb.
  rewrite parseTime_toTime_day by lia.
  rewrite Z.mod_mod by lia.
  destruct (x mod 1440 =? 0) eqn:E.
  - exists 1440. apply Z.eqb_eq in E. rewrite E. split; [done | split; [done | lia]].
  - exists (x mod 1440). apply Z.eqb_neq in E.
    split; [done | split; [by rewrite Z.mod_mod | lia]].
Qed.

(** C4, as amended. For every integer [m] in [[0, 1440]], [parseTime] reads
    the string written by [toTime m] as [m mod 1440], except that midnight
    (the string 00:00, written for [m = 0] and for [m = 1440]) is read as
    1440. *)
Theorem parseTime_toTime_roundtrip (m : Z) :
  0 <= m <= 1440 ->
  parseTime (toTime m) = Some (if m mod 1440 =? 0 then 1440 else m mod 1440).
Proof. intros Hm. apply parseTime_toTime_day. lia. Qed.

Lemma parseTime_toTime_roundtrip_witness :
  0 <= 510 <= 1440 /\
  parseTime (toTime 510) = Some (if 510 mod 1440 =? 0 then 1440 else 510 mod 1440).
Proof. split; [lia | apply (parseTime_toTime_roundtrip 510); lia]. Defined.

(** C4 as stated fails at [m = 0]: the string is 00:00, which is read as
    1440 and not as [0 mod 1440 = 0]. *)
Lemma parseTime_toTime_midnight :
  0 <= 0 <= 1440 /\ toTime 0 = "00:00" /\ parseTime (toTime 0) = Some 1440 /\
  parseTime (toTime 0) <> Some (0 mod 1440).
Proof. split; [lia | split; [done | split; [done | discriminate]]]. Qed.

(** ** The window filter *)

Lemma Math_min_le_acc (x : Z) (xs : list Z) : JS.Math_min x xs <= x.
Proof.
  unfold JS.Math_min. revert x.
  induction xs as [|y ys IH]; intros x; simpl; [lia|].
  specialize (IH (Z.min x y)). lia.
Qed.

Lemma Math_min_lower (x : Z) (xs : list Z) (y : Z) :
  y ∈ x :: xs -> JS.Math_min x xs <= y.
Proof.
  unfold JS.Math_min. revert x.
  induction xs as [|z zs IH]; intros x Hy; simpl.
  - apply list_elem_of_singleton in Hy. lia.
  - pose proof (Math_min_le_acc (Z.min x z) zs) as Hacc. unfold JS.Math_min in Hacc.
    apply elem_of_cons in Hy as [->|Hy]; [lia|].
    apply elem_of_cons in Hy as [->|Hy]; [lia|].
    apply IH. by right.
Qed.

Lemma Math_min_attained (x : Z) (xs : list Z) : JS.Math_min x xs ∈ x :: xs.
Proof.
  unfold JS.Math_min. revert x.
  induction xs as [|z zs IH]; intros x; simpl; [by left|].
  specialize (IH (Z.min x z)).
  apply elem_of_cons in IH as [IH|IH].
  - rewrite IH. destruct (Z.min_spec x z) as [[_ ->]|[_ ->]]; [by left | right; by left].
  - right. by right.
Qed.



(** ** The numbers of a request as [parseInt] reads them *)

Lemma digits_prefix_uint (d : Decimal.uint) (acc : Z) :
  JS.digits_prefix 10 (String.list_ascii_of_string (NilEmpty.string_of_uint d)) (Some acc)
  = Some (uint_value d acc).
Proof.
  revert acc. induction d; intros acc; cbn [NilEmpty.string_of_uint String.list_ascii_of_string
    JS.digits_prefix uint_value]; [done|..];
    (change (JS.digit 10 _) with (Some 0) || change (JS.digit 10 _) with (Some 1)
     || change (JS.digit 10 _) with (Some 2) || change (JS.digit 10 _) with (Some 3)
     || change (JS.digit 10 _) with (Some 4) || change (JS.digit 10 _) with (Some 5)
     || change (JS.digit 10 _) with (Some 6) || change (JS.digit 10 _) with (Some 7)
     || change (JS.digit 10 _) with (Some 8) || change (JS.digit 10 _) with (Some 9));
    cbn [default from_option Datatypes.id]; rewrite IHd; do 2 f_equal; lia.
Qed.

Lemma of_uint_acc_value (d : Decimal.uint) (p : positive) :
  Z.pos (Pos.of_uint_acc d p) = uint_value d (Z.pos p).
Proof.
  revert p. induction d; intros p; cbn [Pos.of_uint_acc uint_value]; [done|..];
    rewrite IHd; f_equal; lia.
Qed.

Lemma of_uint_value (d : Decimal.uint) : Z.of_N (Pos.of_uint d) = uint_value d 0.
Proof.
  induction d; cbn [Pos.of_uint uint_value]; [done| |..];
    try (rewrite IHd; reflexivity);
    cbn [Z.of_N]; rewrite of_uint_acc_value; f_equal.
Qed.

Lemma string_of_uint_digits (d : Decimal.uint) :
  Forall (fun c => 48 <= JS.code c <= 57)
    (String.list_ascii_of_string (NilEmpty.string_of_uint d)).
Proof.
  induction d; cbn [NilEmpty.string_of_uint String.list_ascii_of_string];
    [constructor|..]; (constructor; [vm_compute; split; discriminate | exact IHd]).
Qed.

Lemma digit_not_white (c : ascii) : 48 <= JS.code c <= 57 -> JS.is_white c = false.
Proof.
  intros Hc. unfold JS.is_white.
  destruct (9 <=? JS.code c) eqn:E1, (JS.code c <=? 13) eqn:E2, (JS.code c =? 32) eqn:E3,
    (JS.code c =? 160) eqn:E4; cbn; try reflexivity; lia.
Qed.

(** A string of decimal digits has no prefix [0x]: [parseInt] reads it in
    radix 10. *)
Lemma parseInt_digits (cs : list ascii) (sign : Z) :
  Forall (fun c => 48 <= JS.code c <= 57) cs ->
  (match cs with
   | "0"%char :: x :: r' =>
       if (JS.code x =? 120) || (JS.code x =? 88)
       then (fun v => sign * v) <$> JS.digits_prefix 16 r' None
       else (fun v => sign * v) <$> JS.digits_prefix 10 cs None
   | _ => (fun v => sign * v) <$> JS.digits_prefix 10 cs None
   end) = (fun v => sign * v) <$> JS.digits_prefix 10 cs None.
Proof.
  intros Hall.
  destruct cs as [|c [|x r]]; [done|..].
  - by destruct c as [[] [] [] [] [] [] [] []].
  - apply Forall_cons in Hall as [_ Hall]. apply Forall_cons in Hall as [Hx _].
    assert ((JS.code x =? 120) || (JS.code x =? 88) = false) as Hhex.
    { destruct (JS.code x =? 120) eqn:E1, (JS.code x =? 88) eqn:E2; cbn; try reflexivity; lia. }
    destruct c as [[] [] [] [] [] [] [] []]; by rewrite ?Hhex.
Qed.

Lemma digits_prefix_start (d : Decimal.uint) :
  d <> Decimal.Nil ->
  JS.digits_prefix 10 (String.list_ascii_of_string (NilEmpty.string_of_uint d)) None
  = Some (uint_value d 0).
Proof.
  intros Hd. rewrite <- (digits_prefix_uint d 0).
  destruct d; [done|..]; reflexivity.
Qed.

(** [parseInt] reads the decimal notation of an integer back. *)
Lemma parseInt_toString (z : Z) : JS.parseInt (JS.toString z) = Some z.
Proof.
  unfold JS.parseInt, JS.toString.
  pose proof (DecimalZ.of_to z) as Hz.
  destruct (Z.to_int z) as [d|d] eqn:Hd.
  - assert (Hnil : d <> Decimal.Nil).
    { destruct z; cbn in Hd; simplify_eq; [done|].
      apply DecimalPos.Unsigned.to_uint_nonnil. }
    assert (NilZero.string_of_int (Decimal.Pos d) = NilEmpty.string_of_uint d) as ->.
    { cbn. unfold NilZero.string_of_uint. by destruct d. }
    pose proof (string_of_uint_digits d) as Hdigits.
    set (cs := String.list_ascii_of_string (NilEmpty.string_of_uint d)) in *.
    assert (Htrim : JS.trimStart_list cs = cs).
    { destruct Hdigits as [|c r Hc _]; [done|]. cbn. by rewrite digit_not_white. }
    rewrite Htrim.
    assert (Hsigned : JS.signed cs = (1, cs)).
    { destruct Hdigits as [|c r Hc _]; [done|].
      destruct c as [[] [] [] [] [] [] [] []]; try reflexivity;
        unfold JS.code in Hc; cbn in Hc; lia. }
    rewrite Hsigned, (parseInt_digits cs 1 Hdigits). subst cs.
    rewrite (digits_prefix_start d Hnil). cbn. f_equal.
    rewrite <- of_uint_value. cbn in Hz. unfold Z.of_uint in Hz. lia.
  - destruct z; cbn in Hd; simplify_eq.
    set (d := Pos.to_uint p) in *.
    assert (Hnil : d <> Decimal.Nil) by apply DecimalPos.Unsigned.to_uint_nonnil.
    assert (NilZero.string_of_int (Decimal.Neg d)
            = String "-" (NilEmpty.string_of_uint d)) as ->.
    { cbn. unfold NilZero.string_of_uint. by destruct d. }
    pose proof (string_of_uint_digits d) as Hdigits.
    cbn [String.list_ascii_of_string JS.trimStart_list].
    change (JS.is_white "-") with false. cbn [JS.signed].
    change (JS.signed ("-"%char :: ?l)) with (-1, l).
    rewrite (parseInt_digits _ (-1) Hdigits), (digits_prefix_start d Hnil). cbn. f_equal.
    rewrite <- of_uint_value. cbn in Hz. unfold Z.of_uint in Hz. lia.
Qed.

(** On a safe integer the test of the middleware is the comparison of
    the number itself with the two bounds. *)
Lemma out_of_range_safe (value : option Z) (bound : Z) :
  safe_integer value ->
  out_of_range value bound
  = Some match value with
         | Some n => (n <? 0) || (bound <? n)
         | None => false
         end.
Proof.
  intros Hdec. destruct value as [n|]; [|done].
  unfold out_of_range, JS.decimal_notation.
  rewrite (proj2 (Z.ltb_lt _ _) (Hdec n eq_refl)). by rewrite parseInt_toString.
Qed.

(** ** The validation middleware and the defaults of the route *)

Lemma post_find_rejected lc loaded reload now body response :
  validatePathfindingRequest body = inl response ->
  post_find lc loaded reload now body = response.
Proof. intros H. unfold post_find. by rewrite H. Qed.

(** A body that the middleware passes on meets the call of [require]. *)
Lemma post_find_accepted lc loaded reload now body v :
  validatePathfindingRequest body = inr v ->
  post_find lc loaded reload now body = Failed 500 "Internal Server Error".
Proof. intros H. unfold post_find. by rewrite H. Qed.


(** The replies of the middleware. *)
Lemma rejections_are_400 (body : Body) (response : Response) :
  validatePathfindingRequest body = inl response ->
  response = Unfollowed \/
  exists message field,
    response = Rejected 400 "Bad Request" message (Some field) /\
    field ∈ ["start_station"; "end_station"; "max_transfers"; "window_minutes"].
Proof.
  unfold validatePathfindingRequest, bad_request. intros Hv.
  repeat (match type of Hv with
          | context [match ?x with _ => _ end] => destruct x
          end; try discriminate);
    injection Hv as <-; first [by left | right];
    eexists _, _; (split; [reflexivity|]);
    repeat (first [by left | right]).
Qed.

Lemma safe_rejections_are_400 (body : Body) (response : Response) :
  safe_numbers body ->
  validatePathfindingRequest body = inl response ->
  exists message field,
    response = Rejected 400 "Bad Request" message (Some field) /\
    field ∈ ["start_station"; "end_station"; "max_transfers"; "window_minutes"].
Proof.
  intros [Hm Hw] Hv.
  destruct (rejections_are_400 body response Hv) as [->|H]; [|done]. exfalso.
  unfold validatePathfindingRequest in Hv.
  rewrite (out_of_range_safe _ _ Hm), (out_of_range_safe _ _ Hw) in Hv.
  repeat (match type of Hv with
          | context [match ?x with _ => _ end] => destruct x
          end; try discriminate).
Qed.

(** C2, as amended. A request that carries [max_transfers], a safe
    integer, and is otherwise acceptable is accepted
    exactly when [0 <= max_transfers <= 5], the bound
    [config.validation.maxTransfers]; a request whose [max_transfers] lies
    outside [[0, 5]] is answered by the middleware with status 400,
    whatever data are loaded: the handler, and with it the enumerator, is
    not reached. *)
Theorem max_transfers_accepted_up_to_five
    (localeCompare : string -> string -> Z)
    (loaded reload : option Snapshot) (now : string) (body : Body) (m : Z) :
  max_transfers body = Some m ->
  Z.abs m < 2 ^ 53 ->
  (accepted (validatePathfindingRequest body) -> 0 <= m <= 5) /\
  (0 <= m <= 5 ->
   accepted (validatePathfindingRequest (with_max_transfers None body)) ->
   accepted (validatePathfindingRequest body)) /\
  (~ 0 <= m <= 5 ->
   exists message field,
     validatePathfindingRequest body = inl (Rejected 400 "Bad Request" message field) /\
     post_find localeCompare loaded reload now body
       = Rejected 400 "Bad Request" message field).
Proof.
  intros Hm Hsmall.
  assert (Hrange : out_of_range (max_transfers body) Config.validation.maxTransfers
                   = Some ((m <? 0) || (5 <? m))).
  { rewrite out_of_range_safe; [by rewrite Hm|]. rewrite Hm. by intros n [= <-]. }
  split; [|split].
  - unfold validatePathfindingRequest. rewrite Hrange.
    repeat case_match; cbn; try tauto; intros _; lia.
  - intros Hr. unfold validatePathfindingRequest, with_max_transfers. cbn. rewrite Hrange.
    repeat case_match; cbn; try tauto; lia.
  - intros Hout.
    assert (exists message field,
      validatePathfindingRequest body = inl (Rejected 400 "Bad Request" message field))
      as (message & field & Hv).
    { unfold validatePathfindingRequest. rewrite Hrange. unfold bad_request.
      repeat case_match; eauto; lia. }
    exists message, field. split; [done|]. by apply post_find_rejected.
Qed.

Lemma max_transfers_accepted_up_to_five_witness :
  max_transfers six_transfers_request = Some 6 /\
  Z.abs 6 < 2 ^ 53 /\
  ~ 0 <= 6 <= 5 /\
  exists message field,
    validatePathfindingRequest six_transfers_request
      = inl (Rejected 400 "Bad Request" message field) /\
    post_find compare_code_units (Some one_transfer_snapshot) None ""
      six_transfers_request = Rejected 400 "Bad Request" message field.
Proof.
  split; [reflexivity|]. split; [reflexivity|]. split; [lia|].
  apply (max_transfers_accepted_up_to_five compare_code_units
           (Some one_transfer_snapshot) None "" six_transfers_request 6 eq_refl eq_refl).
  lia.
Defined.

(** C2 as stated fails for [max_transfers = 3]: the middleware accepts the
    request and passes it to the handler, and the reply is not the 400 of
    the middleware but the 500 of the error handler. *)
Lemma three_transfers_accepted :
  max_transfers three_transfers_request = Some 3 /\
  ~ 0 <= 3 <= 2 /\
  accepted (validatePathfindingRequest three_transfers_request) /\
  status_of (post_find compare_code_units (Some one_transfer_snapshot) None ""
               three_transfers_request) = Some 500 /\
  status_of (post_find compare_code_units (Some one_transfer_snapshot) None ""
               three_transfers_request) <> Some 400.
Proof.
  split; [reflexivity|]. split; [lia|].
  assert (Hv : validatePathfindingRequest three_transfers_request
               = inr (mkValidBody "X" "Z" (Some 3) None None))
    by (vm_compute; reflexivity).
  split; [by rewrite Hv|].
  rewrite (post_find_accepted _ _ _ _ _ _ Hv). cbn. split; [reflexivity | discriminate].
Qed.






(** ** The enumerator *)

Lemma for_of_ok_inv {A St} (body : A -> St -> result St) (P : St -> Prop) (l : list A) :
  (forall x s s', x ∈ l -> P s -> body x s = Ok s' -> P s') ->
  forall s s', P s -> for_of body l s = Ok s' -> P s'.
Proof.
  induction l as [|x l IH]; intros Hbody s s' Hs Hrun; cbn in Hrun.
  - by injection Hrun as <-.
  - destruct (body x s) as [s1|e] eqn:Hx; [|done]. cbn in Hrun.
    eapply IH; [| |exact Hrun].
    + intros y t t' Hy. apply Hbody. by right.
    + eapply Hbody; [by left | exact Hs | exact Hx].
Qed.

Lemma startNodes_of_spec (nodes : list Node) (startStation : string) (i : nat) :
  i ∈ startNodes_of nodes startStation <->
  exists node, nodes !! i = Some node /\ station node = startStation.
Proof.
  unfold startNodes_of. rewrite list_elem_of_fmap. split.
  - intros ([j node] & -> & Hin). apply list_elem_of_In, filter_In in Hin as [Hin Hst].
    apply list_elem_of_In, list_elem_of_lookup in Hin as [k Hk].
    rewrite list_lookup_imap in Hk.
    destruct (nodes !! k) as [n|] eqn:Hn; [|done]. injection Hk as <- <-.
    exists n. split; [done|]. by apply bool_decide_eq_true in Hst.
  - intros (node & Hn & Hst). exists (i, node). split; [done|].
    apply list_elem_of_In, filter_In. split.
    + apply list_elem_of_In, list_elem_of_lookup. exists i.
      by rewrite list_lookup_imap, Hn.
    + by apply bool_decide_eq_true.
Qed.

Lemma insert_sorted_perm {A} (cmp : A -> A -> Z) (x : A) (l : list A) :
  JS.insert_sorted cmp x l ≡ₚ x :: l.
Proof.
  induction l as [|y l IH]; cbn; [done|].
  destruct (0 <? cmp x y); [|done].
  rewrite IH. apply Permutation_swap.
Qed.

Lemma sort_perm {A} (cmp : A -> A -> Z) (l : list A) : JS.sort cmp l ≡ₚ l.
Proof.
  induction l as [|x l IH]; cbn; [done|].
  rewrite insert_sorted_perm. by rewrite IH.
Qed.

Lemma assign_ids_elem {D} (l : list (PathRec D)) (p : PathRec D) :
  p ∈ assign_ids l -> exists k q, q ∈ l /\ p = set_id k q.
Proof.
  unfold assign_ids. intros Hp.
  apply list_elem_of_lookup in Hp as [i Hi]. rewrite list_lookup_imap in Hi.
  destruct (l !! i) as [q|] eqn:Hq; [|done]. injection Hi as <-.
  exists (Z.of_nat i + 1), q. split; [|done]. by eapply list_elem_of_lookup_2.
Qed.

Section Enumeration.

Variable localeCompare : string -> string -> Z.
Variable nodes : list Node.
Variable adjacency : gmap nat (list Edge).
Variable startStation endStation : string.
Variable trainInfo : gmap string TrainInfo.
Variable directionMap : option (gmap string (list Z)).
Variable maxTransfers : Z.
Variable allowSameStationConsecutiveTransfers : bool.

Abbreviation Reachable_ := (Reachable nodes adjacency startStation endStation maxTransfers
                          allowSameStationConsecutiveTransfers).
Abbreviation Emitted_ := (Emitted nodes adjacency startStation endStation trainInfo directionMap
                        maxTransfers allowSameStationConsecutiveTransfers).
Abbreviation explores_ := (explores nodes adjacency endStation maxTransfers
                         allowSameStationConsecutiveTransfers).
Abbreviation dfs_frame_ := (dfs_frame nodes adjacency endStation trainInfo directionMap
                          maxTransfers allowSameStationConsecutiveTransfers).

(** The four ways one turn of the loop over the neighbours ends. *)
Lemma visit_cases
    (recurse : nat -> Z -> Z -> list nat -> list HistoryEdge -> list string ->
               Z -> option string -> ServiceState -> result ServiceState)
    (f : Frame) (current : Node) (edge : Edge) (st : ServiceState) :
  nodes !! f_idx f = Some current ->
  ~ at_destination endStation f current ->
  edge ∈ default [] (adjacency !! f_idx f) ->
  let r := visit nodes maxTransfers allowSameStationConsecutiveTransfers recurse
             (f_idx f) current (f_time f) (f_transfers f) (f_path f) (f_history f)
             (f_trains f) (f_start f) (f_last f) edge st in
  r = Ok st \/
  r = Ok (mkState (paths st) (skipped_same_station_transfers st + 1)) \/
  (r = Err TypeError /\ nodes !! edge_to edge = None) \/
  exists neighbor,
    explores_ f current edge neighbor /\
    let f' := next_frame current neighbor edge f in
    r = recurse (f_idx f') (f_time f') (f_transfers f') (f_path f') (f_history f')
          (f_trains f') (f_start f') (f_last f') st.
Proof.
  intros Hcur Hdest Hedge. cbn zeta. unfold visit.
  case_bool_decide as Hseen; [by left|].
  destruct (nodes !! edge_to edge) as [neighbor|] eqn:Hnb; [|right; right; left; done].
  destruct (edge_duration edge <=? 0) eqn:Hdur; [by left|].
  apply Z.leb_gt in Hdur.
  fold (is_transfer current neighbor edge).
  fold (same_station_again allowSameStationConsecutiveTransfers current neighbor edge f).
  destruct (same_station_again _ _ _ _ _) eqn:Hsame; [right; left; done|].
  destruct (maxTransfers <? _) eqn:Hmax; [by left|].
  apply Z.ltb_ge in Hmax.
  right; right; right. exists neighbor. split; [|reflexivity].
  unfold explores. cbn. repeat split; try done.
Qed.

(** Every summary [dfs] pushes is emitted at a frame reached from the one
    it was called with. *)
Lemma dfs_emits (fuel : nat) :
  forall f st st',
    Reachable_ f ->
    dfs_frame_ fuel f st = Ok st' ->
    exists new, paths st' = paths st ++ new /\
                Forall (fun p => exists f', Emitted_ f' p) new.
Proof.
  induction fuel as [|fuel IH]; intros f st st' Hreach Hrun; [done|].
  unfold dfs_frame in Hrun. cbn [dfs] in Hrun.
  destruct (nodes !! f_idx f) as [current|] eqn:Hcur; [|done].
  destruct (bool_decide (station current = endStation) && (0 <? Z.of_nat (length (f_history f))))
    eqn:Hdest.
  - apply andb_true_iff in Hdest as [Hst Hlen].
    apply bool_decide_eq_true in Hst. apply Z.ltb_lt in Hlen.
    destruct (summarizePath _ _ _ _ _ _) as [p|e] eqn:Hsum; [|done]. cbn in Hrun.
    destruct (rejected_by_direction directionMap p) eqn:Hrej; injection Hrun as <-.
    + exists []. by rewrite app_nil_r.
    + exists [p]. split; [done|]. constructor; [|done].
      exists f. split; [done|]. split; [|done].
      exists current. split; [done|]. split; [done|].
      intros Hnil. rewrite Hnil in Hlen. cbn in Hlen. lia.
  - assert (Hnot : ~ at_destination endStation f current).
    { intros [Hst Hne]. apply andb_false_iff in Hdest as [Hd|Hd].
      - by apply bool_decide_eq_false in Hd.
      - apply Z.ltb_ge in Hd. destruct (f_history f); [done | cbn in Hd; lia]. }
    revert Hrun.
    apply (for_of_ok_inv _
      (fun s => exists new, paths s = paths st ++ new /\
                            Forall (fun p => exists f', Emitted_ f' p) new)).
    + intros edge s s' Hedge (new & Hs & Hnew) Hvisit.
      pose proof (visit_cases
        (dfs nodes adjacency endStation trainInfo directionMap maxTransfers
           allowSameStationConsecutiveTransfers fuel) f current edge s Hcur Hnot Hedge) as Hc.
      cbn zeta in Hc. rewrite Hvisit in Hc.
      destruct Hc as [Hc|[Hc|[[Hc _]|(neighbor & Hexp & Hc)]]].
      * injection Hc as ->. by exists new.
      * injection Hc as ->. by exists new.
      * done.
      * symmetry in Hc.
        apply (IH (next_frame current neighbor edge f)) in Hc as (new' & Hs' & Hnew').
        -- exists (new ++ new'). rewrite Hs', Hs, app_assoc. split; [done|].
           by apply Forall_app.
        -- by eapply reach_step.
    + exists []. by rewrite app_nil_r.
Qed.

(** Every record returned by [findAllPaths] is an emitted summary with its
    [id] set. *)
Lemma findAllPaths_emits (st : ServiceState) (p : PathSummary) :
  findAllPaths localeCompare nodes adjacency startStation endStation trainInfo
    directionMap maxTransfers allowSameStationConsecutiveTransfers = Ok st ->
  p ∈ paths st ->
  exists k q f, p = set_id k q /\ Emitted_ f q.
Proof.
  unfold findAllPaths. case_bool_decide as Hstart.
  { intros [= <-] Hp. by apply elem_of_nil in Hp. }
  destruct (for_of _ _ _) as [st0|e] eqn:Hloop; [|done]. cbn.
  intros [= <-] Hp. cbn in Hp.
  apply assign_ids_elem in Hp as (k & q & Hq & ->).
  rewrite sort_perm in Hq.
  exists k, q.
  assert (Hall : Forall (fun p => exists f', Emitted_ f' p) (paths st0)).
  { revert Hloop.
    apply (for_of_ok_inv _ (fun s => Forall (fun p => exists f', Emitted_ f' p) (paths s)));
      [|by constructor].
    intros startIdx s s' Hidx Hs Hrun.
    apply startNodes_of_spec in Hidx as (start & Hnode & Hstation).
    unfold start_dfs in Hrun. rewrite Hnode in Hrun.
    destruct (parseTime (time start)) as [startTime|] eqn:Htime; [|done].
    apply (dfs_emits _ (first_frame startIdx start startTime)) in Hrun
      as (new & -> & Hnew); [by apply Forall_app | by constructor]. }
  rewrite Forall_forall in Hall. destruct (Hall q Hq) as [f Hf]. by exists f.
Qed.

End Enumeration.
(** ** What [summarizePath] computes *)

Lemma walk_history_ok nodes edgeHistory :
  forall timeline details timeline' details',
    walk_history nodes edgeHistory timeline details = Ok (timeline', details') ->
    timeline' = timeline + duration_of edgeHistory /\
    length details' = (length details + transfers_in edgeHistory)%nat.
Proof.
  induction edgeHistory as [|edge rest IH]; intros timeline details timeline' details' Hrun;
    cbn in Hrun.
  - injection Hrun as <- <-. cbn. split; [lia | unfold transfers_in; cbn; lia].
  - unfold transfers_in. cbn [duration_of foldr List.filter].
    fold (duration_of rest). fold (transfers_in rest).
    case_bool_decide as Htype.
    + destruct (nodes !! h_from edge) as [n|]; [|done].
      apply IH in Hrun as [-> ->]. rewrite length_app. cbn.
      fold (transfers_in rest). split; lia.
    + apply IH in Hrun as [-> ->]. fold (transfers_in rest). split; lia.
Qed.

Lemma summarizePath_ok nodes edgeHistory trainSequence startTime endTime trainInfo p :
  summarizePath nodes edgeHistory trainSequence startTime endTime trainInfo = Ok p ->
  id p = None /\
  train_sequence p = trainSequence /\
  transfer_count p = Z.of_nat (length (transfer_details p)) /\
  length (transfer_details p) = transfers_in edgeHistory /\
  departure_time p = toTime startTime /\
  arrival_time p = toTime endTime /\
  total_minutes p = (if endTime - startTime <? 0 then endTime - startTime + 1440
                     else endTime - startTime) /\
  transfer_options p = None.
Proof.
  unfold summarizePath.
  destruct (walk_history _ _ _ _) as [[timeline details]|e] eqn:Hwalk; [|done].
  cbn. intros [= <-]. cbn.
  apply walk_history_ok in Hwalk as [-> Hlen]. cbn in Hlen.
  assert (Hend : (if bool_decide (startTime + duration_of edgeHistory <> endTime)
                  then endTime else startTime + duration_of edgeHistory) = endTime).
  { by case_bool_decide. }
  rewrite Hend. done.
Qed.

Lemma set_id_fields {D} (k : Z) (q : PathRec D) :
  train_sequence (set_id k q) = train_sequence q /\
  transfer_details (set_id k q) = transfer_details q /\
  transfer_count (set_id k q) = transfer_count q /\
  total_minutes (set_id k q) = total_minutes q /\
  departure_time (set_id k q) = departure_time q /\
  arrival_time (set_id k q) = arrival_time q.
Proof. done. Qed.

(** ** Invariants of the reachable frames *)

Section ReachableFrames.

Variable nodes : list Node.
Variable adjacency : gmap nat (list Edge).
Variable startStation endStation : string.
Variable maxTransfers : Z.
Variable allowSameStationConsecutiveTransfers : bool.

Abbreviation Reachable_ := (Reachable nodes adjacency startStation endStation maxTransfers
                          allowSameStationConsecutiveTransfers).

(** The frame stands at a node, and the last train of the sequence is the
    train of that node. *)
Lemma reachable_last_train (f : Frame) :
  Reachable_ f ->
  exists current, nodes !! f_idx f = Some current /\
                  last (f_trains f) = Some (train current).
Proof.
  induction 1 as [startIdx start startTime Hnode _ _
                 |f current edge neighbor _ _ (_ & _ & _ & _ & Hnb & _)].
  - exists start. by split.
  - exists neighbor. cbn. split; [done|].
    case_bool_decide as Hlast; [done|]. by rewrite last_snoc.
Qed.

(** The clock of the frame is the start time plus the durations of the
    edges taken, each of which is positive. *)
Lemma reachable_time (f : Frame) :
  Reachable_ f ->
  f_time f = f_start f + duration_of (f_history f) /\
  Forall (fun h => 0 < h_duration h) (f_history f) /\
  exists start, start ∈ nodes /\ station start = startStation /\
                parseTime (time start) = Some (f_start f).
Proof.
  induction 1 as [startIdx start startTime Hnode Hst Htime
                 |f current edge neighbor _ (IHt & IHpos & IHstart)
                    (_ & _ & _ & _ & _ & Hdur & _)].
  - cbn. split; [lia|]. split; [done|].
    exists start. split; [by eapply list_elem_of_lookup_2 | done].
  - cbn. split; [|split; [|done]].
    + unfold duration_of. rewrite foldr_app. cbn.
      assert (Hfold : forall l a, foldr (fun h acc => h_duration h + acc) a l
                                  = duration_of l + a).
      { induction l as [|h l IHl]; intros a; cbn; [lia|].
        fold (duration_of l). rewrite IHl. lia. }
      rewrite Hfold, IHt. lia.
    + apply Forall_app. split; [done|]. by constructor.
Qed.

Lemma duration_of_nonneg (l : list HistoryEdge) :
  Forall (fun h => 0 < h_duration h) l -> 0 <= duration_of l.
Proof.
  induction 1 as [|h l Hh _ IH]; cbn; [lia|]. fold (duration_of l). lia.
Qed.

(** When the edges follow the data model, the sequence holds one train
    more than the history holds transfer edges. *)
Lemma reachable_transfers (f : Frame) :
  edges_respect_trains nodes adjacency ->
  Reachable_ f ->
  length (f_trains f) = S (transfers_in (f_history f)).
Proof.
  intros Hmodel.
  induction 1 as [startIdx start startTime Hnode _ _
                 |f current edge neighbor Hreach IH
                    (Hcur & _ & Hedge & _ & Hnb & _)]; [done|].
  cbn. unfold transfers_in. rewrite List.filter_app, length_app. cbn.
  fold (transfers_in (f_history f)).
  destruct (reachable_last_train f Hreach) as (current' & Hcur' & Hlast).
  rewrite Hcur in Hcur'. injection Hcur' as <-.
  destruct (adjacency !! f_idx f) as [edges|] eqn:Hadj;
    [|by apply elem_of_nil in Hedge].
  cbn in Hedge.
  pose proof (Hmodel _ _ _ _ _ Hcur Hadj Hedge Hnb) as Htype.
  rewrite Hlast.
  destruct (decide (train neighbor = train current)) as [Heq|Hne].
  - assert (Hno : edge_type edge <> "transfer") by (intros Ht; by apply Htype in Ht).
    rewrite (bool_decide_eq_false_2 _ Hno).
    rewrite bool_decide_eq_true_2 by congruence. cbn. lia.
  - assert (Hyes : edge_type edge = "transfer") by (by apply Htype).
    rewrite (bool_decide_eq_true_2 _ Hyes).
    rewrite bool_decide_eq_false_2 by congruence. rewrite length_app. cbn. lia.
Qed.

End ReachableFrames.

(** ** The summaries of the enumerator *)

(** C6, as amended. Every summary returned by [findAllPaths] has
    [transfer_count] equal to the length of [transfer_details]; and when
    the edges of the graph follow the data model (an edge is a transfer
    edge exactly when it changes train), [transfer_count] is also the
    length of [train_sequence] minus one. *)
Theorem transfer_count_matches_trains
    (localeCompare : string -> string -> Z) (nodes : list Node)
    (adjacency : gmap nat (list Edge)) (startStation endStation : string)
    (trainInfo : gmap string TrainInfo) (directionMap : option (gmap string (list Z)))
    (maxTransfers : Z) (allowSameStationConsecutiveTransfers : bool)
    (st : ServiceState) (p : PathSummary) :
  findAllPaths localeCompare nodes adjacency startStation endStation trainInfo
    directionMap maxTransfers allowSameStationConsecutiveTransfers = Ok st ->
  p ∈ paths st ->
  transfer_count p = Z.of_nat (length (transfer_details p)) /\
  (edges_respect_trains nodes adjacency ->
   transfer_count p = Z.of_nat (length (train_sequence p)) - 1).
Proof.
  intros Hfind Hp.
  destruct (findAllPaths_emits _ _ _ _ _ _ _ _ _ _ _ Hfind Hp)
    as (k & q & f & -> & Hreach & _ & Hsum & _).
  apply summarizePath_ok in Hsum as (_ & Hseq & Hcount & Hlen & _).
  cbn. split; [done|]. intros Hmodel.
  pose proof (reachable_transfers _ _ _ _ _ _ f Hmodel Hreach) as Htrains.
  rewrite Hcount, Hseq, Hlen, Htrains. lia.
Qed.

(** The concrete graphs follow the data model. *)
Lemma one_transfer_respects_trains :
  edges_respect_trains one_transfer_nodes one_transfer_adjacency.
Proof.
  intros i current edges edge neighbor Hcur Hadj Hedge Hnb.
  list_to_map_cases Hadj; list_cases Hedge;
    cbn in Hcur, Hnb; injection Hcur as <-; injection Hnb as <-; cbn;
    split; (done || congruence).
Qed.

Lemma one_transfer_clock_times : clock_times one_transfer_nodes.
Proof.
  intros node Hnode. list_cases Hnode; cbn.
  - exists 480. by split.
  - exists 510. by split.
  - exists 520. by split.
  - exists 550. by split.
Qed.

Lemma transfer_count_matches_trains_witness :
  exists st p,
    findAllPaths compare_code_units one_transfer_nodes one_transfer_adjacency
      "X" "Z" ∅ (Some ∅) 2 false = Ok st /\
    p ∈ paths st /\
    edges_respect_trains one_transfer_nodes one_transfer_adjacency /\
    transfer_count p = 1 /\
    transfer_count p = Z.of_nat (length (transfer_details p)) /\
    transfer_count p = Z.of_nat (length (train_sequence p)) - 1.
Proof.
  eexists _, _. split; [vm_compute; reflexivity|].
  split; [apply list_elem_of_here|].
  split; [exact one_transfer_respects_trains|]. split; [reflexivity|].
  pose proof (transfer_count_matches_trains compare_code_units one_transfer_nodes
                one_transfer_adjacency "X" "Z" ∅ (Some ∅) 2 false _ _
                eq_refl (list_elem_of_here _ _)) as [Hdetails Htrains].
  split; [exact Hdetails | exact (Htrains one_transfer_respects_trains)].
Defined.

(** C6 as stated fails on a graph file that leaves out the type of the
    edge on which the itinerary changes from T1 to T2: the adjacency list
    has that edge with type [travel], the enumerator counts the change of
    train and writes both trains into the train sequence, and the summary
    counts no transfer. *)
Lemma travel_edge_between_trains :
  buildAdjacencyList one_transfer_nodes untyped_change_edges
  = Ok untyped_change_adjacency /\
  ~ edges_respect_trains one_transfer_nodes untyped_change_adjacency /\
  exists st p,
    findAllPaths compare_code_units one_transfer_nodes untyped_change_adjacency
      "X" "Z" ∅ (Some ∅) 2 false = Ok st /\
    paths st = [p] /\
    train_sequence p = ["T1"; "T2"] /\
    transfer_details p = [] /\
    transfer_count p = 0 /\
    transfer_count p <> Z.of_nat (length (train_sequence p)) - 1.
Proof.
  split; [vm_compute; reflexivity|]. split.
  { intros Hmodel.
    destruct (Hmodel 1%nat (mkNode "Y" "T1" "08:30") [mkEdge 2 "travel" 10]
                (mkEdge 2 "travel" 10) (mkNode "Y" "T2" "08:40")
                eq_refl ltac:(vm_compute; reflexivity) ltac:(by left) eq_refl)
      as [_ Hback].
    by discriminate Hback. }
  eexists _, _. split; [vm_compute; reflexivity|].
  split; [reflexivity|]. split; [reflexivity|]. split; [reflexivity|].
  split; [reflexivity | discriminate].
Qed.

(** C7, as amended. For every summary returned by [findAllPaths],
    [total_minutes] is the sum of the durations of the edges of the trace
    it was computed from; and when the node times are written [HH:MM] it
    is congruent modulo 1440 to
    [parse(arrival_time) - parse(departure_time)], and equal to that
    difference reduced modulo 1440 when the sum is below 1440. *)
Theorem total_minutes_is_trace_duration
    (localeCompare : string -> string -> Z) (nodes : list Node)
    (adjacency : gmap nat (list Edge)) (startStation endStation : string)
    (trainInfo : gmap string TrainInfo) (directionMap : option (gmap string (list Z)))
    (maxTransfers : Z) (allowSameStationConsecutiveTransfers : bool)
    (st : ServiceState) (p : PathSummary) :
  findAllPaths localeCompare nodes adjacency startStation endStation trainInfo
    directionMap maxTransfers allowSameStationConsecutiveTransfers = Ok st ->
  p ∈ paths st ->
  exists k q f,
    p = set_id k q /\
    Emitted nodes adjacency startStation endStation trainInfo directionMap
      maxTransfers allowSameStationConsecutiveTransfers f q /\
    total_minutes p = duration_of (f_history f) /\
    (clock_times nodes ->
     exists arrival departure,
       parseTime (arrival_time p) = Some arrival /\
       parseTime (departure_time p) = Some departure /\
       (arrival - departure) mod 1440 = total_minutes p mod 1440 /\
       (total_minutes p < 1440 -> total_minutes p = (arrival - departure) mod 1440)).
Proof.
  intros Hfind Hp.
  destruct (findAllPaths_emits _ _ _ _ _ _ _ _ _ _ _ Hfind Hp)
    as (k & q & f & -> & Hemit).
  exists k, q, f. split; [done|]. split; [done|].
  destruct Hemit as (Hreach & _ & Hsum & _).
  apply summarizePath_ok in Hsum as (_ & _ & _ & _ & Hdep & Harr & Htotal & _).
  destruct (reachable_time _ _ _ _ _ _ f Hreach)
    as (Htime & Hpos & start & Hstart & _ & Hparse).
  apply duration_of_nonneg in Hpos.
  assert (Hsum : total_minutes q = duration_of (f_history f)).
  { rewrite Htotal, Htime.
    destruct (f_start f + duration_of (f_history f) - f_start f <? 0) eqn:E;
      [apply Z.ltb_lt in E|]; lia. }
  split; [done|]. intros Hclock. cbn. rewrite Harr, Hdep, Hsum.
  assert (Hstart0 : 0 <= f_start f).
  { destruct (Hclock _ Hstart) as (m & Hm & Hstr). rewrite Hstr in Hparse.
    destruct (parseTime_toTime_nonneg m ltac:(lia)) as (v & Hv & _ & Hrange).
    rewrite Hv in Hparse. injection Hparse as <-. lia. }
  destruct (parseTime_toTime_nonneg (f_time f) ltac:(lia)) as (a & Ha & Hamod & _).
  destruct (parseTime_toTime_nonneg (f_start f) Hstart0) as (d & Hd & Hdmod & _).
  exists a, d. split; [done|]. split; [done|].
  assert (Hcong : (a - d) mod 1440 = duration_of (f_history f) mod 1440).
  { rewrite Zminus_mod, Hamod, Hdmod, <- Zminus_mod. f_equal. lia. }
  split; [done|]. intros Hday. rewrite Hcong. by rewrite Z.mod_small by lia.
Qed.

Lemma total_minutes_is_trace_duration_witness :
  exists st p,
    findAllPaths compare_code_units one_transfer_nodes one_transfer_adjacency
      "X" "Z" ∅ (Some ∅) 2 false = Ok st /\
    p ∈ paths st /\
    clock_times one_transfer_nodes /\
    total_minutes p = 70 /\
    parseTime (arrival_time p) = Some 550 /\
    parseTime (departure_time p) = Some 480 /\
    exists k q f,
      p = set_id k q /\
      Emitted one_transfer_nodes one_transfer_adjacency "X" "Z" ∅ (Some ∅) 2 false f q /\
      total_minutes p = duration_of (f_history f) /\
      (clock_times one_transfer_nodes ->
       exists arrival departure,
         parseTime (arrival_time p) = Some arrival /\
         parseTime (departure_time p) = Some departure /\
         (arrival - departure) mod 1440 = total_minutes p mod 1440 /\
         (total_minutes p < 1440 -> total_minutes p = (arrival - departure) mod 1440)).
Proof.
  eexists _, _. split; [vm_compute; reflexivity|].
  split; [apply list_elem_of_here|].
  split; [exact one_transfer_clock_times|].
  split; [reflexivity|]. split; [reflexivity|]. split; [reflexivity|].
  exact (total_minutes_is_trace_duration compare_code_units one_transfer_nodes
           one_transfer_adjacency "X" "Z" ∅ (Some ∅) 2 false _ _
           eq_refl (list_elem_of_here _ _)).
Defined.

(** C7 as stated fails for a journey of a day or more: the train leaves X
    at 08:00 and reaches Z at 09:00 on the next day, [total_minutes] is
    the 1500 minutes travelled, and the two times of day are 60 minutes
    apart. *)
Lemma overnight_total_minutes :
  exists p,
    findAllPaths compare_code_units overnight_nodes overnight_adjacency
      "X" "Z" ∅ (Some ∅) 2 false = Ok (mkState [p] 0) /\
    total_minutes p = 1500 /\
    parseTime (departure_time p) = Some 480 /\
    parseTime (arrival_time p) = Some 540 /\
    total_minutes p <> (540 - 480) mod 1440.
Proof.
  eexists. split; [vm_compute; reflexivity|].
  split; [reflexivity|]. split; [reflexivity|]. split; [reflexivity|]. discriminate.
Qed.

(** ** The directionality check *)

Lemma opposite_on_a_line_true (a b : list Z) :
  opposite_on_a_line a b = true <->
  exists (j : nat) x y, a !! j = Some x /\ b !! j = Some y /\ x <> 0 /\ y <> 0 /\ x = - y.
Proof.
  revert b. induction a as [|x a IH]; intros [|y b]; cbn.
  - split; [done|]. by intros (j & ? & ? & ? & _).
  - split; [done|]. by intros (j & ? & ? & ? & _).
  - split; [done|]. intros (j & ? & ? & _ & ? & _). by destruct j.
  - rewrite orb_true_iff, !andb_true_iff, !negb_true_iff, !Z.eqb_neq, Z.eqb_eq, IH.
    split.
    + intros [((Hx & Hy) & Hxy)|(j & x' & y' & Ha & Hb & H)].
      * exists 0%nat, x, y. done.
      * exists (S j), x', y'. done.
    + intros ([|j] & x' & y' & Ha & Hb & H); cbn in Ha, Hb.
      * injection Ha as <-. injection Hb as <-. left. tauto.
      * right. by exists j, x', y'.
Qed.

Lemma direction_invalid_true (directionMap : gmap string (list Z)) (seq : list string) :
  direction_invalid directionMap seq = true <-> opposing_directions directionMap seq.
Proof.
  unfold opposing_directions.
  induction seq as [|t1 rest IH]; cbn.
  - split; [done|]. by intros (i & ? & ? & ? & ? & ? & ? & ? & ? & _).
  - destruct rest as [|t2 rest'].
    + split; [done|]. intros (i & ? & ? & ? & ? & ? & ? & ? & _ & H & _). by destruct i.
    + rewrite orb_true_iff, IH. split.
      * intros [Hhere|(i & u1 & u2 & a & b & j & x & y & H1 & H2 & Ha & Hb & Hx & Hy & H)].
        -- destruct (directionMap !! t1) as [a|] eqn:Ha; [|done].
           destruct (directionMap !! t2) as [b|] eqn:Hb; [|done].
           apply opposite_on_a_line_true in Hhere as (j & x & y & Hx & Hy & H).
           exists 0%nat, t1, t2, a, b, j, x, y. split_and!; (done || apply H).
        -- exists (S i), u1, u2, a, b, j, x, y. split_and!; (done || apply H).
      * intros ([|i] & u1 & u2 & a & b & j & x & y & H1 & H2 & Ha & Hb & H).
        -- cbn in H1, H2. injection H1 as <-. injection H2 as <-.
           left. rewrite Ha, Hb. apply opposite_on_a_line_true. by exists j, x, y.
        -- right. exists i, u1, u2, a, b, j, x, y. split_and!; (done || apply H).
Qed.

Lemma opposite_signs_opposing (directionMap : gmap string (list Z)) (seq : list string) :
  unit_directions directionMap ->
  opposite_signs directionMap seq -> opposing_directions directionMap seq.
Proof.
  intros Hunit (i & t1 & t2 & a & b & j & x & y & H1 & H2 & Ha & Hb & Hx & Hy & Hxy).
  exists i, t1, t2, a, b, j, x, y.
  pose proof (Hunit _ _ x Ha ltac:(by eapply list_elem_of_lookup_2)).
  pose proof (Hunit _ _ y Hb ltac:(by eapply list_elem_of_lookup_2)).
  repeat split; try done; nia.
Qed.

(** C9. With a direction map [dm], no summary returned by [findAllPaths]
    that has a transfer has two consecutive trains whose vectors in [dm]
    are both non-zero and negations of each other on a line, nor, when the
    vectors of [dm] are over [{-1, 0, 1}], of opposite sign on a line; and
    a candidate summary with a transfer and such a pair is rejected by the
    check made before it is pushed. *)
Theorem no_opposing_directions_in_output
    (localeCompare : string -> string -> Z) (nodes : list Node)
    (adjacency : gmap nat (list Edge)) (startStation endStation : string)
    (trainInfo : gmap string TrainInfo) (dm : gmap string (list Z))
    (maxTransfers : Z) (allowSameStationConsecutiveTransfers : bool) :
  (forall st p,
     findAllPaths localeCompare nodes adjacency startStation endStation trainInfo
       (Some dm) maxTransfers allowSameStationConsecutiveTransfers = Ok st ->
     p ∈ paths st ->
     1 <= transfer_count p ->
     ~ opposing_directions dm (train_sequence p) /\
     (unit_directions dm -> ~ opposite_signs dm (train_sequence p))) /\
  (forall candidate : PathSummary,
     1 <= transfer_count candidate ->
     opposing_directions dm (train_sequence candidate) ->
     rejected_by_direction (Some dm) candidate = true).
Proof.
  split.
  - intros st p Hfind Hp Hcount.
    destruct (findAllPaths_emits _ _ _ _ _ _ _ _ _ _ _ Hfind Hp)
      as (k & q & f & -> & _ & _ & _ & Hpass).
    cbn in Hcount |- *. unfold rejected_by_direction in Hpass.
    apply andb_false_iff in Hpass as [Hpass|Hpass]; [apply Z.ltb_ge in Hpass; lia|].
    assert (Hno : ~ opposing_directions dm (train_sequence q)).
    { intros Hopp. apply direction_invalid_true in Hopp. congruence. }
    split; [done|]. intros Hunit Hsigns. apply Hno. by apply opposite_signs_opposing.
  - intros candidate Hcount Hopp. unfold rejected_by_direction.
    apply andb_true_iff. split; [apply Z.ltb_lt; lia|].
    by apply direction_invalid_true.
Qed.

Lemma no_opposing_directions_in_output_witness :
  exists st p,
    findAllPaths compare_code_units one_transfer_nodes one_transfer_adjacency
      "X" "Z" ∅ (Some same_direction_map) 2 false = Ok st /\
    p ∈ paths st /\
    1 <= transfer_count p /\
    ~ opposing_directions same_direction_map (train_sequence p).
Proof.
  eexists _, _. split; [vm_compute; reflexivity|].
  split; [apply list_elem_of_here|]. split; [cbn; lia|].
  exact (proj1 (proj1 (no_opposing_directions_in_output compare_code_units
                         one_transfer_nodes one_transfer_adjacency "X" "Z" ∅
                         same_direction_map 2 false)
                  _ _ eq_refl (list_elem_of_here _ _) ltac:(cbn; lia))).
Defined.

(** Scenario D of the specification: T1 and T2 oppose each other on line 0
    and the only itinerary from X to Z is rejected. *)
Example opposite_directions_rejected :
  findAllPaths compare_code_units one_transfer_nodes one_transfer_adjacency
    "X" "Z" ∅ (Some opposite_direction_map) 2 false = Ok (mkState [] 0).
Proof. vm_compute. reflexivity. Qed.

(** ** [findAllPaths] returns *)

Lemma for_of_inv {A St} (body : A -> St -> result St)
    (P : St -> Prop) (E : error -> Prop) (l : list A) :
  (forall x s, x ∈ l -> P s ->
     match body x s with Ok s' => P s' | Err e => E e end) ->
  forall s, P s ->
    match for_of body l s with Ok s' => P s' | Err e => E e end.
Proof.
  induction l as [|x l IH]; intros Hbody s Hs; cbn; [done|].
  pose proof (Hbody x s ltac:(by left) Hs) as Hx.
  destruct (body x s) as [s1|e]; cbn; [|done].
  apply IH; [|done]. intros y t Hy. apply Hbody. by right.
Qed.

Lemma distinct_indices_bounded (n : nat) (l : list nat) :
  NoDup l -> Forall (fun i => (i < n)%nat) l -> (length l <= n)%nat.
Proof.
  intros Hnodup Hall.
  rewrite <- (length_seq n 0). apply submseteq_length, NoDup_submseteq; [done|].
  intros i Hi. rewrite Forall_forall in Hall. apply elem_of_seq. specialize (Hall i Hi). lia.
Qed.

Lemma walk_history_total nodes edgeHistory :
  Forall (fun h => is_Some (nodes !! h_from h)) edgeHistory ->
  forall timeline details,
    exists r, walk_history nodes edgeHistory timeline details = Ok r.
Proof.
  induction 1 as [|edge rest [n Hn] _ IH]; intros timeline details; cbn; [by eexists|].
  rewrite Hn. case_bool_decide; apply IH.
Qed.

Lemma summarizePath_total nodes edgeHistory trainSequence startTime endTime trainInfo :
  Forall (fun h => is_Some (nodes !! h_from h)) edgeHistory ->
  exists p, summarizePath nodes edgeHistory trainSequence startTime endTime trainInfo = Ok p.
Proof.
  intros Hall. unfold summarizePath.
  destruct (walk_history_total nodes edgeHistory Hall startTime []) as [r ->].
  cbn. by eexists.
Qed.

Section Totality.

Variable localeCompare : string -> string -> Z.
Variable nodes : list Node.
Variable adjacency : gmap nat (list Edge).
Variable startStation endStation : string.
Variable trainInfo : gmap string TrainInfo.
Variable directionMap : option (gmap string (list Z)).
Variable maxTransfers : Z.
Variable allowSameStationConsecutiveTransfers : bool.

(** The only failure of [dfs] is a [TypeError], raised when an adjacency
    entry points outside [nodes]. A path holds distinct indices of
    [nodes], so the recursion is never deeper than the number of nodes. *)
Lemma dfs_returns (fuel : nat) :
  forall f st,
    NoDup (f_path f) ->
    Forall (fun i => (i < length nodes)%nat) (f_path f) ->
    (length nodes < fuel + length (f_path f))%nat ->
    is_Some (nodes !! f_idx f) ->
    Forall (fun h => is_Some (nodes !! h_from h)) (f_history f) ->
    match dfs_frame nodes adjacency endStation trainInfo directionMap maxTransfers
            allowSameStationConsecutiveTransfers fuel f st with
    | Ok _ => True
    | Err e => e = TypeError /\ ~ targets_in_range nodes adjacency
    end.
Proof.
  induction fuel as [|fuel IH]; intros f st Hnodup Hrange Hfuel [current Hcur] Hhist.
  { pose proof (distinct_indices_bounded _ _ Hnodup Hrange). cbn in Hfuel. lia. }
  unfold dfs_frame. cbn [dfs]. rewrite Hcur.
  destruct (bool_decide (station current = endStation) && (0 <? Z.of_nat (length (f_history f))))
    eqn:Hdest.
  - destruct (summarizePath_total nodes (f_history f) (f_trains f) (f_start f) (f_time f)
                trainInfo Hhist) as [p ->].
    cbn. by destruct (rejected_by_direction directionMap p).
  - assert (Hnot : ~ at_destination endStation f current).
    { intros [Hst Hne]. apply andb_false_iff in Hdest as [Hd|Hd].
      - by apply bool_decide_eq_false in Hd.
      - apply Z.ltb_ge in Hd. destruct (f_history f); [done | cbn in Hd; lia]. }
    apply (for_of_inv _ (fun _ => True)
             (fun e => e = TypeError /\ ~ targets_in_range nodes adjacency)); [|done].
    intros edge s Hedge _.
    pose proof (visit_cases nodes adjacency endStation maxTransfers
      allowSameStationConsecutiveTransfers
      (dfs nodes adjacency endStation trainInfo directionMap maxTransfers
         allowSameStationConsecutiveTransfers fuel) f current edge s Hcur Hnot Hedge) as Hc.
    cbn zeta in Hc.
    destruct Hc as [->|[->|[[-> Hnone]|(neighbor & Hexp & ->)]]]; [done | done | |].
    + split; [done|]. intros Htargets.
      destruct (adjacency !! f_idx f) as [edges|] eqn:Hadj;
        [|by apply elem_of_nil in Hedge].
      pose proof (Htargets _ _ _ Hadj Hedge) as Hlt.
      apply lookup_lt_is_Some_2 in Hlt. rewrite Hnone in Hlt. by destruct Hlt.
    + destruct Hexp as (_ & _ & _ & Hfresh & Hnb & _).
      apply (IH (next_frame current neighbor edge f)); cbn.
      * apply NoDup_app. split; [done|]. split; [|apply NoDup_singleton].
        intros i Hi Hi'. apply list_elem_of_singleton in Hi'. by subst.
      * apply Forall_app. split; [done|]. constructor; [|done].
        by eapply lookup_lt_Some.
      * rewrite length_app. cbn. lia.
      * by eexists.
      * apply Forall_app. split; [done|]. constructor; [|done]. cbn. by eexists.
Qed.

(** [findAllPaths] returns: it fails only on an adjacency entry that
    points outside [nodes] or on a start node whose time does not parse,
    and never for want of fuel. *)
Lemma findAllPaths_returns :
  match findAllPaths localeCompare nodes adjacency startStation endStation trainInfo
          directionMap maxTransfers allowSameStationConsecutiveTransfers with
  | Ok _ => True
  | Err TypeError => ~ targets_in_range nodes adjacency
  | Err NotANumber =>
      exists start, start ∈ nodes /\ station start = startStation /\
                    parseTime (time start) = None
  | Err OutOfFuel => False
  end.
Proof.
  unfold findAllPaths. case_bool_decide as Hstart; [done|].
  set (E := fun e => match e with
              | TypeError => ~ targets_in_range nodes adjacency
              | NotANumber =>
                  exists start, start ∈ nodes /\ station start = startStation /\
                                parseTime (time start) = None
              | OutOfFuel => False
              end).
  assert (Hbody : forall startIdx s,
            startIdx ∈ startNodes_of nodes startStation -> True ->
            match start_dfs nodes adjacency endStation trainInfo directionMap maxTransfers
                    allowSameStationConsecutiveTransfers startIdx s with
            | Ok _ => True
            | Err e => E e
            end).
  { intros startIdx s Hidx _.
    apply startNodes_of_spec in Hidx as (start & Hnode & Hstation).
    unfold start_dfs. rewrite Hnode.
    destruct (parseTime (time start)) as [startTime|] eqn:Htime.
    - pose proof (dfs_returns (length nodes) (first_frame startIdx start startTime) s) as Hd.
      unfold dfs_frame in Hd. cbn in Hd.
      destruct (dfs _ _ _ _ _ _ _ _ _ _ _ _ _ _ _ _ _) as [s'|e]; [done|].
      destruct Hd as [-> Hd]; [apply NoDup_singleton | | lia | by eexists | done | done].
      constructor; [|done]. by eapply lookup_lt_Some.
    - exists start. split; [by eapply list_elem_of_lookup_2 | done]. }
  pose proof (for_of_inv _ (fun _ => True) E _ Hbody (mkState [] 0) I) as Hloop.
  cbn beta in Hloop.
  destruct (for_of _ _ _) as [st|e]; [done|].
  cbn. destruct e; exact Hloop.
Qed.

End Totality.

Lemma clock_time_parses (t : string) :
  clock_time t -> exists v, parseTime t = Some v /\ 1 <= v <= 1440.
Proof.
  intros (m & Hm & ->).
  destruct (parseTime_toTime_nonneg m ltac:(lia)) as (v & Hv & _ & Hrange). by exists v.
Qed.

(** On a graph whose adjacency entries point at nodes and whose node
    times are written [HH:MM], [findAllPaths] returns an array. *)
Lemma findAllPaths_total
    (localeCompare : string -> string -> Z) (nodes : list Node)
    (adjacency : gmap nat (list Edge)) (startStation endStation : string)
    (trainInfo : gmap string TrainInfo) (directionMap : option (gmap string (list Z)))
    (maxTransfers : Z) (allowSameStationConsecutiveTransfers : bool) :
  targets_in_range nodes adjacency ->
  clock_times nodes ->
  exists st,
    findAllPaths localeCompare nodes adjacency startStation endStation trainInfo
      directionMap maxTransfers allowSameStationConsecutiveTransfers = Ok st.
Proof.
  intros Htargets Hclock.
  pose proof (findAllPaths_returns localeCompare nodes adjacency startStation endStation
                trainInfo directionMap maxTransfers allowSameStationConsecutiveTransfers) as H.
  destruct (findAllPaths _ _ _ _ _ _ _ _ _) as [st|[| |]]; [by exists st | done | | done].
  destruct H as (start & Hin & _ & Hnone).
  destruct (clock_time_parses _ (Hclock _ Hin)) as (v & Hv & _). congruence.
Qed.
(** ** Stations that are not in the directory *)

Lemma emitted_stations nodes adjacency startStation endStation trainInfo directionMap
    maxTransfers allowSameStationConsecutiveTransfers f q :
  Emitted nodes adjacency startStation endStation trainInfo directionMap maxTransfers
    allowSameStationConsecutiveTransfers f q ->
  (exists start, start ∈ nodes /\ station start = startStation) /\
  (exists dest, dest ∈ nodes /\ station dest = endStation).
Proof.
  intros (Hreach & (current & Hcur & Hst & _) & _). split.
  - destruct (reachable_time _ _ _ _ _ _ f Hreach) as (_ & _ & start & Hin & Hs & _).
    by exists start.
  - exists current. split; [by eapply list_elem_of_lookup_2 | done].
Qed.

(** C3, as amended. Nothing checks the stations of a request against the
    directory. For a request that passes the middleware and whose start
    or end station (as trimmed by the middleware) names no node of the
    graph: the reply is never a 404; the enumerator, whatever its
    options, finds no path; and on a graph whose adjacency entries point
    at nodes and whose node times are written [HH:MM] it returns the
    empty array without raising an error. *)
Theorem unknown_station_never_gets_404
    (localeCompare : string -> string -> Z)
    (loaded reload : option Snapshot) (now : string)
    (body : Body) (v : ValidBody) (data : Snapshot)
    (maxTransfers : Z) (allowSameStationConsecutiveTransfers : bool) :
  validatePathfindingRequest body = inr v ->
  ~ in_station_directory data (v_start_station v)
  \/ ~ in_station_directory data (v_end_station v) ->
  let found :=
    findAllPaths localeCompare (graph_nodes data) (adjacencyList data)
      (v_start_station v) (v_end_station v) (snapshot_trainInfo data)
      (Some (snapshot_directionMap data)) maxTransfers
      allowSameStationConsecutiveTransfers in
  status_of (post_find localeCompare loaded reload now body) <> Some 404 /\
  (forall st, found = Ok st -> paths st = []) /\
  (targets_in_range (graph_nodes data) (adjacencyList data) ->
   clock_times (graph_nodes data) ->
   exists st, found = Ok st /\ paths st = []).
Proof.
  intros Hv Habsent. cbn zeta.
  rewrite (post_find_accepted _ _ _ _ _ _ Hv).
  split; [discriminate|].
  assert (Hnone : forall st,
    findAllPaths localeCompare (graph_nodes data) (adjacencyList data)
      (v_start_station v) (v_end_station v) (snapshot_trainInfo data)
      (Some (snapshot_directionMap data)) maxTransfers
      allowSameStationConsecutiveTransfers = Ok st -> paths st = []).
  { intros st Hfind.
    destruct (paths st) as [|p ps] eqn:Hpaths; [done|]. exfalso.
    assert (Hp : p ∈ paths st) by (rewrite Hpaths; by left).
    destruct (findAllPaths_emits _ _ _ _ _ _ _ _ _ _ _ Hfind Hp)
      as (k & q & f & _ & Hemit).
    apply emitted_stations in Hemit as [(start & Hin & Hs) (dest & Hin' & Hd)].
    destruct Habsent as [Ha|Ha]; apply Ha; [by exists start | by exists dest]. }
  split; [done|].
  intros Htargets Hclock.
  destruct (findAllPaths_total localeCompare (graph_nodes data) (adjacencyList data)
              (v_start_station v) (v_end_station v) (snapshot_trainInfo data)
              (Some (snapshot_directionMap data)) maxTransfers
              allowSameStationConsecutiveTransfers Htargets Hclock) as [st Hst].
  exists st. split; [done|]. by apply Hnone.
Qed.

Lemma one_transfer_targets_in_range :
  targets_in_range one_transfer_nodes one_transfer_adjacency.
Proof.
  intros i edges edge Hadj Hedge.
  list_to_map_cases Hadj; list_cases Hedge; cbn; lia.
Qed.

Lemma unknown_station_never_gets_404_witness :
  exists v,
    validatePathfindingRequest unknown_end_request = inr v /\
    (~ in_station_directory one_transfer_snapshot (v_start_station v)
     \/ ~ in_station_directory one_transfer_snapshot (v_end_station v)) /\
    status_of (post_find compare_code_units (Some one_transfer_snapshot) None ""
                 unknown_end_request) <> Some 404 /\
    exists st,
      findAllPaths compare_code_units one_transfer_nodes one_transfer_adjacency
        (v_start_station v) (v_end_station v) ∅ (Some ∅) 2 false = Ok st /\
      paths st = [].
Proof.
  eassert (Hv : validatePathfindingRequest unknown_end_request = inr _)
    by (vm_compute; reflexivity).
  eexists. split; [exact Hv|].
  assert (Habsent : ~ in_station_directory one_transfer_snapshot "Nowhere").
  { intros (node & Hin & Hst). cbn in Hin. list_cases Hin; discriminate. }
  split; [by right|].
  pose proof (unknown_station_never_gets_404 compare_code_units
                (Some one_transfer_snapshot) None "" unknown_end_request _
                one_transfer_snapshot 2 false Hv (or_intror Habsent)) as H.
  split; [exact (proj1 H)|].
  exact (proj2 (proj2 H) one_transfer_targets_in_range one_transfer_clock_times).
Defined.

(** C3 as stated fails for the end station [Nowhere], which no node
    names: the middleware passes the request on, the reply is the 500 of
    the error handler and not a 404, and the enumerator, asked for the
    paths from [X] to [Nowhere], returns the empty array. *)
Lemma unknown_station_not_answered_404 :
  end_station unknown_end_request = Some "Nowhere" /\
  ~ in_station_directory one_transfer_snapshot "Nowhere" /\
  accepted (validatePathfindingRequest unknown_end_request) /\
  status_of (post_find compare_code_units (Some one_transfer_snapshot) None ""
               unknown_end_request) = Some 500 /\
  status_of (post_find compare_code_units (Some one_transfer_snapshot) None ""
               unknown_end_request) <> Some 404 /\
  exists st,
    findAllPaths compare_code_units one_transfer_nodes one_transfer_adjacency
      "X" "Nowhere" ∅ (Some ∅) 2 false = Ok st /\
    paths st = [].
Proof.
  split; [reflexivity|]. split.
  { intros (node & Hin & Hst). cbn in Hin. list_cases Hin; discriminate. }
  assert (Hv : validatePathfindingRequest unknown_end_request
               = inr (mkValidBody "X" "Nowhere" None None None))
    by (vm_compute; reflexivity).
  split; [by rewrite Hv|].
  rewrite (post_find_accepted _ _ _ _ _ _ Hv). cbn.
  split; [reflexivity|]. split; [discriminate|].
  eexists. split; [vm_compute; reflexivity | reflexivity].
Qed.

(** ** The merge stage *)

Lemma push_option_all (details : list TransferDetail) :
  forall done_ : list (list TransferDetail),
    for_entries push_option (length done_) details
      (done_ ++ replicate (length details) [])
    = Ok (done_ ++ ((fun d => [d]) <$> details)).
Proof.
  induction details as [|d details IH]; intros done_; cbn.
  - done.
  - unfold push_option at 1.
    rewrite lookup_app_r, Nat.sub_diag by lia. cbn.
    rewrite insert_app_r_alt, Nat.sub_diag by lia. cbn.
    specialize (IH (done_ ++ [[d]])).
    rewrite length_app, Nat.add_1_r, <- !app_assoc in IH. exact IH.
Qed.

Lemma add_option_all (details : list TransferDetail) :
  forall done_ rest : list (list TransferDetail),
    length rest = length details ->
    Forall (fun l => l <> []) rest ->
    exists rest',
      for_entries add_option (length done_) details (done_ ++ rest) = Ok (done_ ++ rest') /\
      head <$> rest' = head <$> rest.
Proof.
  induction details as [|d details IH]; intros done_ rest Hlen Hne.
  - destruct rest; [|done]. exists []. by split.
  - destruct rest as [|l rest]; [done|].
    apply Forall_cons in Hne as [Hl Hne]. cbn in Hlen.
    cbn [for_entries]. unfold add_option at 1.
    assert (Hlt : (Z.of_nat (length (done_ ++ l :: rest)) <=? Z.of_nat (length done_)) = false).
    { apply Z.leb_gt. rewrite length_app. cbn. lia. }
    rewrite Hlt. rewrite lookup_app_r, Nat.sub_diag by lia. cbn [lookup list_lookup].
    set (l' := if bool_decide (d ∈ l) then l else l ++ [d]).
    assert (Hstep : (if bool_decide (d ∈ l) then Ok (done_ ++ l :: rest)
                     else Ok (<[length done_ := l ++ [d]]> (done_ ++ l :: rest)))
                    = Ok ((done_ ++ [l']) ++ rest)).
    { unfold l'. case_bool_decide.
      - by rewrite <- app_assoc.
      - rewrite insert_app_r_alt, Nat.sub_diag by lia. cbn. by rewrite <- app_assoc. }
    rewrite Hstep. cbn [bind].
    destruct (IH (done_ ++ [l']) rest ltac:(lia) Hne) as (rest' & Hrun & Hheads).
    rewrite length_app, Nat.add_1_r in Hrun.
    exists (l' :: rest'). split.
    + rewrite Hrun. by rewrite <- app_assoc.
    + cbn. rewrite Hheads. f_equal. unfold l'. case_bool_decide; [done|].
      by destruct l.
Qed.

Lemma heads_nonempty {A} (ls : list (list A)) (ds : list A) :
  head <$> ls = Some <$> ds ->
  length ls = length ds /\ Forall (fun l => l <> []) ls.
Proof.
  revert ds. induction ls as [|l ls IH]; intros [|d ds] H; try done.
  cbn in H. injection H as Hl H. destruct (IH _ H) as [Hlen Hall].
  split; [cbn; lia|]. constructor; [|done]. by destruct l.
Qed.

Lemma heads_kept (ls : list (list TransferDetail)) (ds : list TransferDetail) :
  head <$> ls = Some <$> ds ->
  List.filter (fun o => 0 <? Z.of_nat (length (options o))) (numbered_options ls)
    = numbered_options ls /\
  omap head (List.filter (fun l => 0 <? Z.of_nat (length l)) ls) = ds.
Proof.
  intros H. unfold numbered_options.
  assert (Hgen : forall (f : nat -> nat),
    List.filter (fun o => 0 <? Z.of_nat (length (options o)))
      (imap (fun idx l => mkTransferOption (Z.of_nat (f idx) + 1) l) ls)
    = imap (fun idx l => mkTransferOption (Z.of_nat (f idx) + 1) l) ls).
  { revert ds H. induction ls as [|l ls IH]; intros [|d ds] H f; try done.
    cbn in H. injection H as Hl H. cbn.
    destruct l as [|x l]; [done|]. cbn. f_equal.
    apply (IH ds H (fun idx => f (S idx))). }
  split; [apply (Hgen (fun idx => idx))|].
  clear Hgen. revert ds H. induction ls as [|l ls IH]; intros [|d ds] H; try done.
  cbn in H. injection H as Hl H. destruct l as [|x l]; [done|].
  cbn in Hl. injection Hl as ->. cbn [List.filter length].
  rewrite (proj2 (Z.ltb_lt 0 (Z.of_nat (S (length l))))) by lia.
  cbn. f_equal. by apply IH.
Qed.

Lemma transferCount_of_matching (p : PathSummary) :
  count_matches_details p -> transferCount_of p = transfer_count p.
Proof.
  unfold count_matches_details, transferCount_of. intros H.
  destruct (transfer_count p =? 0) eqn:E; [|done]. apply Z.eqb_eq in E. lia.
Qed.

Lemma merge_entry_ok (entry : PathSummary) (s : MergeState) :
  count_matches_details entry ->
  merge_state_ok s ->
  exists s', merge_entry entry s = Ok s' /\ merge_state_ok s'.
Proof.
  intros Hentry (Hnodup & Hkeys & Hgroups). unfold merge_entry.
  rewrite (transferCount_of_matching _ Hentry).
  destruct (grouped s !! merge_key entry) as [g|] eqn:Hlook.
  - destruct (Hgroups _ _ Hlook) as (Hkey & Hbase & Hlists).
    destruct (transfer_count entry =? 0) eqn:Hzero; [by exists s|].
    apply Z.eqb_neq in Hzero.
    assert (Hcount : transfer_count (base g) = transfer_count entry).
    { unfold merge_key in Hkey. rewrite !transferCount_of_matching in Hkey by done.
      by injection Hkey. }
    destruct (transfer_option_lists g) as [ls|] eqn:Hls; [|lia].
    destruct Hlists as [Hpos Hheads]. cbn [from_option Datatypes.id].
    destruct (heads_nonempty _ _ Hheads) as [Hlen Hne].
    destruct (add_option_all (transfer_details entry) [] ls) as (ls' & Hrun & Hheads');
      [unfold count_matches_details in *; lia | done |].
    cbn in Hrun. rewrite Hrun. cbn.
    eexists. split; [done|]. split; [done|]. cbn. split.
    + intros key. rewrite Hkeys.
      destruct (decide (key = merge_key entry)) as [->|Hne'].
      * rewrite lookup_insert_eq, Hlook. split; by eexists.
      * by rewrite lookup_insert_ne.
    + intros key g'. destruct (decide (key = merge_key entry)) as [->|Hne'].
      * rewrite lookup_insert_eq. intros [= <-]. cbn.
        split; [done|]. split; [done|]. split; [done|]. by rewrite Hheads'.
      * rewrite lookup_insert_ne by done. apply Hgroups.
  - assert (Hfresh : merge_key entry ∉ orderedKeys s).
    { rewrite Hkeys, Hlook. by intros [? ?]. }
    assert (exists lists,
      (if 0 <? transfer_count entry
       then let* l := for_entries push_option 0 (transfer_details entry)
                        (empty_lists (transfer_count entry)) in Ok (Some l)
       else Ok None) = Ok lists /\
      group_ok (merge_key entry) (mkGroup entry lists)) as (lists & -> & Hgroup).
    { destruct (0 <? transfer_count entry) eqn:Hpos.
      - apply Z.ltb_lt in Hpos. unfold empty_lists.
        replace (Z.to_nat (transfer_count entry)) with (length (transfer_details entry))
          by (unfold count_matches_details in Hentry; lia).
        pose proof (push_option_all (transfer_details entry) []) as Hpush.
        cbn in Hpush. rewrite Hpush. cbn. eexists. split; [done|].
        split; [done|]. split; [done|]. cbn. split; [done|].
        rewrite <- list_fmap_compose. by apply list_fmap_ext.
      - apply Z.ltb_ge in Hpos. eexists. split; [done|].
        split; [done|]. split; [done|]. cbn.
        unfold count_matches_details in Hentry. lia. }
    cbn. eexists. split; [done|]. split; [|split]; cbn.
    + apply NoDup_app. split; [done|]. split; [|apply NoDup_singleton].
      intros key Hin Hin'. apply list_elem_of_singleton in Hin'. by subst.
    + intros key. rewrite elem_of_app, list_elem_of_singleton, Hkeys.
      destruct (decide (key = merge_key entry)) as [->|Hne'].
      * rewrite lookup_insert_eq. split; [by eexists | by right].
      * rewrite lookup_insert_ne by done. split; [by intros [?|?] | by left].
    + intros key g'. destruct (decide (key = merge_key entry)) as [->|Hne'].
      * rewrite lookup_insert_eq. by intros [= <-].
      * rewrite lookup_insert_ne by done. apply Hgroups.
Qed.

Lemma merge_loop_ok (entries : list PathSummary) :
  Forall count_matches_details entries ->
  forall s, merge_state_ok s ->
    exists s', for_of merge_entry entries s = Ok s' /\ merge_state_ok s'.
Proof.
  induction 1 as [|entry entries Hentry _ IH]; intros s Hs; cbn; [by exists s|].
  destruct (merge_entry_ok entry s Hentry Hs) as (s1 & -> & Hs1). cbn. by apply IH.
Qed.

Lemma collect_groups (s : MergeState) (keys : list MergeKey) :
  (forall key, key ∈ keys -> is_Some (grouped s !! key)) ->
  forall merged,
    exists gs,
      Forall2 (fun key g => grouped s !! key = Some g) keys gs /\
      for_of (collect_group s) keys merged = Ok (merged ++ (finish_group <$> gs)).
Proof.
  induction keys as [|key keys IH]; intros Hall merged; cbn.
  - exists []. split; [constructor | by rewrite app_nil_r].
  - destruct (Hall key ltac:(by left)) as [g Hg].
    unfold collect_group at 1. rewrite Hg. cbn.
    destruct (IH ltac:(intros k Hk; apply Hall; by right) (merged ++ [finish_group g]))
      as (gs & Hgs & ->).
    exists (g :: gs). split; [by constructor|]. by rewrite <- app_assoc.
Qed.

Lemma finish_group_ok (key : MergeKey) (g : Group) :
  group_ok key g ->
  merge_key (finish_group g) = key /\ count_matches_details (finish_group g).
Proof.
  intros (Hkey & Hbase & Hlists). unfold finish_group.
  destruct (transfer_option_lists g) as [ls|]; [|done].
  destruct Hlists as [Hpos Hheads].
  destruct (heads_kept _ _ Hheads) as [_ ->].
  split; [|done].
  rewrite <- Hkey. unfold merge_key.
  rewrite !transferCount_of_matching by done. done.
Qed.

(** The output of the merge on summaries of the data model: again such
    summaries, with pairwise distinct keys. *)
Lemma merge_output (entries : list PathSummary) :
  Forall count_matches_details entries ->
  exists merged,
    mergePathsByTrainSequence entries = Ok merged /\
    Forall count_matches_details merged /\
    NoDup (merge_key <$> merged).
Proof.
  intros Hentries. unfold mergePathsByTrainSequence.
  destruct (merge_loop_ok entries Hentries (mkMergeState ∅ []))
    as (s & -> & Hnodup & Hkeys & Hgroups).
  { split; [constructor|]. split; [|done]. cbn. intros key.
    rewrite lookup_empty. split; [by intros ?%elem_of_nil | by intros [? ?]]. }
  cbn.
  destruct (collect_groups s (orderedKeys s) ltac:(intros k Hk; by apply Hkeys) [])
    as (gs & Hgs & ->).
  cbn. eexists. split; [done|].
  assert (Hall : Forall2 (fun key g => merge_key (finish_group g) = key /\
                                        count_matches_details (finish_group g))
                   (orderedKeys s) gs).
  { eapply Forall2_impl; [exact Hgs|]. intros key g Hg. cbn beta in Hg.
    apply finish_group_ok. by eapply Hgroups. }
  split.
  - apply Forall_fmap. apply Forall2_Forall_r with (2 := Hall) ||
    (eapply Forall2_Forall_r; [exact Hall|]).
    apply Forall_forall. intros key _ g [_ Hg]. exact Hg.
  - assert (Heq : merge_key <$> (finish_group <$> gs) = orderedKeys s).
    { clear -Hall. induction Hall as [|key g keys gs [Hk _] _ IH]; cbn; [done|].
      by rewrite Hk, IH. }
    by rewrite Heq.
Qed.

Lemma merge_entry_fresh (entry : PathSummary) (s : MergeState) :
  count_matches_details entry ->
  grouped s !! merge_key entry = None ->
  merge_entry entry s
  = Ok (mkMergeState (<[merge_key entry := fresh_group entry]> (grouped s))
          (orderedKeys s ++ [merge_key entry])).
Proof.
  intros Hentry Hnew. unfold merge_entry, fresh_group.
  rewrite (transferCount_of_matching _ Hentry), Hnew.
  destruct (0 <? transfer_count entry) eqn:Hpos; [|done].
  apply Z.ltb_lt in Hpos. unfold empty_lists.
  replace (Z.to_nat (transfer_count entry)) with (length (transfer_details entry))
    by (unfold count_matches_details in Hentry; lia).
  pose proof (push_option_all (transfer_details entry) []) as Hpush.
  cbn in Hpush. by rewrite Hpush.
Qed.

Lemma merge_loop_distinct (entries : list PathSummary) :
  Forall count_matches_details entries ->
  NoDup (merge_key <$> entries) ->
  forall s,
    (forall p, p ∈ entries -> grouped s !! merge_key p = None) ->
    exists s',
      for_of merge_entry entries s = Ok s' /\
      orderedKeys s' = orderedKeys s ++ (merge_key <$> entries) /\
      (forall p, p ∈ entries -> grouped s' !! merge_key p = Some (fresh_group p)) /\
      (forall key, key ∉ merge_key <$> entries -> grouped s' !! key = grouped s !! key).
Proof.
  induction 1 as [|entry entries Hentry _ IH]; intros Hnodup s Hnew; cbn.
  - exists s. split; [done|]. split; [by rewrite app_nil_r|].
    split; [by intros p ?%elem_of_nil | done].
  - cbn in Hnodup. apply NoDup_cons in Hnodup as [Hfresh Hnodup].
    rewrite (merge_entry_fresh entry s Hentry (Hnew entry ltac:(by left))). cbn.
    destruct (IH Hnodup
      (mkMergeState (<[merge_key entry := fresh_group entry]> (grouped s))
         (orderedKeys s ++ [merge_key entry])))
      as (s' & -> & Hkeys & Hin & Hout).
    { intros p Hp. cbn. rewrite lookup_insert_ne; [apply Hnew; by right|].
      intros Heq. apply Hfresh. rewrite Heq. by apply list_elem_of_fmap_2. }
    exists s'. split; [done|]. cbn in Hkeys, Hout. split; [|split].
    + by rewrite Hkeys, <- app_assoc.
    + intros p Hp. apply elem_of_cons in Hp as [->|Hp]; [|by apply Hin].
      rewrite (Hout _ Hfresh). by rewrite lookup_insert_eq.
    + intros key Hkey. apply not_elem_of_cons in Hkey as [Hne Hkey].
      rewrite (Hout _ Hkey). by rewrite lookup_insert_ne.
Qed.

Lemma finish_fresh_group (entry : PathSummary) :
  finish_group (fresh_group entry) = representative_only entry.
Proof.
  unfold finish_group, fresh_group, representative_only. cbn.
  destruct (0 <? transfer_count entry); [|done].
  assert (Hheads : head <$> ((fun d => [d]) <$> transfer_details entry)
                   = Some <$> transfer_details entry).
  { rewrite <- list_fmap_compose. by apply list_fmap_ext. }
  destruct (heads_kept _ _ Hheads) as [-> ->]. done.
Qed.

(** On summaries with pairwise distinct keys the merge keeps every entry,
    numbering its transfer details as single options. *)
Lemma merge_distinct (entries : list PathSummary) :
  Forall count_matches_details entries ->
  NoDup (merge_key <$> entries) ->
  mergePathsByTrainSequence entries = Ok (representative_only <$> entries).
Proof.
  intros Hentries Hnodup. unfold mergePathsByTrainSequence.
  destruct (merge_loop_distinct entries Hentries Hnodup (mkMergeState ∅ []))
    as (s & -> & Hkeys & Hin & _); [done|].
  cbn in Hkeys |- *. rewrite Hkeys.
  assert (Hloop : forall (l : list PathSummary) merged,
            (forall p, p ∈ l -> grouped s !! merge_key p = Some (fresh_group p)) ->
            for_of (collect_group s) (merge_key <$> l) merged
            = Ok (merged ++ (representative_only <$> l))).
  { induction l as [|p l IHl]; intros merged Hl; cbn; [by rewrite app_nil_r|].
    unfold collect_group at 1. rewrite (Hl p ltac:(by left)). cbn.
    rewrite IHl by (intros q Hq; apply Hl; by right).
    by rewrite finish_fresh_group, <- app_assoc. }
  by rewrite (Hloop entries [] Hin).
Qed.

Lemma representative_only_ok (p : PathSummary) :
  merge_key (representative_only p) = merge_key p /\
  (count_matches_details p -> count_matches_details (representative_only p)) /\
  representative_only (representative_only p) = representative_only p /\
  forget_options (representative_only p) = forget_options p.
Proof.
  unfold representative_only, merge_key, transferCount_of, count_matches_details.
  destruct (0 <? transfer_count p) eqn:E; cbn; rewrite ?E; done.
Qed.

(** C5, as amended. On path summaries of the data model ([transfer_count]
    is the length of [transfer_details]) the merge returns a list, and
    merging that list again returns it with every field unchanged except
    [transfer_options], where each step keeps only the representative
    option; from there on the merge is idempotent. *)
Theorem merge_twice_keeps_representatives (entries : list PathSummary) :
  Forall count_matches_details entries ->
  exists merged,
    mergePathsByTrainSequence entries = Ok merged /\
    mergePathsByTrainSequence merged = Ok (representative_only <$> merged) /\
    forget_options <$> (representative_only <$> merged) = forget_options <$> merged /\
    mergePathsByTrainSequence (representative_only <$> merged)
      = Ok (representative_only <$> merged).
Proof.
  intros Hentries.
  destruct (merge_output entries Hentries) as (merged & Hmerge & Hwf & Hnodup).
  exists merged. split; [done|]. split; [by apply merge_distinct|]. split.
  - rewrite <- list_fmap_compose. apply list_fmap_ext. intros i p _. cbn.
    apply representative_only_ok.
  - rewrite merge_distinct.
    + f_equal. rewrite <- list_fmap_compose. apply list_fmap_ext. intros i p _. cbn.
      apply representative_only_ok.
    + apply Forall_fmap. eapply Forall_impl; [exact Hwf|].
      intros p Hp. by apply representative_only_ok.
    + rewrite <- list_fmap_compose.
      rewrite (list_fmap_ext (merge_key ∘ representative_only) merge_key merged);
        [done|].
      intros i p _. cbn. apply representative_only_ok.
Qed.

Lemma merge_twice_keeps_representatives_witness :
  Forall count_matches_details two_ways /\
  exists merged,
    mergePathsByTrainSequence two_ways = Ok merged /\
    mergePathsByTrainSequence merged = Ok (representative_only <$> merged) /\
    forget_options <$> (representative_only <$> merged) = forget_options <$> merged /\
    mergePathsByTrainSequence (representative_only <$> merged)
      = Ok (representative_only <$> merged).
Proof.
  assert (H : Forall count_matches_details two_ways).
  { repeat constructor. }
  split; [exact H|]. exact (merge_twice_keeps_representatives two_ways H).
Defined.

(** C5 as stated fails on two summaries with one key and different
    transfer stations: the merge collects both options, and merging its
    output keeps the first only. *)
Lemma merge_twice_drops_options :
  exists once twice,
    mergePathsByTrainSequence two_ways = Ok once /\
    mergePathsByTrainSequence once = Ok twice /\
    transfer_options <$> once
      = [Some [mkTransferOption 1 [change_at_Y; change_at_W]]] /\
    transfer_options <$> twice = [Some [mkTransferOption 1 [change_at_Y]]] /\
    once <> twice.
Proof.
  eexists _, _. split; [vm_compute; reflexivity|]. split; [vm_compute; reflexivity|].
  split; [reflexivity|]. split; [reflexivity|]. discriminate.
Qed.

(** ** The port against the backend *)

Lemma port_parseTime_clock (t : string) :
  clock_time t -> Port.parseTime t = parseTime t.
Proof.
  intros (m & Hm & ->).
  pose (P := fun m => bool_decide (Port.parseTime (toTime m) = parseTime (toTime m))).
  assert (HP : P m = true).
  { apply (forallb_Z_range P 1440); [vm_compute; reflexivity | lia]. }
  unfold P in HP. by apply bool_decide_eq_true in HP.
Qed.

Lemma port_toTime_nonneg (x : Z) : 0 <= x -> Port.toTime x = toTime x.
Proof.
  intros Hx. unfold Port.toTime, toTime.
  pose proof (Z.rem_bound_pos x 1440 Hx ltac:(lia)) as Hr.
  replace (Z.rem (Z.rem x 1440 + 1440) 1440) with (Z.rem x 1440); [done|].
  rewrite (Z.rem_mod_nonneg (Z.rem x 1440 + 1440)) by lia.
  rewrite <- (Z.mod_unique (Z.rem x 1440 + 1440) 1440 1 (Z.rem x 1440)); [done | lia | lia].
Qed.

Lemma port_walk_history nodes edgeHistory :
  Forall (fun h => 0 <= h_duration h) edgeHistory ->
  forall timeline details,
    0 <= timeline ->
    Port.walk_history nodes edgeHistory timeline details
    = walk_history nodes edgeHistory timeline details.
Proof.
  induction 1 as [|edge rest Hedge _ IH]; intros timeline details Ht; cbn; [done|].
  rewrite !port_toTime_nonneg by lia.
  case_bool_decide; [destruct (nodes !! h_from edge); [|done]|]; apply IH; lia.
Qed.

Lemma port_summarizePath nodes edgeHistory trainSequence startTime endTime trainInfo :
  Forall (fun h => 0 <= h_duration h) edgeHistory ->
  0 <= startTime -> 0 <= endTime ->
  Port.summarizePath nodes edgeHistory trainSequence startTime endTime trainInfo
  = summarizePath nodes edgeHistory trainSequence startTime endTime trainInfo.
Proof.
  intros Hhist Hs He. unfold Port.summarizePath, summarizePath.
  rewrite port_walk_history by done.
  destruct (walk_history _ _ _ _) as [[timeline details]|e]; [|done]. cbn.
  assert (Hend : (if bool_decide (timeline <> endTime) then endTime else timeline) = endTime).
  { by case_bool_decide. }
  rewrite Hend, !port_toTime_nonneg by done.
  unfold formatDuration.
  assert (Htype : (if bool_decide (length details <> 0%nat) then "Transfer" else "Direct")
                  = (if 0 <? Z.of_nat (length details) then "Transfer" else "Direct")).
  { destruct details; done. }
  by rewrite Htype.
Qed.

Lemma for_of_ext {A St} (b1 b2 : A -> St -> result St) (l : list A) :
  (forall x s, x ∈ l -> b1 x s = b2 x s) ->
  forall s, for_of b1 l s = for_of b2 l s.
Proof.
  induction l as [|x l IH]; intros Hext s; cbn; [done|].
  rewrite (Hext x s) by (by left).
  destruct (b2 x s) as [s'|e]; cbn; [|done].
  apply IH. intros y t Hy. apply Hext. by right.
Qed.

Lemma sort_ext {A} (c1 c2 : A -> A -> Z) (l : list A) :
  (forall a b, c1 a b = c2 a b) -> JS.sort c1 l = JS.sort c2 l.
Proof.
  intros Hext. unfold JS.sort. induction l as [|x l IH]; cbn; [done|]. rewrite IH.
  generalize (foldr (JS.insert_sorted c2) [] l). intros sorted.
  induction sorted as [|y sorted IHs]; cbn; [done|].
  by rewrite Hext, IHs.
Qed.

Section PortAgainstBackend.

Variable localeCompare : string -> string -> Z.
Variable nodes : list Node.
Variable adjacency : gmap nat (list Edge).
Variable startStation endStation : string.
Variable trainInfo : gmap string TrainInfo.
Variable directionMap : option (gmap string (list Z)).
Variable maxTransfers : Z.
Variable allowSameStationConsecutiveTransfers : bool.

Hypothesis Hnamed : nodes_named nodes.

(** The two loop bodies, given the same function for the recursive call. *)
Lemma port_visit recurse (f : Frame) (current : Node) (edge : Edge) (st : ServiceState) :
  plain_frame f ->
  Port.visit nodes maxTransfers allowSameStationConsecutiveTransfers recurse
    (f_idx f) current (f_time f) (f_transfers f) (f_path f) (f_history f)
    (f_trains f) (f_start f) (f_last f) edge st
  = visit nodes maxTransfers allowSameStationConsecutiveTransfers recurse
      (f_idx f) current (f_time f) (f_transfers f) (f_path f) (f_history f)
      (f_trains f) (f_start f) (f_last f) edge st.
Proof.
  intros (Hlast & (t & Ht & Hne) & _). unfold Port.visit, visit.
  case_bool_decide; [done|].
  destruct (nodes !! edge_to edge) as [neighbor|]; [|done].
  destruct (edge_duration edge <=? 0); [done|].
  assert (Hsame :
    match f_last f with
    | Some l => bool_decide (station current = l)
    | None => false
    end
    = match f_last f with
      | Some l => negb (bool_decide (l = "")) && bool_decide (station current = l)
      | None => false
      end).
  { destruct (f_last f) as [l|]; [|done].
    by rewrite (bool_decide_eq_false_2 _ (Hlast l eq_refl)). }
  rewrite Hsame. clear Hsame.
  match goal with |- (if ?c then _ else _) = _ => destruct c end; [done|].
  destruct (maxTransfers <? _); [done|].
  rewrite Ht. rewrite (bool_decide_eq_false_2 _ Hne). cbn [orb].
  assert (Hseq :
    (if negb (bool_decide (train neighbor = t)) then f_trains f ++ [train neighbor]
     else f_trains f)
    = (if bool_decide (Some t = Some (train neighbor)) then f_trains f
       else f_trains f ++ [train neighbor])).
  { do 2 case_bool_decide; (done || congruence). }
  by rewrite Hseq.
Qed.

(** The loop body calls [recurse] on the next frame only. *)
Lemma visit_ext r1 r2 (f : Frame) (current : Node) (edge : Edge) (st : ServiceState) :
  (forall neighbor,
     nodes !! edge_to edge = Some neighbor ->
     0 < edge_duration edge ->
     let f' := next_frame current neighbor edge f in
     r1 (f_idx f') (f_time f') (f_transfers f') (f_path f') (f_history f')
        (f_trains f') (f_start f') (f_last f') st
     = r2 (f_idx f') (f_time f') (f_transfers f') (f_path f') (f_history f')
          (f_trains f') (f_start f') (f_last f') st) ->
  visit nodes maxTransfers allowSameStationConsecutiveTransfers r1
    (f_idx f) current (f_time f) (f_transfers f) (f_path f) (f_history f)
    (f_trains f) (f_start f) (f_last f) edge st
  = visit nodes maxTransfers allowSameStationConsecutiveTransfers r2
      (f_idx f) current (f_time f) (f_transfers f) (f_path f) (f_history f)
      (f_trains f) (f_start f) (f_last f) edge st.
Proof.
  intros Hext. unfold visit.
  case_bool_decide; [done|].
  destruct (nodes !! edge_to edge) as [neighbor|] eqn:Hnb; [|done].
  destruct (edge_duration edge <=? 0) eqn:Hdur; [done|]. apply Z.leb_gt in Hdur.
  match goal with |- (if ?c then _ else _) = _ => destruct c end; [done|].
  destruct (maxTransfers <? _); [done|].
  exact (Hext neighbor eq_refl Hdur).
Qed.

Lemma plain_next_frame (f : Frame) (current neighbor : Node) (edge : Edge) :
  plain_frame f ->
  current ∈ nodes -> neighbor ∈ nodes ->
  0 < edge_duration edge ->
  plain_frame (next_frame current neighbor edge f).
Proof.
  intros (Hlast & (t & Ht & Hne) & Hs & Htime & Hhist) Hcur Hnb Hdur.
  unfold plain_frame. cbn. split; [|split; [|split; [|split]]].
  - intros l. destruct (is_transfer current neighbor edge); [|apply Hlast].
    intros [= <-]. by apply Hnamed.
  - case_bool_decide as Hsame.
    + by exists t.
    + exists (train neighbor). split; [by rewrite last_snoc | by apply Hnamed].
  - done.
  - lia.
  - apply Forall_app. split; [done|]. constructor; [cbn; lia | done].
Qed.

Lemma port_dfs (fuel : nat) :
  forall f st,
    plain_frame f ->
    Port.dfs nodes adjacency endStation trainInfo directionMap maxTransfers
      allowSameStationConsecutiveTransfers fuel
      (f_idx f) (f_time f) (f_transfers f) (f_path f) (f_history f) (f_trains f)
      (f_start f) (f_last f) st
    = dfs_frame nodes adjacency endStation trainInfo directionMap maxTransfers
        allowSameStationConsecutiveTransfers fuel f st.
Proof.
  induction fuel as [|fuel IH]; intros f st Hplain; [done|].
  unfold dfs_frame. cbn [Port.dfs dfs].
  destruct (nodes !! f_idx f) as [current|] eqn:Hcur; [|done].
  destruct (bool_decide (station current = endStation) && _).
  - destruct Hplain as (_ & _ & Hs & Ht & Hhist).
    by rewrite port_summarizePath.
  - apply for_of_ext. intros edge s _.
    rewrite (port_visit _ f current edge s Hplain).
    apply visit_ext. intros neighbor Hnb Hdur. cbn zeta.
    apply (IH (next_frame current neighbor edge f)).
    apply plain_next_frame; [done | | | done]; by eapply list_elem_of_lookup_2.
Qed.

Hypothesis Hclock : clock_times nodes.

Lemma port_findAllPaths :
  Port.findAllPaths localeCompare nodes adjacency startStation endStation trainInfo
    directionMap maxTransfers allowSameStationConsecutiveTransfers
  = findAllPaths localeCompare nodes adjacency startStation endStation trainInfo
      directionMap maxTransfers allowSameStationConsecutiveTransfers.
Proof.
  unfold Port.findAllPaths, findAllPaths.
  destruct (startNodes_of nodes startStation) as [|first others]; [done|].
  rewrite !bool_decide_eq_false_2 by done.
  rewrite (for_of_ext
    (Port.start_dfs nodes adjacency endStation trainInfo directionMap maxTransfers
       allowSameStationConsecutiveTransfers)
    (start_dfs nodes adjacency endStation trainInfo directionMap maxTransfers
       allowSameStationConsecutiveTransfers)).
  - destruct (for_of _ _ _) as [st|e]; [|done]. cbn. do 3 f_equal.
    apply sort_ext. intros a b.
    unfold Port.by_duration_then_departure, by_duration_then_departure.
    case_bool_decide as Hne.
    + rewrite (proj2 (Z.eqb_neq _ 0)) by lia. done.
    + rewrite (proj2 (Z.eqb_eq _ 0)) by lia. done.
  - intros startIdx s Hidx. unfold Port.start_dfs, start_dfs.
    destruct (nodes !! startIdx) as [start|] eqn:Hnode; [|done].
    assert (Hin : start ∈ nodes) by (by eapply list_elem_of_lookup_2).
    rewrite (port_parseTime_clock _ (Hclock _ Hin)).
    destruct (clock_time_parses _ (Hclock _ Hin)) as (v & -> & Hv).
    apply (port_dfs (length nodes) (first_frame startIdx start v)).
    unfold plain_frame. cbn. split; [done|]. split; [|split; [lia | split; [lia | done]]].
    exists (train start). split; [done | by apply Hnamed].
Qed.

End PortAgainstBackend.

(** *** The two merges *)

Lemma port_add_option (idx : nat) (d : TransferDetail) (ls : list (list TransferDetail)) :
  Port.add_option idx d (Some ls) = let* l := add_option idx d ls in Ok (Some l).
Proof.
  unfold Port.add_option, add_option. cbn zeta.
  assert (Hgrow : (if bool_decide (ls !! idx = None) then ls ++ [[]] else ls)
                  = (if Z.of_nat (length ls) <=? Z.of_nat idx then ls ++ [[]] else ls)).
  { destruct (decide (ls !! idx = None)) as [Hnone|Hsome].
    - rewrite (bool_decide_eq_true_2 _ Hnone).
      apply lookup_ge_None in Hnone. by rewrite (proj2 (Z.leb_le _ _)) by lia.
    - rewrite (bool_decide_eq_false_2 _ Hsome).
      destruct (Z.of_nat (length ls) <=? Z.of_nat idx) eqn:E; [|done].
      apply Z.leb_le in E. destruct Hsome. apply lookup_ge_None. lia. }
  rewrite Hgrow. clear Hgrow.
  set (grown := if Z.of_nat (length ls) <=? Z.of_nat idx then ls ++ [[]] else ls).
  destruct (grown !! idx) as [l|]; [|reflexivity].
  by destruct (bool_decide (d ∈ l)).
Qed.

Lemma port_add_option_all (details : list TransferDetail) :
  forall (idx : nat) (ls : list (list TransferDetail)),
    for_entries Port.add_option idx details (Some ls)
    = let* l := for_entries add_option idx details ls in Ok (Some l).
Proof.
  induction details as [|d details IH]; intros idx ls; cbn [for_entries]; [done|].
  rewrite port_add_option.
  destruct (add_option idx d ls) as [ls'|e]; cbn [bind]; [apply IH | done].
Qed.

Lemma port_merge_entry (entry : PathSummary) (s : MergeState) :
  count_matches_details entry ->
  merge_state_ok s ->
  Port.merge_entry entry s = merge_entry entry s.
Proof.
  intros Hentry (_ & _ & Hgroups). unfold Port.merge_entry, merge_entry.
  unfold Port.merge_key, merge_key, Port.transferCount_of.
  rewrite (transferCount_of_matching _ Hentry).
  fold (merge_key entry).
  assert (Hkey : (train_sequence entry, type entry, transfer_count entry,
                  departure_time entry, arrival_time entry, total_minutes entry)
                 = merge_key entry).
  { unfold merge_key. by rewrite (transferCount_of_matching _ Hentry). }
  rewrite Hkey.
  destruct (grouped s !! merge_key entry) as [g|] eqn:Hlook; [|done].
  destruct (transfer_count entry =? 0) eqn:Hzero; [done|]. apply Z.eqb_neq in Hzero.
  destruct (Hgroups _ _ Hlook) as (Hk & Hbase & Hlists).
  assert (Hcount : transfer_count (base g) = transfer_count entry).
  { rewrite <- Hkey in Hk. unfold merge_key in Hk.
    rewrite transferCount_of_matching in Hk by done. by injection Hk. }
  destruct (transfer_option_lists g) as [ls|]; [|lia].
  rewrite port_add_option_all. cbn [from_option Datatypes.id].
  by destruct (for_entries add_option 0 (transfer_details entry) ls).
Qed.

Lemma port_merge_loop (entries : list PathSummary) :
  Forall count_matches_details entries ->
  forall s, merge_state_ok s ->
    for_of Port.merge_entry entries s = for_of merge_entry entries s.
Proof.
  induction 1 as [|entry entries Hentry _ IH]; intros s Hs; cbn; [done|].
  rewrite (port_merge_entry entry s Hentry Hs).
  destruct (merge_entry_ok entry s Hentry Hs) as (s1 & -> & Hs1). cbn. by apply IH.
Qed.

Lemma port_finish_group (key : MergeKey) (g : Group) :
  group_ok key g -> Port.finish_group g = map_details Some (finish_group g).
Proof.
  intros (_ & _ & Hlists). unfold Port.finish_group, finish_group.
  destruct (transfer_option_lists g) as [ls|]; [|done].
  destruct Hlists as [_ Hheads].
  destruct (heads_kept _ _ Hheads) as [-> ->].
  unfold set_options, map_details. cbn. by rewrite Hheads.
Qed.

Lemma port_collect_groups (s : MergeState) (keys : list MergeKey) :
  (forall key g, grouped s !! key = Some g -> group_ok key g) ->
  forall merged,
    for_of (Port.collect_group s) keys (map_details Some <$> merged)
    = as_port_records (for_of (collect_group s) keys merged).
Proof.
  intros Hgroups. induction keys as [|key keys IH]; intros merged; cbn; [done|].
  unfold Port.collect_group at 1. unfold collect_group at 1.
  destruct (grouped s !! key) as [g|] eqn:Hg; [|done]. cbn.
  rewrite (port_finish_group key g) by (by eapply Hgroups).
  specialize (IH (merged ++ [finish_group g])).
  rewrite fmap_app in IH. exact IH.
Qed.

(** On summaries of the data model the merge of the port returns the
    records of the backend's merge. *)
Lemma port_merge (entries : list PathSummary) :
  Forall count_matches_details entries ->
  Port.mergePathsByTrainSequence entries
  = as_port_records (mergePathsByTrainSequence entries).
Proof.
  intros Hentries. unfold Port.mergePathsByTrainSequence, mergePathsByTrainSequence.
  assert (Hinit : merge_state_ok (mkMergeState ∅ [])).
  { split; [constructor|]. split; [|done]. cbn. intros key.
    rewrite lookup_empty. split; [by intros ?%elem_of_nil | by intros [? ?]]. }
  rewrite (port_merge_loop entries Hentries _ Hinit).
  destruct (merge_loop_ok entries Hentries _ Hinit) as (s & -> & _ & _ & Hgroups).
  cbn. exact (port_collect_groups s (orderedKeys s) Hgroups []).
Qed.

Lemma findAllPaths_count_matches
    (localeCompare : string -> string -> Z) (nodes : list Node)
    (adjacency : gmap nat (list Edge)) (startStation endStation : string)
    (trainInfo : gmap string TrainInfo) (directionMap : option (gmap string (list Z)))
    (maxTransfers : Z) (allowSameStationConsecutiveTransfers : bool)
    (st : ServiceState) :
  findAllPaths localeCompare nodes adjacency startStation endStation trainInfo
    directionMap maxTransfers allowSameStationConsecutiveTransfers = Ok st ->
  Forall count_matches_details (paths st).
Proof.
  intros Hfind. apply Forall_forall. intros p Hp.
  destruct (findAllPaths_emits _ _ _ _ _ _ _ _ _ _ _ Hfind Hp)
    as (k & q & f & -> & _ & _ & Hsum & _).
  apply summarizePath_ok in Hsum as (_ & _ & Hcount & _). exact Hcount.
Qed.

(** C10, as amended. On a graph whose nodes all carry a non-empty station
    name and a non-empty train id and a time written [HH:MM], for every
    station pair, train info, direction map and option setting, the port's
    [findAllPaths] followed by its [mergePathsByTrainSequence] produces
    the sequence of merged records of the backend's two functions, field
    by field and in the same order (or fails as the backend does). *)
Theorem port_agrees_with_backend
    (localeCompare : string -> string -> Z) (nodes : list Node)
    (adjacency : gmap nat (list Edge)) (startStation endStation : string)
    (trainInfo : gmap string TrainInfo) (directionMap : option (gmap string (list Z)))
    (maxTransfers : Z) (allowSameStationConsecutiveTransfers : bool) :
  nodes_named nodes ->
  clock_times nodes ->
  port_pipeline localeCompare nodes adjacency startStation endStation trainInfo
    directionMap maxTransfers allowSameStationConsecutiveTransfers
  = as_port_records
      (backend_pipeline localeCompare nodes adjacency startStation endStation trainInfo
         directionMap maxTransfers allowSameStationConsecutiveTransfers).
Proof.
  intros Hnamed Hclock. unfold port_pipeline, backend_pipeline.
  rewrite port_findAllPaths by done.
  destruct (findAllPaths _ _ _ _ _ _ _ _ _) as [st|e] eqn:Hfind; [|done]. cbn.
  apply port_merge. by eapply findAllPaths_count_matches.
Qed.

Lemma one_transfer_nodes_named : nodes_named one_transfer_nodes.
Proof. intros node Hnode. list_cases Hnode; by split. Qed.

Lemma port_agrees_with_backend_witness :
  nodes_named one_transfer_nodes /\
  clock_times one_transfer_nodes /\
  port_pipeline compare_code_units one_transfer_nodes one_transfer_adjacency
    "X" "Z" ∅ (Some same_direction_map) 2 false
  = as_port_records
      (backend_pipeline compare_code_units one_transfer_nodes one_transfer_adjacency
         "X" "Z" ∅ (Some same_direction_map) 2 false).
Proof.
  split; [exact one_transfer_nodes_named|]. split; [exact one_transfer_clock_times|].
  exact (port_agrees_with_backend compare_code_units one_transfer_nodes
           one_transfer_adjacency "X" "Z" ∅ (Some same_direction_map) 2 false
           one_transfer_nodes_named one_transfer_clock_times).
Defined.

(** C10 as stated fails on a graph with a train whose id is the empty
    string: over one travel edge of that train the backend keeps the
    train sequence at one entry and the port appends a second. *)
Lemma unnamed_train_sequences_differ :
  exists backend port,
    backend_pipeline compare_code_units unnamed_train_nodes unnamed_train_adjacency
      "X" "Z" ∅ (Some ∅) 2 false = Ok backend /\
    port_pipeline compare_code_units unnamed_train_nodes unnamed_train_adjacency
      "X" "Z" ∅ (Some ∅) 2 false = Ok port /\
    train_sequence <$> backend = [[""]] /\
    train_sequence <$> port = [[""; ""]] /\
    Ok port <> as_port_records (Ok backend).
Proof.
  eexists _, _. split; [vm_compute; reflexivity|]. split; [vm_compute; reflexivity|].
  split; [reflexivity|]. split; [reflexivity|]. discriminate.
Qed.

(** * Properties of the further parts and of the whole *)

(** ** The walks of the enumerator *)

Section Walks.

Variable nodes : list Node.
Variable adjacency : gmap nat (list Edge).
Variable startStation endStation : string.
Variable maxTransfers : Z.
Variable allowSameStationConsecutiveTransfers : bool.

Abbreviation Reachable_ := (Reachable nodes adjacency startStation endStation maxTransfers
                          allowSameStationConsecutiveTransfers).

(** The path of a frame is a walk of the graph without a repeated node,
    from a node of the start station to the node of the frame, and it
    meets the destination at its ends only. *)
Lemma reachable_walk (f : Frame) :
  Reachable_ f ->
  NoDup (f_path f) /\
  follows_edges adjacency (f_path f) (f_history f) /\
  last (f_path f) = Some (f_idx f) /\
  (exists i start, head (f_path f) = Some i /\ nodes !! i = Some start /\
                   station start = startStation /\
                   parseTime (time start) = Some (f_start f)) /\
  (forall (j i : nat) node,
     (0 < j < length (f_history f))%nat ->
     f_path f !! j = Some i -> nodes !! i = Some node -> station node <> endStation).
Proof.
  induction 1 as [startIdx start startTime Hnode Hst Htime
                 |f current edge neighbor Hreach (IHnd & [IHlen IHedges] & IHlast & IHhead & IHmid)
                    (Hcur & Hnot & Hedge & Hfresh & Hnb & Hdur & _)].
  - cbn. split; [apply NoDup_singleton|]. split; [|split; [done|split]].
    + split; [done|]. intros k h Hk. done.
    + by exists startIdx, start.
    + intros j i node Hj. lia.
  - assert (Hat : f_path f !! length (f_history f) = Some (f_idx f)).
    { rewrite last_lookup, IHlen in IHlast. exact IHlast. }
    cbn. split; [|split; [|split; [|split]]].
    + apply NoDup_app. split; [done|]. split; [|apply NoDup_singleton].
      intros x Hx Hin. apply list_elem_of_singleton in Hin as ->. done.
    + split; [rewrite !length_app; cbn; lia|].
      intros k h Hk. apply lookup_snoc_Some in Hk as [[Hlt Hk]|[-> <-]].
      * destruct (IHedges k h Hk) as (Hfrom & Hto & Hin).
        split; [|split; [|done]].
        -- rewrite lookup_app_l by lia. done.
        -- rewrite lookup_app_l by lia. done.
      * cbn. split; [|split].
        -- rewrite lookup_app_l by lia. done.
        -- apply list_lookup_middle. lia.
        -- by destruct edge.
    + apply last_snoc.
    + destruct IHhead as (i & start & Hhead & Hstart). exists i, start.
      split; [|done]. rewrite head_snoc, Hhead. done.
    + intros j i node Hj Hi Hnode. rewrite length_app in Hj. cbn in Hj.
      destruct (decide (j < length (f_history f))%nat) as [Hlt|Hge].
      * rewrite lookup_app_l in Hi by lia. eapply IHmid; [|done..]. lia.
      * assert (j = length (f_history f)) as -> by lia.
        rewrite lookup_app_l in Hi by lia. rewrite Hat in Hi. injection Hi as <-.
        rewrite Hcur in Hnode. injection Hnode as <-.
        intros Hst. apply Hnot. split; [done|].
        intros Hnil. rewrite Hnil in Hj. cbn in Hj. lia.
Qed.

(** The counter of transfers bounds the transfer edges taken and the
    trains boarded; the sequence of trains changes at every step. *)
Lemma reachable_counts (f : Frame) :
  Reachable_ f ->
  Z.of_nat (transfers_in (f_history f)) <= f_transfers f /\
  Z.of_nat (length (f_trains f)) <= f_transfers f + 1 /\
  (f_history f <> [] -> f_transfers f <= maxTransfers) /\
  f_trains f <> [] /\
  changes_at_every_step (f_trains f).
Proof.
  induction 1 as [startIdx start startTime Hnode Hst Htime
                 |f current edge neighbor Hreach (IHt & IHs & IHmax & IHne & IHch)
                    (Hcur & Hnot & Hedge & Hfresh & Hnb & Hdur & Hsame & Hmax)].
  - cbn. split; [done|]. split; [done|]. split; [done|]. split; [done|].
    intros i a b Ha Hb. destruct i; done.
  - destruct (reachable_last_train _ _ _ _ _ _ f Hreach) as (current' & Hcur' & Hlast).
    rewrite Hcur in Hcur'. injection Hcur' as <-.
    cbn in Hmax. cbn. unfold transfers_in in *.
    rewrite List.filter_app, length_app. cbn [List.filter h_type].
    unfold is_transfer in *. rewrite Hlast.
    split; [|split; [|split; [|split]]].
    + destruct (bool_decide (edge_type edge = "transfer"));
        destruct (bool_decide (train neighbor = train current)); cbn; lia.
    + destruct (decide (train neighbor = train current)) as [Heq|Hne].
      * rewrite bool_decide_eq_true_2 by congruence.
        destruct (bool_decide (edge_type edge = "transfer") || _); lia.
      * rewrite (bool_decide_eq_false_2 (train neighbor = train current)) by done.
        rewrite bool_decide_eq_false_2 by congruence.
        rewrite orb_true_r, length_app. cbn. lia.
    + intros _. exact Hmax.
    + destruct (bool_decide (Some (train current) = Some (train neighbor))); [done|].
      by destruct (f_trains f).
    + destruct (decide (Some (train current) = Some (train neighbor))) as [Hl|Hl];
        [by rewrite bool_decide_eq_true_2 | rewrite bool_decide_eq_false_2 by done].
      intros i a b Ha Hb.
      apply lookup_snoc_Some in Hb as [[Hlt Hb]|[Hi <-]].
      * rewrite lookup_app_l in Ha by lia. by eapply IHch.
      * rewrite lookup_app_l in Ha by lia.
        rewrite last_lookup in Hlast. rewrite <- Hi in Hlast. cbn in Hlast.
        rewrite Ha in Hlast. injection Hlast as ->. congruence.
Qed.

End Walks.

(** X1. Every itinerary returned by [findAllPaths] is the summary of a
    walk of the graph that repeats no node: it starts at a node of the
    start station, whose time is the departure time of the summary,
    follows entries of the adjacency list from node to node, ends at a
    node of the end station, and meets the end station nowhere in
    between. *)
Theorem returned_paths_are_simple_walks
    (localeCompare : string -> string -> Z) (nodes : list Node)
    (adjacency : gmap nat (list Edge)) (startStation endStation : string)
    (trainInfo : gmap string TrainInfo) (directionMap : option (gmap string (list Z)))
    (maxTransfers : Z) (allowSameStationConsecutiveTransfers : bool)
    (st : ServiceState) (p : PathSummary) :
  findAllPaths localeCompare nodes adjacency startStation endStation trainInfo
    directionMap maxTransfers allowSameStationConsecutiveTransfers = Ok st ->
  p ∈ paths st ->
  exists (f : Frame) (first : nat) (start dest : Node),
    NoDup (f_path f) /\
    follows_edges adjacency (f_path f) (f_history f) /\
    f_history f <> [] /\
    head (f_path f) = Some first /\ nodes !! first = Some start /\
    station start = startStation /\
    parseTime (time start) = Some (f_start f) /\
    departure_time p = toTime (f_start f) /\
    last (f_path f) = Some (f_idx f) /\ nodes !! f_idx f = Some dest /\
    station dest = endStation /\
    train_sequence p = f_trains f /\
    (forall (j i : nat) node,
       (0 < j < length (f_history f))%nat ->
       f_path f !! j = Some i -> nodes !! i = Some node -> station node <> endStation).
Proof.
  intros Hrun Hp.
  destruct (findAllPaths_emits _ _ _ _ _ _ _ _ _ _ _ Hrun Hp)
    as (k & q & f & -> & Hreach & (dest & Hdest & Hst & Hne) & Hsum & _).
  destruct (reachable_walk _ _ _ _ _ _ f Hreach)
    as (Hnd & Hfollow & Hlast & (first & start & Hhead & Hstart & Hstation & Htime) & Hmid).
  apply summarizePath_ok in Hsum as (_ & Hseq & _ & _ & Hdep & _).
  exists f, first, start, dest. cbn. rewrite Hdep, Hseq. done.
Qed.

Lemma returned_paths_are_simple_walks_witness :
  exists st p (f : Frame) (first : nat) (start dest : Node),
    findAllPaths compare_code_units one_transfer_nodes one_transfer_adjacency
      "X" "Z" ∅ (Some ∅) 2 false = Ok st /\
    p ∈ paths st /\
    NoDup (f_path f) /\
    follows_edges one_transfer_adjacency (f_path f) (f_history f) /\
    head (f_path f) = Some first /\ one_transfer_nodes !! first = Some start /\
    station start = "X" /\
    departure_time p = toTime (f_start f) /\
    last (f_path f) = Some (f_idx f) /\ one_transfer_nodes !! f_idx f = Some dest /\
    station dest = "Z".
Proof.
  eassert (Hrun : findAllPaths compare_code_units one_transfer_nodes one_transfer_adjacency
                    "X" "Z" ∅ (Some ∅) 2 false = Ok (mkState [_] _))
    by (vm_compute; reflexivity).
  pose proof (returned_paths_are_simple_walks compare_code_units one_transfer_nodes
                one_transfer_adjacency "X" "Z" ∅ (Some ∅) 2 false _ _
                Hrun (list_elem_of_here _ _))
    as (f & first & start & dest & H1 & H2 & _ & H3 & H4 & H5 & _ & H6 & H7 & H8 & H9 & _).
  eexists _, _, f, first, start, dest. split; [exact Hrun|].
  split; [apply list_elem_of_here|].
  split; [exact H1|]. split; [exact H2|]. split; [exact H3|]. split; [exact H4|].
  split; [exact H5|]. split; [exact H6|]. split; [exact H7|]. split; [exact H8|exact H9].
Defined.

(** X2. Every itinerary returned by [findAllPaths] keeps within the
    bound on transfers: [transfer_count] lies between 0 and
    [maxTransfers], the train sequence is not empty, holds at most
    [maxTransfers + 1] trains and never names the same train twice in a
    row; the type is [Transfer] exactly when the count is positive. *)
Theorem transfers_never_exceed_the_bound
    (localeCompare : string -> string -> Z) (nodes : list Node)
    (adjacency : gmap nat (list Edge)) (startStation endStation : string)
    (trainInfo : gmap string TrainInfo) (directionMap : option (gmap string (list Z)))
    (maxTransfers : Z) (allowSameStationConsecutiveTransfers : bool)
    (st : ServiceState) (p : PathSummary) :
  findAllPaths localeCompare nodes adjacency startStation endStation trainInfo
    directionMap maxTransfers allowSameStationConsecutiveTransfers = Ok st ->
  p ∈ paths st ->
  0 <= transfer_count p <= maxTransfers /\
  1 <= Z.of_nat (length (train_sequence p)) <= maxTransfers + 1 /\
  changes_at_every_step (train_sequence p) /\
  type p = (if 0 <? transfer_count p then "Transfer" else "Direct").
Proof.
  intros Hrun Hp.
  destruct (findAllPaths_emits _ _ _ _ _ _ _ _ _ _ _ Hrun Hp)
    as (k & q & f & -> & Hreach & (dest & Hdest & Hst & Hne) & Hsum & _).
  destruct (reachable_counts _ _ _ _ _ _ f Hreach) as (Ht & Hs & Hmax & Hnil & Hch).
  specialize (Hmax Hne).
  assert (Htype : type q = (if 0 <? transfer_count q then "Transfer" else "Direct")).
  { unfold summarizePath in Hsum.
    destruct (walk_history _ _ _ _) as [[timeline details]|e]; [|done].
    cbn in Hsum. by injection Hsum as <-. }
  apply summarizePath_ok in Hsum as (_ & Hseq & Hcount & Hlen & _).
  cbn. rewrite Hseq, Hcount, Hlen. rewrite Hcount, Hlen in Htype.
  split; [lia|]. split; [|done].
  destruct (f_trains f); [done|]. cbn [length] in *. lia.
Qed.

Lemma transfers_never_exceed_the_bound_witness :
  exists st p,
    findAllPaths compare_code_units one_transfer_nodes one_transfer_adjacency
      "X" "Z" ∅ (Some ∅) 2 false = Ok st /\
    p ∈ paths st /\
    transfer_count p = 1 /\
    0 <= transfer_count p <= 2 /\
    1 <= Z.of_nat (length (train_sequence p)) <= 2 + 1.
Proof.
  eassert (Hrun : findAllPaths compare_code_units one_transfer_nodes one_transfer_adjacency
                    "X" "Z" ∅ (Some ∅) 2 false = Ok (mkState [_] _))
    by (vm_compute; reflexivity).
  pose proof (transfers_never_exceed_the_bound compare_code_units one_transfer_nodes
                one_transfer_adjacency "X" "Z" ∅ (Some ∅) 2 false _ _
                Hrun (list_elem_of_here _ _)) as (H1 & H2 & _).
  eexists _, _. split; [exact Hrun|].
  split; [apply list_elem_of_here|]. split; [reflexivity|].
  split; [exact H1|exact H2].
Defined.

(** ** The order and the numbering of the result *)

Lemma ascending_cons {A} (key : A -> Z) (x : A) (l : list A) :
  ascending key (x :: l) <-> (forall y, y ∈ l -> key x <= key y) /\ ascending key l.
Proof.
  split.
  - intros Hasc. split.
    + intros y Hy. apply list_elem_of_lookup in Hy as [k Hk].
      apply (Hasc 0%nat (S k)); [lia|done..].
    + intros i j a b Hij Ha Hb. apply (Hasc (S i) (S j)); [lia|done..].
  - intros [Hhead Htail] i j a b Hij Ha Hb.
    destruct i as [|i], j as [|j]; cbn in Ha, Hb; try lia.
    + injection Ha as <-. injection Hb as <-. lia.
    + injection Ha as <-. apply Hhead. by eapply list_elem_of_lookup_2.
    + apply (Htail i j); [lia|done..].
Qed.

Lemma insert_sorted_ascending {A} (cmp : A -> A -> Z) (key : A -> Z) (x : A) (l : list A) :
  (forall a b, if 0 <? cmp a b then key b <= key a else key a <= key b) ->
  ascending key l -> ascending key (JS.insert_sorted cmp x l).
Proof.
  intros Hcmp. induction l as [|y l IHl]; intros Hl; cbn.
  - apply ascending_cons. split; [|done]. intros y Hy. by apply elem_of_nil in Hy.
  - apply ascending_cons in Hl as [Hy Hl].
    pose proof (Hcmp x y) as Hxy.
    destruct (0 <? cmp x y).
    + apply ascending_cons. split; [|by apply IHl].
      intros z Hz. rewrite insert_sorted_perm in Hz.
      apply elem_of_cons in Hz as [->|Hz]; [done | by apply Hy].
    + apply ascending_cons. split.
      * intros z Hz. apply elem_of_cons in Hz as [->|Hz]; [done|].
        specialize (Hy z Hz). lia.
      * apply ascending_cons. by split.
Qed.

(** The insertion sort puts the entries in the order of any key the
    comparator agrees with. *)
Lemma sort_ascending {A} (cmp : A -> A -> Z) (key : A -> Z) (l : list A) :
  (forall a b, if 0 <? cmp a b then key b <= key a else key a <= key b) ->
  ascending key (JS.sort cmp l).
Proof.
  intros Hcmp. unfold JS.sort.
  induction l as [|x l IH]; cbn; [by intros i j a b _ Ha|].
  by apply insert_sorted_ascending.
Qed.

Lemma by_duration_then_departure_key (localeCompare : string -> string -> Z)
    (a b : PathSummary) :
  if 0 <? by_duration_then_departure localeCompare a b
  then total_minutes b <= total_minutes a
  else total_minutes a <= total_minutes b.
Proof.
  unfold by_duration_then_departure. case_bool_decide as Hne.
  - destruct (0 <? _) eqn:Hlt; [apply Z.ltb_lt in Hlt | apply Z.ltb_ge in Hlt]; lia.
  - assert (total_minutes a = total_minutes b) as -> by (by destruct (decide (total_minutes a = total_minutes b))).
    by destruct (0 <? _).
Qed.

Lemma assign_ids_lookup {D} (l : list (PathRec D)) (i : nat) (p : PathRec D) :
  assign_ids l !! i = Some p ->
  exists q, l !! i = Some q /\ p = set_id (Z.of_nat i + 1) q.
Proof.
  unfold assign_ids. rewrite list_lookup_imap.
  destruct (l !! i) as [q|]; [|done]. intros [= <-]. by exists q.
Qed.

Lemma assign_ids_ascending {D} (l : list (PathRec D)) :
  ascending total_minutes l -> ascending total_minutes (assign_ids l).
Proof.
  intros Hl i j a b Hij Ha Hb.
  apply assign_ids_lookup in Ha as (a' & Ha & ->).
  apply assign_ids_lookup in Hb as (b' & Hb & ->).
  cbn. by eapply Hl.
Qed.

(** The result of [findAllPaths] is in the order of [total_minutes] and
    numbered from 1. *)
Lemma findAllPaths_ordered
    (localeCompare : string -> string -> Z) (nodes : list Node)
    (adjacency : gmap nat (list Edge)) (startStation endStation : string)
    (trainInfo : gmap string TrainInfo) (directionMap : option (gmap string (list Z)))
    (maxTransfers : Z) (allowSameStationConsecutiveTransfers : bool)
    (st : ServiceState) :
  findAllPaths localeCompare nodes adjacency startStation endStation trainInfo
    directionMap maxTransfers allowSameStationConsecutiveTransfers = Ok st ->
  ascending total_minutes (paths st) /\
  (forall (i : nat) p, paths st !! i = Some p -> id p = Some (Z.of_nat i + 1)).
Proof.
  unfold findAllPaths. case_bool_decide as Hstart.
  { intros [= <-]. split; [by intros i j a b _ Ha | by intros i p Hp]. }
  destruct (for_of _ _ _) as [st0|e]; [|done]. cbn. intros [= <-]. cbn. split.
  - apply assign_ids_ascending, sort_ascending.
    apply by_duration_then_departure_key.
  - intros i p Hp. by apply assign_ids_lookup in Hp as (q & _ & ->).
Qed.

(** X3. The array returned by [findAllPaths] is in the order of
    [total_minutes], the fastest itinerary first, whatever the host's
    [localeCompare] is, and the entry at index [i] has the id [i + 1]. *)
Theorem paths_come_sorted_and_numbered
    (localeCompare : string -> string -> Z) (nodes : list Node)
    (adjacency : gmap nat (list Edge)) (startStation endStation : string)
    (trainInfo : gmap string TrainInfo) (directionMap : option (gmap string (list Z)))
    (maxTransfers : Z) (allowSameStationConsecutiveTransfers : bool)
    (st : ServiceState) :
  findAllPaths localeCompare nodes adjacency startStation endStation trainInfo
    directionMap maxTransfers allowSameStationConsecutiveTransfers = Ok st ->
  ascending total_minutes (paths st) /\
  (forall (i : nat) p, paths st !! i = Some p -> id p = Some (Z.of_nat i + 1)).
Proof. apply findAllPaths_ordered. Qed.

Lemma paths_come_sorted_and_numbered_witness :
  exists st,
    findAllPaths compare_code_units two_trains_nodes two_trains_adjacency
      "X" "Z" ∅ (Some ∅) 2 false = Ok st /\
    total_minutes <$> paths st = [30; 60] /\
    train_sequence <$> paths st = [["T2"]; ["T1"]] /\
    ascending total_minutes (paths st) /\
    (forall (i : nat) p, paths st !! i = Some p -> id p = Some (Z.of_nat i + 1)).
Proof.
  eassert (Hrun : findAllPaths compare_code_units two_trains_nodes two_trains_adjacency
                    "X" "Z" ∅ (Some ∅) 2 false = Ok _)
    by (vm_compute; reflexivity).
  eexists. split; [exact Hrun|]. split; [reflexivity|]. split; [reflexivity|].
  exact (paths_come_sorted_and_numbered compare_code_units two_trains_nodes
           two_trains_adjacency "X" "Z" ∅ (Some ∅) 2 false _ Hrun).
Defined.

(** ** The failures and the counter of the enumerator *)

(** X4. [findAllPaths] always returns: the recursion of [dfs] is never
    deeper than the number of nodes; it throws a [TypeError] only when an
    entry of the adjacency list points past the nodes, and its numbers
    leave the integers only when the time of a node of the start station
    is not a time. *)
Theorem enumerator_fails_only_on_bad_data
    (localeCompare : string -> string -> Z) (nodes : list Node)
    (adjacency : gmap nat (list Edge)) (startStation endStation : string)
    (trainInfo : gmap string TrainInfo) (directionMap : option (gmap string (list Z)))
    (maxTransfers : Z) (allowSameStationConsecutiveTransfers : bool) :
  match findAllPaths localeCompare nodes adjacency startStation endStation trainInfo
          directionMap maxTransfers allowSameStationConsecutiveTransfers with
  | Ok _ => True
  | Err TypeError => ~ targets_in_range nodes adjacency
  | Err NotANumber =>
      exists start, start ∈ nodes /\ station start = startStation /\
                    parseTime (time start) = None
  | Err OutOfFuel => False
  end.
Proof. apply findAllPaths_returns. Qed.

Section Skips.

Variable nodes : list Node.
Variable adjacency : gmap nat (list Edge).
Variable endStation : string.
Variable trainInfo : gmap string TrainInfo.
Variable directionMap : option (gmap string (list Z)).
Variable maxTransfers : Z.
Variable allowSameStationConsecutiveTransfers : bool.

(** [dfs] never lowers the counter of skipped transfers, and leaves it
    alone when consecutive transfers at one station are allowed. *)
Lemma dfs_skips (fuel : nat) :
  forall idx time transfers path history trains start last st st',
    dfs nodes adjacency endStation trainInfo directionMap maxTransfers
      allowSameStationConsecutiveTransfers fuel idx time transfers path history trains
      start last st = Ok st' ->
    skipped_same_station_transfers st <= skipped_same_station_transfers st' /\
    (allowSameStationConsecutiveTransfers = true ->
     skipped_same_station_transfers st' = skipped_same_station_transfers st).
Proof.
  induction fuel as [|fuel IH];
    intros idx time transfers path history trains start last st st' Hrun; [done|].
  cbn [dfs] in Hrun.
  destruct (nodes !! idx) as [current|]; [|done].
  destruct (bool_decide (station current = endStation) && _).
  - destruct (summarizePath _ _ _ _ _ _) as [p|e]; [|done]. cbn in Hrun.
    destruct (rejected_by_direction directionMap p); injection Hrun as <-; cbn; split; (lia || done).
  - revert Hrun.
    apply (for_of_ok_inv _
      (fun s => skipped_same_station_transfers st <= skipped_same_station_transfers s /\
                (allowSameStationConsecutiveTransfers = true ->
                 skipped_same_station_transfers s = skipped_same_station_transfers st)));
      [|split; [lia|done]].
    intros edge s s' _ [Hle Heq] Hvisit. unfold visit in Hvisit.
    destruct (bool_decide (edge_to edge ∈ path)); [by injection Hvisit as <-|].
    destruct (nodes !! edge_to edge) as [neighbor|]; [|done].
    destruct (edge_duration edge <=? 0); [by injection Hvisit as <-|].
    destruct (_ && negb allowSameStationConsecutiveTransfers && _) eqn:Hsame.
    + injection Hvisit as <-. cbn. split; [lia|].
      intros Hallow. rewrite Hallow, andb_false_r in Hsame. done.
    + destruct (maxTransfers <? _); [by injection Hvisit as <-|].
      apply IH in Hvisit as [Hle' Heq']. split; [lia|].
      intros Hallow. rewrite Heq', Heq; done.
Qed.

End Skips.

(** X5. The counter [skipped_same_station_transfers] returned by
    [findAllPaths] is never negative, and it is zero when consecutive
    transfers at one station are allowed. *)
Theorem nothing_skipped_when_allowed
    (localeCompare : string -> string -> Z) (nodes : list Node)
    (adjacency : gmap nat (list Edge)) (startStation endStation : string)
    (trainInfo : gmap string TrainInfo) (directionMap : option (gmap string (list Z)))
    (maxTransfers : Z) (allowSameStationConsecutiveTransfers : bool)
    (st : ServiceState) :
  findAllPaths localeCompare nodes adjacency startStation endStation trainInfo
    directionMap maxTransfers allowSameStationConsecutiveTransfers = Ok st ->
  0 <= skipped_same_station_transfers st /\
  (allowSameStationConsecutiveTransfers = true -> skipped_same_station_transfers st = 0).
Proof.
  unfold findAllPaths. case_bool_decide as Hstart.
  { by intros [= <-]. }
  destruct (for_of _ _ _) as [st0|e] eqn:Hloop; [|done]. cbn. intros [= <-]. cbn.
  revert Hloop.
  apply (for_of_ok_inv _
    (fun s => 0 <= skipped_same_station_transfers s /\
              (allowSameStationConsecutiveTransfers = true ->
               skipped_same_station_transfers s = 0))); [|done].
  intros startIdx s s' _ [Hle Heq] Hrun. unfold start_dfs in Hrun.
  destruct (nodes !! startIdx) as [start|]; [|done].
  destruct (parseTime (time start)) as [startTime|]; [|done].
  apply dfs_skips in Hrun as [Hle' Heq']. split; [lia|].
  intros Hallow. rewrite Heq', Heq; done.
Qed.

Lemma nothing_skipped_when_allowed_witness :
  exists st p without,
    findAllPaths compare_code_units double_change_nodes double_change_adjacency
      "X" "Z" ∅ (Some ∅) 2 true = Ok st /\
    paths st = [p] /\ transfer_count p = 2 /\
    findAllPaths compare_code_units double_change_nodes double_change_adjacency
      "X" "Z" ∅ (Some ∅) 2 false = Ok without /\
    paths without = [] /\ skipped_same_station_transfers without = 1 /\
    0 <= skipped_same_station_transfers st /\
    (true = true -> skipped_same_station_transfers st = 0).
Proof.
  eassert (Hrun : findAllPaths compare_code_units double_change_nodes
                    double_change_adjacency "X" "Z" ∅ (Some ∅) 2 true = Ok (mkState [_] _))
    by (vm_compute; reflexivity).
  eexists _, _, _. split; [exact Hrun|]. split; [reflexivity|].
  split; [reflexivity|]. split; [vm_compute; reflexivity|]. split; [reflexivity|].
  split; [reflexivity|].
  exact (nothing_skipped_when_allowed compare_code_units double_change_nodes
           double_change_adjacency "X" "Z" ∅ (Some ∅) 2 true _ Hrun).
Defined.

(** ** Consecutive transfers at one station *)

Lemma walk_history_snoc nodes (edgeHistory : list HistoryEdge) (h : HistoryEdge) :
  forall timeline details,
    walk_history nodes (edgeHistory ++ [h]) timeline details
    = let* r := walk_history nodes edgeHistory timeline details in
      walk_history nodes [h] r.1 r.2.
Proof.
  induction edgeHistory as [|e rest IH]; intros timeline details; [done|].
  cbn [app walk_history]. case_bool_decide.
  - destruct (nodes !! h_from e); [apply IH | done].
  - apply IH.
Qed.

Lemma changes_at_every_step_snoc {A} (l : list A) (x : A) :
  changes_at_every_step l -> last l <> Some x -> changes_at_every_step (l ++ [x]).
Proof.
  intros Hl Hlast i a b Ha Hb.
  apply lookup_snoc_Some in Hb as [[Hlt Hb]|[Hi <-]].
  - rewrite lookup_app_l in Ha by lia. by eapply Hl.
  - rewrite lookup_app_l in Ha by lia.
    rewrite last_lookup in Hlast. rewrite <- Hi in Hlast. cbn in Hlast.
    rewrite Ha in Hlast. congruence.
Qed.

Section OneStationOneTransfer.

Variable nodes : list Node.
Variable adjacency : gmap nat (list Edge).
Variable startStation endStation : string.
Variable maxTransfers : Z.

Hypothesis Hmodel : edges_respect_trains nodes adjacency.
Hypothesis Hnamed : nodes_named nodes.

(** When consecutive transfers at one station are refused, the stations
    of the transfers made so far change at every step, and the last of
    them is the one [dfs] remembers. *)
Lemma reachable_transfer_stations (f : Frame) :
  Reachable nodes adjacency startStation endStation maxTransfers false f ->
  (forall l, f_last f = Some l -> l <> "") /\
  forall timeline details,
    walk_history nodes (f_history f) (f_start f) [] = Ok (timeline, details) ->
    changes_at_every_step (td_station <$> details) /\
    last (td_station <$> details) = f_last f.
Proof.
  induction 1 as [startIdx start startTime Hnode Hst Htime
                 |f current edge neighbor Hreach [IHne IH]
                    (Hcur & Hnot & Hedge & Hfresh & Hnb & Hdur & Hsame & Hmax)].
  - cbn. split; [done|]. intros timeline details [= <- <-]. split; [|done].
    by intros i a b Ha.
  - destruct (adjacency !! f_idx f) as [edges|] eqn:Hadj;
      [|by apply elem_of_nil in Hedge].
    cbn in Hedge.
    pose proof (Hmodel _ _ _ _ _ Hcur Hadj Hedge Hnb) as Htype.
    assert (Hstation : station current <> "").
    { apply Hnamed. by eapply list_elem_of_lookup_2. }
    unfold same_station_again in Hsame. cbn [negb] in Hsame. rewrite andb_true_r in Hsame.
    cbn [next_frame f_last f_history f_start]. unfold is_transfer in *.
    destruct (decide (edge_type edge = "transfer")) as [Hyes|Hno].
    + rewrite (bool_decide_eq_true_2 _ Hyes) in *. cbn [orb andb] in *.
      split; [by intros l [= <-]|].
      intros timeline details. rewrite walk_history_snoc.
      destruct (walk_history nodes (f_history f) (f_start f) []) as [[t1 d1]|e] eqn:Hwalk;
        [|done].
      cbn. rewrite (bool_decide_eq_true_2 _ Hyes), Hcur. intros [= <- <-].
      destruct (IH _ _ eq_refl) as [Hch Hlast].
      rewrite fmap_app. cbn. split; [|apply last_snoc].
      apply changes_at_every_step_snoc; [done|].
      rewrite Hlast. intros Heq. rewrite Heq in Hsame.
      rewrite (bool_decide_eq_false_2 _ Hstation) in Hsame. cbn in Hsame.
      by rewrite bool_decide_eq_true_2 in Hsame.
    + assert (Hsametrain : train neighbor = train current).
      { destruct (decide (train neighbor = train current)) as [Heq|Hne]; [done|].
        by apply Htype in Hne. }
      rewrite (bool_decide_eq_false_2 _ Hno) in *.
      rewrite (bool_decide_eq_true_2 _ Hsametrain) in *. cbn [orb negb].
      split; [done|].
      intros timeline details. rewrite walk_history_snoc.
      destruct (walk_history nodes (f_history f) (f_start f) []) as [[t1 d1]|e] eqn:Hwalk;
        [|done].
      cbn. rewrite (bool_decide_eq_false_2 _ Hno). intros [= <- <-].
      by apply (IH t1).
Qed.

End OneStationOneTransfer.

(** X6. When consecutive transfers at one station are refused, the
    edges of the graph follow the data model (a transfer edge exactly
    between nodes of different trains) and every node has a station
    name, no itinerary returned by [findAllPaths] changes trains twice in
    a row at the same station. *)
Theorem no_two_transfers_in_a_row_at_one_station
    (localeCompare : string -> string -> Z) (nodes : list Node)
    (adjacency : gmap nat (list Edge)) (startStation endStation : string)
    (trainInfo : gmap string TrainInfo) (directionMap : option (gmap string (list Z)))
    (maxTransfers : Z) (st : ServiceState) (p : PathSummary) :
  edges_respect_trains nodes adjacency ->
  nodes_named nodes ->
  findAllPaths localeCompare nodes adjacency startStation endStation trainInfo
    directionMap maxTransfers false = Ok st ->
  p ∈ paths st ->
  changes_at_every_step (td_station <$> transfer_details p).
Proof.
  intros Hmodel Hnamed Hrun Hp.
  destruct (findAllPaths_emits _ _ _ _ _ _ _ _ _ _ _ Hrun Hp)
    as (k & q & f & -> & Hreach & _ & Hsum & _).
  destruct (reachable_transfer_stations _ _ _ _ _ Hmodel Hnamed f Hreach) as [_ Hwalk].
  unfold summarizePath in Hsum.
  destruct (walk_history _ _ _ _) as [[timeline details]|e] eqn:Hw; [|done].
  cbn in Hsum. injection Hsum as <-. cbn. by apply (Hwalk timeline).
Qed.

Lemma two_changes_respect_trains :
  edges_respect_trains two_changes_nodes two_changes_adjacency.
Proof.
  intros i current edges edge neighbor Hcur Hadj Hedge Hnb.
  list_to_map_cases Hadj; list_cases Hedge;
    cbn in Hcur, Hnb; injection Hcur as <-; injection Hnb as <-; cbn;
    split; (done || congruence).
Qed.

Lemma two_changes_nodes_named : nodes_named two_changes_nodes.
Proof. intros node Hnode. list_cases Hnode; by split. Qed.

Lemma no_two_transfers_in_a_row_at_one_station_witness :
  edges_respect_trains two_changes_nodes two_changes_adjacency /\
  nodes_named two_changes_nodes /\
  exists st p,
    findAllPaths compare_code_units two_changes_nodes two_changes_adjacency
      "X" "Z" ∅ (Some ∅) 2 false = Ok st /\
    p ∈ paths st /\
    td_station <$> transfer_details p = ["Y"; "W"] /\
    changes_at_every_step (td_station <$> transfer_details p).
Proof.
  split; [exact two_changes_respect_trains|]. split; [exact two_changes_nodes_named|].
  eassert (Hrun : findAllPaths compare_code_units two_changes_nodes two_changes_adjacency
                    "X" "Z" ∅ (Some ∅) 2 false = Ok (mkState [_] _))
    by (vm_compute; reflexivity).
  eexists _, _. split; [exact Hrun|].
  split; [apply list_elem_of_here|]. split; [reflexivity|].
  exact (no_two_transfers_in_a_row_at_one_station compare_code_units two_changes_nodes
           two_changes_adjacency "X" "Z" ∅ (Some ∅) 2 _ _
           two_changes_respect_trains two_changes_nodes_named
           Hrun (list_elem_of_here _ _)).
Defined.

(** ** Facts about sets in insertion order *)

Lemma Set_add_elem {A} `{EqDecision A} (set : list A) (x y : A) :
  y ∈ Set_add set x <-> y ∈ set \/ y = x.
Proof.
  unfold Set_add. case_bool_decide as Hin.
  - split; [by left | intros [Hy| ->]; done].
  - rewrite elem_of_app, list_elem_of_singleton. done.
Qed.

Lemma Set_add_NoDup {A} `{EqDecision A} (set : list A) (x : A) :
  NoDup set -> NoDup (Set_add set x).
Proof.
  intros Hset. unfold Set_add. case_bool_decide as Hin; [done|].
  apply NoDup_app. split; [done|]. split; [|apply NoDup_singleton].
  intros y Hy Hy'. apply list_elem_of_singleton in Hy' as ->. done.
Qed.

Lemma foldl_Set_add {A} `{EqDecision A} (l : list A) :
  forall set,
    NoDup set ->
    NoDup (foldl Set_add set l) /\
    (forall y, y ∈ foldl Set_add set l <-> y ∈ set \/ y ∈ l) /\
    exists new, foldl Set_add set l = set ++ new /\ sublist new l.
Proof.
  induction l as [|x l IH]; intros set Hset; cbn.
  - split; [done|]. split.
    + intros y. split; [by left | intros [Hy|Hy%elem_of_nil]; done].
    + exists []. by rewrite app_nil_r.
  - destruct (IH (Set_add set x) (Set_add_NoDup _ _ Hset)) as (Hnd & Hin & new & Hnew & Hsub).
    split; [done|]. split.
    + intros y. rewrite Hin, Set_add_elem, elem_of_cons. tauto.
    + rewrite Hnew. unfold Set_add. case_bool_decide.
      * exists new. split; [done|]. by apply sublist_cons.
      * exists (x :: new). split; [by rewrite <- app_assoc|]. by apply sublist_skip.
Qed.

Lemma distinct_in_order_spec {A} `{EqDecision A} (l : list A) :
  NoDup (distinct_in_order l) /\
  (forall y, y ∈ distinct_in_order l <-> y ∈ l) /\
  sublist (distinct_in_order l) l.
Proof.
  destruct (foldl_Set_add l [] (NoDup_nil_2)) as (Hnd & Hin & new & Hnew & Hsub).
  split; [done|]. split.
  - intros y. rewrite (Hin y). split; [intros [Hy%elem_of_nil|Hy]; done | by right].
  - unfold distinct_in_order. by rewrite Hnew.
Qed.

Lemma distinct_in_order_snoc {A} `{EqDecision A} (l : list A) (x : A) :
  distinct_in_order (l ++ [x]) = Set_add (distinct_in_order l) x.
Proof. unfold distinct_in_order. by rewrite foldl_app. Qed.

(** ** The groups of the merge *)

Lemma add_option_all_exact (details : list TransferDetail) :
  forall done_ rest : list (list TransferDetail),
    length rest = length details ->
    for_entries add_option (length done_) details (done_ ++ rest)
    = Ok (done_ ++ zip_with absorb rest details).
Proof.
  induction details as [|d details IH]; intros done_ rest Hlen.
  - by destruct rest.
  - destruct rest as [|l rest]; [done|]. cbn in Hlen.
    cbn [for_entries]. unfold add_option at 1.
    assert (Hlt : (Z.of_nat (length (done_ ++ l :: rest)) <=? Z.of_nat (length done_)) = false).
    { apply Z.leb_gt. rewrite length_app. cbn. lia. }
    rewrite Hlt. rewrite lookup_app_r, Nat.sub_diag by lia. cbn [lookup list_lookup].
    assert (Hstep : (if bool_decide (d ∈ l) then Ok (done_ ++ l :: rest)
                     else Ok (<[length done_ := l ++ [d]]> (done_ ++ l :: rest)))
                    = Ok ((done_ ++ [absorb l d]) ++ rest)).
    { unfold absorb. case_bool_decide.
      - by rewrite <- app_assoc.
      - rewrite insert_app_r_alt, Nat.sub_diag by lia. cbn. by rewrite <- app_assoc. }
    rewrite Hstep. cbn [bind].
    specialize (IH (done_ ++ [absorb l d]) rest ltac:(lia)).
    rewrite length_app, Nat.add_1_r in IH. rewrite IH.
    cbn. by rewrite <- app_assoc.
Qed.

(** The state a turn of the first loop leaves, written out. *)
Lemma merge_entry_step (entry : PathSummary) (s : MergeState) :
  count_matches_details entry ->
  merge_state_ok s ->
  merge_entry entry s
  = Ok match grouped s !! merge_key entry with
       | None =>
           mkMergeState (<[merge_key entry := fresh_group entry]> (grouped s))
             (orderedKeys s ++ [merge_key entry])
       | Some g =>
           if transfer_count entry =? 0 then s
           else mkMergeState
                  (<[merge_key entry :=
                       mkGroup (base g)
                         (Some (zip_with absorb (default [] (transfer_option_lists g))
                                  (transfer_details entry)))]> (grouped s))
                  (orderedKeys s)
       end.
Proof.
  intros Hentry (Hnodup & Hkeys & Hgroups).
  destruct (grouped s !! merge_key entry) as [g|] eqn:Hlook;
    [|by apply merge_entry_fresh].
  unfold merge_entry. rewrite (transferCount_of_matching _ Hentry), Hlook.
  destruct (Hgroups _ _ Hlook) as (Hkey & Hbase & Hlists).
  destruct (transfer_count entry =? 0) eqn:Hzero; [done|].
  apply Z.eqb_neq in Hzero.
  assert (Hcount : transfer_count (base g) = transfer_count entry).
  { unfold merge_key in Hkey. rewrite !transferCount_of_matching in Hkey by done.
    by injection Hkey. }
  destruct (transfer_option_lists g) as [ls|] eqn:Hls; [|lia].
  destruct Hlists as [Hpos Hheads]. cbn [from_option Datatypes.id].
  destruct (heads_nonempty _ _ Hheads) as [Hlen Hne].
  pose proof (add_option_all_exact (transfer_details entry) [] ls) as Hrun.
  cbn in Hrun. rewrite Hrun; [done|].
  unfold count_matches_details in *. lia.
Qed.

Lemma first_with_key_snoc (entries : list PathSummary) (x entry : PathSummary) :
  first_with_key entries entry -> first_with_key (entries ++ [x]) entry.
Proof.
  intros (i & Hi & Hfirst). exists i.
  pose proof (lookup_lt_Some _ _ _ Hi) as Hlt. split.
  - by rewrite lookup_app_l.
  - intros j e Hj He. rewrite lookup_app_l in He by lia. by eapply Hfirst.
Qed.

Lemma options_of_key_other (entries : list PathSummary) (x : PathSummary) (key : MergeKey)
    (lists : list (list TransferDetail)) :
  merge_key x <> key \/ transfer_details x = [] ->
  options_of_key entries key lists -> options_of_key (entries ++ [x]) key lists.
Proof.
  intros Hx Hlists i l Hl. destruct (Hlists i l Hl) as [Hnd Hin]. split; [done|].
  intros d. rewrite Hin. split.
  - intros (e & He & Hkey & Hd). exists e. split; [|done]. apply elem_of_app. by left.
  - intros (e & He & Hkey & Hd). apply elem_of_app in He as [He|He]; [by exists e|].
    apply list_elem_of_singleton in He as ->.
    destruct Hx as [Hx|Hx]; [done | by rewrite Hx in Hd].
Qed.

Lemma options_of_key_absorb (entries : list PathSummary) (x : PathSummary)
    (lists : list (list TransferDetail)) :
  length lists = length (transfer_details x) ->
  options_of_key entries (merge_key x) lists ->
  options_of_key (entries ++ [x]) (merge_key x) (zip_with absorb lists (transfer_details x)).
Proof.
  intros Hlen Hlists i l' Hl'.
  apply lookup_zip_with_Some in Hl' as (l & d & -> & Hl & Hd).
  destruct (Hlists i l Hl) as [Hnd Hin]. unfold absorb. split.
  - case_bool_decide as Hmem; [done|].
    apply NoDup_app. split; [done|]. split; [|apply NoDup_singleton].
    intros y Hy Hy'. apply list_elem_of_singleton in Hy' as ->. done.
  - intros d'. split.
    + intros Hd'.
      assert (d' ∈ l \/ d' = d) as [Hold| ->].
      { case_bool_decide; [by left|].
        apply elem_of_app in Hd' as [?|?%list_elem_of_singleton]; [by left | by right]. }
      * apply Hin in Hold as (e & He & Hkey & Hde). exists e.
        split; [|done]. apply elem_of_app. by left.
      * exists x. split; [|done]. apply elem_of_app. right. by apply list_elem_of_singleton.
    + intros (e & He & Hkey & Hde). apply elem_of_app in He as [He|He].
      * assert (d' ∈ l) by (apply Hin; by exists e).
        case_bool_decide; [done|]. apply elem_of_app. by left.
      * apply list_elem_of_singleton in He as ->.
        rewrite Hd in Hde. injection Hde as <-.
        case_bool_decide; [done|]. apply elem_of_app. right. by apply list_elem_of_singleton.
Qed.

Lemma options_of_key_fresh (entries : list PathSummary) (x : PathSummary) :
  (forall e, e ∈ entries -> merge_key e <> merge_key x) ->
  options_of_key (entries ++ [x]) (merge_key x) ((fun d => [d]) <$> transfer_details x).
Proof.
  intros Hnew i l Hl. rewrite list_lookup_fmap in Hl.
  destruct (transfer_details x !! i) as [d|] eqn:Hd; [|done]. injection Hl as <-.
  split; [apply NoDup_singleton|].
  intros d'. rewrite list_elem_of_singleton. split.
  - intros ->. exists x. split; [|done]. apply elem_of_app. right.
    by apply list_elem_of_singleton.
  - intros (e & He & Hkey & Hde). apply elem_of_app in He as [He|He].
    + by apply Hnew in He.
    + apply list_elem_of_singleton in He as ->. congruence.
Qed.

Lemma merge_entry_tracks (entries : list PathSummary) (entry : PathSummary)
    (s s' : MergeState) :
  count_matches_details entry ->
  merge_state_ok s ->
  merge_state_tracks entries s ->
  merge_entry entry s = Ok s' ->
  merge_state_tracks (entries ++ [entry]) s'.
Proof.
  intros Hentry Hok [Hordered Hgroups] Hrun.
  rewrite (merge_entry_step _ _ Hentry Hok) in Hrun. injection Hrun as <-.
  destruct Hok as (Hnodup & Hkeys & Hwf).
  assert (Hother : forall key g,
            grouped s !! key = Some g -> key <> merge_key entry ->
            first_with_key (entries ++ [entry]) (base g) /\
            forall lists, transfer_option_lists g = Some lists ->
                          options_of_key (entries ++ [entry]) key lists).
  { intros key g Hg Hne. destruct (Hgroups key g Hg) as [Hfirst Hlists].
    split; [by apply first_with_key_snoc|].
    intros lists Hl. apply options_of_key_other; [by left | by apply Hlists]. }
  destruct (grouped s !! merge_key entry) as [g|] eqn:Hlook.
  - assert (Hseen : merge_key entry ∈ orderedKeys s) by (apply Hkeys; by eexists).
    assert (Hsame : distinct_in_order (merge_key <$> (entries ++ [entry])) = orderedKeys s).
    { rewrite fmap_app. cbn. rewrite distinct_in_order_snoc, <- Hordered.
      unfold Set_add. by rewrite bool_decide_eq_true_2. }
    destruct (Hwf _ _ Hlook) as (Hkey & Hbase & Hlists).
    destruct (Hgroups _ _ Hlook) as [Hfirst Hopts].
    assert (Hcount : transfer_count (base g) = transfer_count entry).
    { unfold merge_key in Hkey. rewrite !transferCount_of_matching in Hkey by done.
      by injection Hkey. }
    destruct (transfer_count entry =? 0) eqn:Hzero.
    + apply Z.eqb_eq in Hzero. split; [done|].
      intros key g' Hg'. destruct (decide (key = merge_key entry)) as [->|Hne];
        [|by apply Hother].
      rewrite Hlook in Hg'. injection Hg' as <-.
      split; [by apply first_with_key_snoc|].
      intros lists Hl. apply options_of_key_other; [|by apply Hopts].
      right. unfold count_matches_details in Hentry.
      destruct (transfer_details entry); [done | cbn in Hentry; lia].
    + apply Z.eqb_neq in Hzero. split; [done|]. cbn.
      intros key g' Hg'. destruct (decide (key = merge_key entry)) as [->|Hne].
      * rewrite lookup_insert_eq in Hg'. injection Hg' as <-. cbn.
        split; [by apply first_with_key_snoc|].
        intros lists [= <-].
        destruct (transfer_option_lists g) as [ls|] eqn:Hls; [|lia].
        destruct Hlists as [Hpos Hheads]. cbn [from_option Datatypes.id].
        destruct (heads_nonempty _ _ Hheads) as [Hlen _].
        apply options_of_key_absorb; [|by apply Hopts].
        unfold count_matches_details in *. lia.
      * rewrite lookup_insert_ne in Hg' by done. by apply Hother.
  - assert (Hnew : merge_key entry ∉ orderedKeys s).
    { rewrite Hkeys, Hlook. by intros [? ?]. }
    assert (Hfresh : forall e, e ∈ entries -> merge_key e <> merge_key entry).
    { intros e He Heq. apply Hnew. rewrite Hordered.
      apply distinct_in_order_spec. rewrite <- Heq. by apply list_elem_of_fmap_2. }
    split; cbn.
    + rewrite fmap_app. cbn. rewrite distinct_in_order_snoc, <- Hordered.
      unfold Set_add. by rewrite bool_decide_eq_false_2.
    + intros key g' Hg'. destruct (decide (key = merge_key entry)) as [->|Hne].
      * rewrite lookup_insert_eq in Hg'. injection Hg' as <-. cbn. split.
        -- exists (length entries). split; [by apply list_lookup_middle|].
           intros j e Hj He. rewrite lookup_app_l in He by done.
           apply Hfresh. by eapply list_elem_of_lookup_2.
        -- intros lists Hl. destruct (0 <? transfer_count entry); [|done].
           injection Hl as <-. by apply options_of_key_fresh.
      * rewrite lookup_insert_ne in Hg' by done. by apply Hother.
Qed.

Lemma merge_loop_tracks (entries : list PathSummary) :
  Forall count_matches_details entries ->
  forall before s,
    merge_state_ok s -> merge_state_tracks before s ->
    exists s', for_of merge_entry entries s = Ok s' /\
               merge_state_ok s' /\ merge_state_tracks (before ++ entries) s'.
Proof.
  induction 1 as [|entry entries Hentry _ IH]; intros before s Hs Ht; cbn.
  - exists s. by rewrite app_nil_r.
  - destruct (merge_entry_ok entry s Hentry Hs) as (s1 & Hrun & Hs1). rewrite Hrun. cbn.
    destruct (IH (before ++ [entry]) s1 Hs1) as (s' & Hloop & Hs' & Ht').
    { exact (merge_entry_tracks before entry s s1 Hentry Hs Ht Hrun). }
    exists s'. rewrite <- app_assoc in Ht'. done.
Qed.

(** The groups of the merge, in the order of their keys, and the records
    made of them. *)
Lemma merge_result (entries : list PathSummary) :
  Forall count_matches_details entries ->
  exists s gs,
    merge_state_ok s /\ merge_state_tracks entries s /\
    Forall2 (fun key g => grouped s !! key = Some g) (orderedKeys s) gs /\
    mergePathsByTrainSequence entries = Ok (finish_group <$> gs).
Proof.
  intros Hentries. unfold mergePathsByTrainSequence.
  destruct (merge_loop_tracks entries Hentries [] (mkMergeState ∅ []))
    as (s & -> & Hok & Htracks).
  { split; [constructor|]. split; [|done]. cbn. intros key.
    rewrite lookup_empty. split; [by intros ?%elem_of_nil | by intros [? ?]]. }
  { split; [done|]. intros key g Hg. cbn in Hg. by rewrite lookup_empty in Hg. }
  cbn.
  destruct (collect_groups s (orderedKeys s)
              ltac:(intros k Hk; by apply (proj1 (proj2 Hok))) [])
    as (gs & Hgs & ->).
  exists s, gs. done.
Qed.

Lemma finish_group_fields (key : MergeKey) (g : Group) :
  group_ok key g ->
  forget_options (finish_group g) = forget_options (base g) /\
  transfer_options (finish_group g)
  = match transfer_option_lists g with
    | Some lists => Some (numbered_options lists)
    | None => transfer_options (base g)
    end.
Proof.
  intros (Hkey & Hbase & Hlists). unfold finish_group.
  destruct (transfer_option_lists g) as [ls|]; [|done].
  destruct Hlists as [Hpos Hheads].
  destruct (heads_kept _ _ Hheads) as [-> ->]. done.
Qed.

Lemma merged_from_group (entries merged : list PathSummary) (m : PathSummary) :
  Forall count_matches_details entries ->
  mergePathsByTrainSequence entries = Ok merged ->
  m ∈ merged ->
  exists s g,
    merge_state_tracks entries s /\
    grouped s !! merge_key m = Some g /\ group_ok (merge_key m) g /\ m = finish_group g.
Proof.
  intros Hentries Hrun Hm.
  destruct (merge_result entries Hentries) as (s & gs & Hok & Htracks & Hgs & Hmerge).
  rewrite Hmerge in Hrun. injection Hrun as <-.
  apply list_elem_of_fmap in Hm as (g & -> & Hg).
  apply list_elem_of_lookup in Hg as [n Hn].
  destruct (Forall2_lookup_r _ _ _ _ _ Hgs Hn) as (key & _ & Hkey).
  pose proof (proj2 (proj2 Hok) _ _ Hkey) as Hgroup.
  destruct (finish_group_ok _ _ Hgroup) as [Hk _].
  exists s, g. rewrite Hk. done.
Qed.

(** The keys of the records of the merge are the distinct keys of the
    entries, in the order of their first occurrence. *)
Lemma merge_keys (entries : list PathSummary) :
  Forall count_matches_details entries ->
  exists merged,
    mergePathsByTrainSequence entries = Ok merged /\
    merge_key <$> merged = distinct_in_order (merge_key <$> entries).
Proof.
  intros Hentries.
  destruct (merge_result entries Hentries) as (s & gs & Hok & [Hordered _] & Hgs & Hmerge).
  exists (finish_group <$> gs). split; [done|].
  rewrite <- Hordered.
  destruct Hok as (_ & _ & Hwf). clear -Hgs Hwf.
  induction Hgs as [|key g keys gs Hg _ IH]; cbn; [done|].
  destruct (finish_group_ok _ _ (Hwf _ _ Hg)) as [-> _]. by rewrite IH.
Qed.

(** X7. On summaries whose [transfer_count] is the length of
    [transfer_details], [mergePathsByTrainSequence] returns one record
    for each distinct grouping key, in the order in which the keys first
    occur: no two records share a key, every entry finds the record of
    its key, and there are never more records than entries. *)
Theorem merge_keeps_one_record_per_key (entries : list PathSummary) :
  Forall count_matches_details entries ->
  exists merged,
    mergePathsByTrainSequence entries = Ok merged /\
    merge_key <$> merged = distinct_in_order (merge_key <$> entries) /\
    NoDup (merge_key <$> merged) /\
    (forall e, e ∈ entries -> exists m, m ∈ merged /\ merge_key m = merge_key e) /\
    (length merged <= length entries)%nat.
Proof.
  intros Hentries.
  destruct (merge_keys entries Hentries) as (merged & Hrun & Hkeys).
  exists merged. split; [done|]. split; [done|].
  destruct (distinct_in_order_spec (merge_key <$> entries)) as (Hnd & Hin & Hsub).
  rewrite Hkeys. split; [done|]. split.
  - intros e He.
    assert (Hk : merge_key e ∈ merge_key <$> merged).
    { rewrite Hkeys. apply Hin. by apply list_elem_of_fmap_2. }
    apply list_elem_of_fmap in Hk as (m & Hm & Hk). by exists m.
  - apply sublist_length in Hsub. rewrite <- Hkeys, !length_fmap in Hsub. done.
Qed.

Lemma merge_keeps_one_record_per_key_witness :
  Forall count_matches_details two_ways /\
  exists merged,
    mergePathsByTrainSequence two_ways = Ok merged /\
    length merged = 1%nat /\
    merge_key <$> merged = distinct_in_order (merge_key <$> two_ways) /\
    NoDup (merge_key <$> merged).
Proof.
  assert (Hwf : Forall count_matches_details two_ways) by (repeat constructor).
  split; [exact Hwf|].
  destruct (merge_keeps_one_record_per_key two_ways Hwf) as (merged & Hrun & Hkeys & Hnd & _).
  exists merged. split; [exact Hrun|]. split; [|split; [exact Hkeys | exact Hnd]].
  assert (Hval : mergePathsByTrainSequence two_ways
                 = Ok [set_options [mkTransferOption 1 [change_at_Y; change_at_W]]
                         [change_at_Y] (via change_at_Y 1)])
    by (vm_compute; reflexivity).
  rewrite Hval in Hrun. by injection Hrun as <-.
Defined.

(** X8. Every record returned by the merge is the first entry of its key
    as it stands, but for [transfer_options]: the id, the trains, the
    times, the duration and the transfer details are those of that
    entry; a record without a transfer is that entry unchanged. *)
Theorem merge_keeps_the_first_entry (entries merged : list PathSummary) (m : PathSummary) :
  Forall count_matches_details entries ->
  mergePathsByTrainSequence entries = Ok merged ->
  m ∈ merged ->
  exists e,
    first_with_key entries e /\
    merge_key e = merge_key m /\
    forget_options m = forget_options e /\
    (transfer_count m = 0 -> m = e).
Proof.
  intros Hentries Hrun Hm.
  destruct (merged_from_group _ _ _ Hentries Hrun Hm)
    as (s & g & [_ Htracks] & Hg & Hgroup & ->).
  destruct (Htracks _ _ Hg) as [Hfirst _].
  destruct (finish_group_fields _ _ Hgroup) as [Hforget _].
  exists (base g). split; [done|]. split; [by destruct Hgroup|]. split; [done|].
  intros Hzero.
  assert (Hcount : transfer_count (finish_group g) = transfer_count (base g)).
  { by apply (f_equal transfer_count) in Hforget. }
  destruct Hgroup as (_ & _ & Hlists). unfold finish_group.
  destruct (transfer_option_lists g); [lia | done].
Qed.

Lemma merge_keeps_the_first_entry_witness :
  Forall count_matches_details two_ways /\
  exists merged m,
    mergePathsByTrainSequence two_ways = Ok merged /\
    m ∈ merged /\
    exists e, first_with_key two_ways e /\ e = via change_at_Y 1 /\
              forget_options m = forget_options e.
Proof.
  assert (Hwf : Forall count_matches_details two_ways) by (repeat constructor).
  split; [exact Hwf|].
  eassert (Hrun : mergePathsByTrainSequence two_ways = Ok [_])
    by (vm_compute; reflexivity).
  eexists _, _. split; [exact Hrun|]. split; [apply list_elem_of_here|].
  destruct (merge_keeps_the_first_entry two_ways _ _ Hwf Hrun (list_elem_of_here _ _))
    as (e & Hfirst & Hkey & Hforget & _).
  exists e. split; [exact Hfirst|]. split; [|exact Hforget].
  destruct Hfirst as (i & Hi & Hbefore).
  destruct i as [|[|i]]; cbn in Hi; [by injection Hi | | done].
  injection Hi as <-. by destruct (Hbefore 0%nat (via change_at_Y 1) ltac:(lia) eq_refl).
Defined.

(** X9. On summaries whose [transfer_count] is the length of
    [transfer_details], a record of the merge with a transfer lists, for
    the step of each of its transfers, the alternatives of the
    itineraries it stands for: the options of step [i + 1] are, without
    repetition, exactly the [i]-th transfer details of the entries of its
    key, the one of the record itself first. *)
Theorem merge_collects_the_alternatives (entries merged : list PathSummary) (m : PathSummary) :
  Forall count_matches_details entries ->
  mergePathsByTrainSequence entries = Ok merged ->
  m ∈ merged ->
  0 < transfer_count m ->
  exists opts,
    transfer_options m = Some opts /\
    length opts = length (transfer_details m) /\
    forall (i : nat) o, opts !! i = Some o ->
      step o = Z.of_nat i + 1 /\
      NoDup (options o) /\
      head (options o) = transfer_details m !! i /\
      forall d, d ∈ options o <->
                exists e, e ∈ entries /\ merge_key e = merge_key m /\
                          transfer_details e !! i = Some d.
Proof.
  intros Hentries Hrun Hm Hpos.
  destruct (merged_from_group _ _ _ Hentries Hrun Hm)
    as (s & g & [_ Htracks] & Hg & Hgroup & ->).
  destruct (Htracks _ _ Hg) as [_ Hopts].
  destruct (finish_group_fields _ _ Hgroup) as [Hforget Hoptions].
  assert (Hcount : transfer_count (finish_group g) = transfer_count (base g)).
  { by apply (f_equal transfer_count) in Hforget. }
  assert (Hdetails : transfer_details (finish_group g) = transfer_details (base g)).
  { by apply (f_equal transfer_details) in Hforget. }
  destruct Hgroup as (_ & _ & Hlists).
  destruct (transfer_option_lists g) as [ls|]; [|lia].
  destruct Hlists as [_ Hheads].
  destruct (heads_nonempty _ _ Hheads) as [Hlen _].
  exists (numbered_options ls). split; [done|].
  unfold numbered_options. rewrite length_imap, Hdetails. split; [done|].
  intros i o Ho. rewrite list_lookup_imap in Ho.
  destruct (ls !! i) as [l|] eqn:Hl; [|done]. injection Ho as <-. cbn.
  destruct (Hopts ls eq_refl i l Hl) as [Hnd Hin].
  split; [done|]. split; [done|]. split; [|done].
  apply (f_equal (fun x => x !! i)) in Hheads.
  rewrite !list_lookup_fmap, Hl in Hheads. cbn in Hheads.
  destruct (transfer_details (base g) !! i); [|done]. cbn in Hheads. by injection Hheads.
Qed.

Lemma merge_collects_the_alternatives_witness :
  Forall count_matches_details two_ways /\
  exists merged m,
    mergePathsByTrainSequence two_ways = Ok merged /\
    m ∈ merged /\
    0 < transfer_count m /\
    transfer_options m = Some [mkTransferOption 1 [change_at_Y; change_at_W]] /\
    exists opts,
      transfer_options m = Some opts /\
      length opts = length (transfer_details m) /\
      forall (i : nat) o, opts !! i = Some o ->
        step o = Z.of_nat i + 1 /\
        NoDup (options o) /\
        head (options o) = transfer_details m !! i /\
        forall d, d ∈ options o <->
                  exists e, e ∈ two_ways /\ merge_key e = merge_key m /\
                            transfer_details e !! i = Some d.
Proof.
  assert (Hwf : Forall count_matches_details two_ways) by (repeat constructor).
  split; [exact Hwf|].
  eassert (Hrun : mergePathsByTrainSequence two_ways = Ok [_])
    by (vm_compute; reflexivity).
  eexists _, _. split; [exact Hrun|]. split; [apply list_elem_of_here|].
  split; [reflexivity|]. split; [reflexivity|].
  exact (merge_collects_the_alternatives two_ways _ _ Hwf Hrun (list_elem_of_here _ _)
           eq_refl).
Defined.

Lemma push_option_past_the_end (details : list TransferDetail) :
  forall (idx : nat) (lists : list (list TransferDetail)),
    (idx <= length lists)%nat ->
    (length lists < idx + length details)%nat ->
    for_entries push_option idx details lists = Err TypeError.
Proof.
  induction details as [|d details IH]; intros idx lists Hidx Hlen; cbn in *; [lia|].
  unfold push_option at 1.
  destruct (lists !! idx) as [l|] eqn:Hl; [|done]. cbn.
  apply lookup_lt_Some in Hl.
  apply IH; rewrite length_insert; lia.
Qed.

(** X10. The merge throws a [TypeError] when the first summary it is
    given has a positive [transfer_count] and more transfer details than
    that: the list of options of the surplus detail does not exist. *)
Theorem merge_throws_on_surplus_details (entry : PathSummary) (rest : list PathSummary) :
  0 < transfer_count entry ->
  transfer_count entry < Z.of_nat (length (transfer_details entry)) ->
  mergePathsByTrainSequence (entry :: rest) = Err TypeError.
Proof.
  intros Hpos Hmore. unfold mergePathsByTrainSequence. cbn [for_of].
  unfold merge_entry at 1. cbn [grouped]. rewrite lookup_empty.
  assert (Hcount : transferCount_of entry = transfer_count entry).
  { unfold transferCount_of. destruct (transfer_count entry =? 0) eqn:E; [|done].
    apply Z.eqb_eq in E. lia. }
  rewrite Hcount, (proj2 (Z.ltb_lt _ _) Hpos).
  rewrite push_option_past_the_end; [done | lia |].
  unfold empty_lists. rewrite length_replicate. lia.
Qed.

Lemma merge_throws_on_surplus_details_witness :
  0 < 1 /\
  1 < Z.of_nat (length [change_at_Y; change_at_W]) /\
  mergePathsByTrainSequence
    [mkPath None "Transfer" ["T1"; "T2"] [change_at_Y; change_at_W]
       "08:00" "09:10" "1h 10m" 70 false 1 None] = Err TypeError.
Proof.
  split; [lia|]. split; [cbn; lia|].
  apply (merge_throws_on_surplus_details
           (mkPath None "Transfer" ["T1"; "T2"] [change_at_Y; change_at_W]
              "08:00" "09:10" "1h 10m" 70 false 1 None) []); cbn; lia.
Defined.

(** ** More on the window filter *)

Lemma Math_min_is (x : Z) (xs : list Z) (m : Z) :
  m ∈ x :: xs -> (forall y, y ∈ x :: xs -> m <= y) -> JS.Math_min x xs = m.
Proof.
  intros Hm Hlow.
  pose proof (Math_min_lower x xs m Hm). pose proof (Hlow _ (Math_min_attained x xs)). lia.
Qed.

Lemma filter_sublist {A} (f : A -> bool) (l : list A) : sublist (List.filter f l) l.
Proof.
  induction l as [|x l IH]; cbn; [done|].
  destruct (f x); [by apply sublist_skip | by apply sublist_cons].
Qed.

Lemma filter_all {A} (f : A -> bool) (l : list A) :
  (forall x, x ∈ l -> f x = true) -> List.filter f l = l.
Proof.
  induction l as [|x l IH]; intros Hall; cbn; [done|].
  rewrite (Hall x) by (by left). f_equal. apply IH. intros y Hy. apply Hall. by right.
Qed.

Lemma filter_elem {A} (f : A -> bool) (l : list A) (x : A) :
  x ∈ List.filter f l <-> x ∈ l /\ f x = true.
Proof. by rewrite !list_elem_of_In, filter_In. Qed.

(** X11. The window filter never drops a fastest itinerary, so that it
    returns a non-empty list for a non-empty one; it keeps the order of
    the itineraries; filtering its result again changes nothing; and a
    wider window keeps at least the same itineraries. Of an empty list
    it returns the empty list and the fastest time 0. *)
Theorem window_filter_keeps_the_fastest (paths : list PathSummary) (windowMinutes : Z) :
  filterPathsByTimeWindow [] windowMinutes = ([], 0) /\
  (paths <> [] ->
   let kept := (filterPathsByTimeWindow paths windowMinutes).1 in
   let fastest := (filterPathsByTimeWindow paths windowMinutes).2 in
   (exists p, p ∈ kept /\ total_minutes p = fastest) /\
   sublist kept paths /\
   filterPathsByTimeWindow kept windowMinutes = (kept, fastest) /\
   forall wider, windowMinutes <= wider ->
     forall p, p ∈ kept -> p ∈ (filterPathsByTimeWindow paths wider).1).
Proof.
  split; [done|]. intros Hne.
  destruct paths as [|p0 ps]; [done|]. cbn zeta.
  pose (fastest := JS.Math_min (total_minutes p0) (total_minutes <$> ps)).
  pose (keep := fun p : PathSummary => total_minutes p <=? fastest + Z.max windowMinutes 0).
  change (filterPathsByTimeWindow (p0 :: ps) windowMinutes)
    with (List.filter keep (p0 :: ps), fastest).
  cbn [fst snd].
  assert (Hlow : forall p, p ∈ p0 :: ps -> fastest <= total_minutes p).
  { intros p Hp. apply Math_min_lower.
    change (total_minutes p ∈ total_minutes <$> (p0 :: ps)). by apply list_elem_of_fmap_2. }
  assert (Hfast : exists p, p ∈ List.filter keep (p0 :: ps) /\ total_minutes p = fastest).
  { pose proof (Math_min_attained (total_minutes p0) (total_minutes <$> ps)) as Hat.
    change (fastest ∈ total_minutes <$> (p0 :: ps)) in Hat.
    apply list_elem_of_fmap in Hat as (p & Hp & Hin). exists p. split; [|done].
    apply filter_elem. split; [done|]. unfold keep. apply Z.leb_le. lia. }
  split; [done|]. split; [apply filter_sublist|]. split.
  - destruct Hfast as (pf & Hpf & Htot).
    destruct (List.filter keep (p0 :: ps)) as [|k0 ks] eqn:Hkept;
      [by apply elem_of_nil in Hpf|].
    unfold filterPathsByTimeWindow.
    assert (Hmin : JS.Math_min (total_minutes k0) (total_minutes <$> ks) = fastest).
    { apply Math_min_is.
      - change (fastest ∈ total_minutes <$> (k0 :: ks)). rewrite <- Htot.
        by apply list_elem_of_fmap_2.
      - intros y Hy. change (y ∈ total_minutes <$> (k0 :: ks)) in Hy.
        apply list_elem_of_fmap in Hy as (q & -> & Hq).
        rewrite <- Hkept in Hq. apply filter_elem in Hq as [Hq _]. by apply Hlow. }
    rewrite Hmin. fold keep. f_equal. apply filter_all.
    intros q Hq. rewrite <- Hkept in Hq. by apply filter_elem in Hq as [_ Hq].
  - intros wider Hwider p Hp.
    change (filterPathsByTimeWindow (p0 :: ps) wider)
      with (List.filter (fun p : PathSummary => total_minutes p <=? fastest + Z.max wider 0)
              (p0 :: ps), fastest).
    cbn [fst].
    apply filter_elem in Hp as [Hp Hkeep]. apply filter_elem. split; [done|].
    unfold keep in Hkeep. apply Z.leb_le in Hkeep. apply Z.leb_le. lia.
Qed.

Lemma window_filter_keeps_the_fastest_witness :
  three_durations <> [] /\
  (filterPathsByTimeWindow three_durations 0).1 = [lasting 60] /\
  (exists p, p ∈ (filterPathsByTimeWindow three_durations 0).1 /\
             total_minutes p = (filterPathsByTimeWindow three_durations 0).2) /\
  filterPathsByTimeWindow (filterPathsByTimeWindow three_durations 0).1 0
  = ((filterPathsByTimeWindow three_durations 0).1,
     (filterPathsByTimeWindow three_durations 0).2).
Proof.
  assert (Hne : three_durations <> []) by done.
  split; [exact Hne|]. split; [reflexivity|].
  destruct (window_filter_keeps_the_fastest three_durations 0) as [_ H].
  destruct (H Hne) as (Hfast & _ & Hagain & _).
  split; [exact Hfast | exact Hagain].
Defined.

(** ** The configuration *)

Lemma parseInt_or_nonzero (v : option string) (d : Z) :
  d <> 0 -> Config.parseInt_or v d <> 0.
Proof.
  intros Hd. unfold Config.parseInt_or.
  destruct (v ≫= JS.parseInt) as [n|]; [|done].
  destruct (n =? 0) eqn:E; [done|]. by apply Z.eqb_neq in E.
Qed.

(** X12. The defaults of a process that started are within the bounds
    of the request validation and never zero: [maxTransfers] lies
    between 1 and 5 and [timeWindowMinutes] between 1 and 480, since a
    variable that reads as 0 or as no number gives way to 2 and 90; and
    consecutive transfers at one station are allowed by default for the
    value [true] only. *)
Theorem started_configuration_is_in_bounds (env : Config.Env) (config : Config.Algorithm) :
  Config.load env = Some config ->
  1 <= Config.maxTransfers config <= 5 /\
  1 <= Config.timeWindowMinutes config <= 480 /\
  (Config.MAX_TRANSFERS env = None -> Config.maxTransfers config = 2) /\
  (Config.TIME_WINDOW_MINUTES env = None -> Config.timeWindowMinutes config = 90) /\
  (Config.allowSameStationTransfers config = true <->
   Config.ALLOW_SAME_STATION_TRANSFERS env = Some "true").
Proof.
  unfold Config.load. destruct (Config.validateConfig _) eqn:Hvalid; [|done].
  intros [= <-]. unfold Config.validateConfig in Hvalid.
  apply andb_true_iff in Hvalid as [Ht Hw].
  apply negb_true_iff, orb_false_iff in Ht as [Ht1 Ht2].
  apply negb_true_iff, orb_false_iff in Hw as [Hw1 Hw2].
  apply Z.ltb_ge in Ht1, Ht2, Hw1, Hw2.
  unfold Config.validation.maxTransfers, Config.validation.maxTimeWindowMinutes in *.
  cbn [Config.algorithm Config.maxTransfers Config.timeWindowMinutes
       Config.allowSameStationTransfers] in *.
  pose proof (parseInt_or_nonzero (Config.MAX_TRANSFERS env) 2 ltac:(done)).
  pose proof (parseInt_or_nonzero (Config.TIME_WINDOW_MINUTES env) 90 ltac:(done)).
  split; [lia|]. split; [lia|]. split; [by intros ->|]. split; [by intros ->|].
  apply bool_decide_eq_true.
Qed.

Lemma started_configuration_is_in_bounds_witness :
  Config.load (Config.mkEnv (Some "0") (Some "abc") (Some "TRUE"))
  = Some (Config.mkAlgorithm 2 90 false) /\
  1 <= 2 <= 5 /\ 1 <= 90 <= 480.
Proof.
  split; [reflexivity|].
  destruct (started_configuration_is_in_bounds
              (Config.mkEnv (Some "0") (Some "abc") (Some "TRUE"))
              (Config.mkAlgorithm 2 90 false) eq_refl) as (H1 & H2 & _).
  split; [exact H1 | exact H2].
Defined.

(** ** The replies of [POST /find] *)

(** X15. The route [POST /find], which is the validation middleware
    followed by the handler, answers a body whose numbers are safe
    integers with 400 or 500 and nothing else: 400 exactly when
    the validation refuses the body, and 500 to every body that the
    validation passes on, whatever data are loaded, because the handler
    calls [require] before anything else. No request is answered with
    the itineraries (200) or with 503. *)
Theorem find_status_codes
    (localeCompare : string -> string -> Z)
    (loaded reload : option Snapshot) (now : string) (body : Body) :
  safe_numbers body ->
  let response := post_find localeCompare loaded reload now body in
  (status_of response = Some 400 \/ status_of response = Some 500) /\
  (status_of response = Some 400 <-> ~ accepted (validatePathfindingRequest body)) /\
  (accepted (validatePathfindingRequest body) ->
   response = Failed 500 "Internal Server Error") /\
  (forall reply, response <> Answered reply) /\
  status_of response <> Some 200 /\
  status_of response <> Some 503.
Proof.
  intros Hdec. cbn zeta.
  destruct (validatePathfindingRequest body) as [r|v] eqn:Hv.
  - rewrite (post_find_rejected _ _ _ _ _ _ Hv).
    apply (safe_rejections_are_400 body r Hdec) in Hv as (message & field & -> & _).
    cbn. repeat split; try done; try tauto.
  - rewrite (post_find_accepted _ _ _ _ _ _ Hv). cbn.
    repeat split; try done; try tauto.
Qed.

Lemma find_status_codes_witness :
  safe_numbers three_transfers_request /\
  accepted (validatePathfindingRequest three_transfers_request) /\
  post_find compare_code_units (Some one_transfer_snapshot) None "" three_transfers_request
  = Failed 500 "Internal Server Error" /\
  safe_numbers six_transfers_request /\
  status_of (post_find compare_code_units (Some one_transfer_snapshot) None ""
               six_transfers_request) = Some 400.
Proof.
  assert (Hthree : safe_numbers three_transfers_request).
  { split; intros n [= <-]. reflexivity. }
  assert (Hsix : safe_numbers six_transfers_request).
  { split; intros n [= <-]. reflexivity. }
  assert (Hv : validatePathfindingRequest three_transfers_request
               = inr (mkValidBody "X" "Z" (Some 3) None None))
    by (vm_compute; reflexivity).
  assert (Hacc : accepted (validatePathfindingRequest three_transfers_request))
    by (by rewrite Hv).
  split; [exact Hthree|]. split; [exact Hacc|].
  split.
  { destruct (find_status_codes compare_code_units (Some one_transfer_snapshot) None ""
                three_transfers_request Hthree) as (_ & _ & H500 & _).
    exact (H500 Hacc). }
  split; [exact Hsix|].
  destruct (find_status_codes compare_code_units (Some one_transfer_snapshot) None ""
              six_transfers_request Hsix) as (_ & H400 & _).
  apply H400.
  assert (Hr : exists r, validatePathfindingRequest six_transfers_request = inl r)
    by (eexists; vm_compute; reflexivity).
  destruct Hr as [r Hr]. rewrite Hr. exact (fun H => H).
Defined.

(** ** The request validation *)

Lemma trimStart_list_clean (cs : list ascii) : starts_clean (JS.trimStart_list cs).
Proof.
  induction cs as [|c cs IH]; cbn; [done|].
  destruct (JS.is_white c) eqn:Hc; [done|]. cbn. done.
Qed.

Lemma trimStart_list_id (cs : list ascii) : starts_clean cs -> JS.trimStart_list cs = cs.
Proof. destruct cs as [|c cs]; cbn; [done|]. by intros ->. Qed.

Lemma trimStart_list_suffix (cs : list ascii) :
  exists white, cs = white ++ JS.trimStart_list cs.
Proof.
  induction cs as [|c cs [white IH]]; cbn; [by exists []|].
  destruct (JS.is_white c); [|by exists []].
  exists (c :: white). cbn. by f_equal.
Qed.

Lemma starts_clean_prefix (a x y : list ascii) :
  starts_clean a -> a = x ++ y -> starts_clean x.
Proof. intros Ha ->. by destruct x. Qed.

Lemma trim_list_idempotent (cs : list ascii) :
  JS.trim_list (JS.trim_list cs) = JS.trim_list cs.
Proof.
  unfold JS.trim_list.
  set (a := JS.trimStart_list cs).
  set (b := JS.trimStart_list (rev a)).
  assert (Hb : starts_clean b) by apply trimStart_list_clean.
  assert (Hrev : starts_clean (rev b)).
  { destruct (trimStart_list_suffix (rev a)) as [white Hw]. fold b in Hw.
    apply (f_equal (@rev ascii)) in Hw. rewrite rev_involutive, rev_app_distr in Hw.
    eapply starts_clean_prefix; [apply (trimStart_list_clean cs) | exact Hw]. }
  rewrite (trimStart_list_id _ Hrev), rev_involutive.
  by rewrite (trimStart_list_id _ Hb).
Qed.

Lemma trim_idempotent (s : string) : JS.trim (JS.trim s) = JS.trim s.
Proof.
  unfold JS.trim. rewrite String.list_ascii_of_string_of_list_ascii.
  by rewrite trim_list_idempotent.
Qed.

Lemma trimStart_list_length (cs : list ascii) :
  (length (JS.trimStart_list cs) <= length cs)%nat.
Proof.
  induction cs as [|c cs IH]; cbn; [done|]. destruct (JS.is_white c); cbn; lia.
Qed.

Lemma string_length_list (s : string) :
  String.length s = length (String.list_ascii_of_string s).
Proof. induction s as [|c s IH]; cbn; [done | by rewrite IH]. Qed.

Lemma trim_length (s : string) : (String.length (JS.trim s) <= String.length s)%nat.
Proof.
  unfold JS.trim. rewrite !string_length_list, String.list_ascii_of_string_of_list_ascii.
  unfold JS.trim_list. rewrite length_rev.
  etransitivity; [apply trimStart_list_length|]. rewrite length_rev.
  apply trimStart_list_length.
Qed.

(** The no-break space is white space: a name that ends in it is
    trimmed, and the middleware refuses it beside the name it is trimmed
    to. *)
Example no_break_space_is_trimmed :
  JS.trim (String "X" (String (Ascii.ascii_of_nat 160) "")) = "X" /\
  validatePathfindingRequest
    (mkBody (Some (String "X" (String (Ascii.ascii_of_nat 160) ""))) (Some "X")
       None None None)
  = inl (bad_request "start_station and end_station must be different" "end_station").
Proof. split; vm_compute; reflexivity. Qed.

(** The model does not follow a number beyond the safe integers. *)
Example large_number_is_not_followed :
  validatePathfindingRequest (mkBody (Some "X") (Some "Z") (Some (10 ^ 21)) None None)
  = inl Unfollowed.
Proof. vm_compute. reflexivity. Qed.

(** What the middleware has checked of a body that it passes on. *)
Lemma accepted_body (body : Body) (v : ValidBody) :
  validatePathfindingRequest body = inr v ->
  exists s e,
    start_station body = Some s /\ end_station body = Some e /\
    bad_length s = false /\ bad_length e = false /\
    JS.trim s <> JS.trim e /\
    out_of_range (max_transfers body) Config.validation.maxTransfers = Some false /\
    out_of_range (window_minutes body) Config.validation.maxTimeWindowMinutes = Some false /\
    v = mkValidBody (JS.trim s) (JS.trim e) (max_transfers body) (window_minutes body)
          (allow_same_station_consecutive_transfers body).
Proof.
  unfold validatePathfindingRequest. intros Hv.
  destruct (start_station body) as [s|]; [|done].
  destruct (end_station body) as [e|]; [|by destruct s].
  exists s, e.
  destruct s as [|c s]; [done|]. destruct e as [|c' e]; [done|].
  destruct (bad_length (String c s)); [done|].
  destruct (bad_length (String c' e)); [done|].
  case_bool_decide as Hdiff; [done|].
  destruct (out_of_range (max_transfers body) _) as [[]|]; try done.
  destruct (out_of_range (window_minutes body) _) as [[]|]; try done.
  by injection Hv as <-.
Qed.

(** X16. On a body whose numbers are safe integers,
    [validatePathfindingRequest] either answers 400 [Bad Request], naming
    one of the four fields it checks, or hands on a body whose two
    station names are the trimmed names of the request: they differ,
    trimming them again changes nothing, each is at most 50 characters
    long and comes from a name of 1 to 50 characters, and the numbers it
    carries are within 0 to 5 transfers and 0 to 480 minutes. *)
Theorem validation_refuses_or_cleans (body : Body) :
  safe_numbers body ->
  match validatePathfindingRequest body with
  | inl response =>
      exists message field,
        response = Rejected 400 "Bad Request" message (Some field) /\
        field ∈ ["start_station"; "end_station"; "max_transfers"; "window_minutes"]
  | inr v =>
      (exists s e,
         start_station body = Some s /\ end_station body = Some e /\
         v_start_station v = JS.trim s /\ v_end_station v = JS.trim e /\
         (1 <= String.length s <= 50)%nat /\ (1 <= String.length e <= 50)%nat) /\
      v_start_station v <> v_end_station v /\
      JS.trim (v_start_station v) = v_start_station v /\
      JS.trim (v_end_station v) = v_end_station v /\
      (String.length (v_start_station v) <= 50)%nat /\
      (String.length (v_end_station v) <= 50)%nat /\
      (forall m, v_max_transfers v = Some m -> 0 <= m <= 5) /\
      (forall w, v_window_minutes v = Some w -> 0 <= w <= 480)
  end.
Proof.
  intros Hdec.
  destruct (validatePathfindingRequest body) as [r|v] eqn:Hv;
    [by apply (safe_rejections_are_400 body)|].
  destruct (accepted_body body v Hv) as (s & e & Hs & He & Hls & Hle & Hdiff & Hm & Hw & ->).
  destruct Hdec as [Hdm Hdw].
  rewrite (out_of_range_safe _ _ Hdm) in Hm.
  rewrite (out_of_range_safe _ _ Hdw) in Hw.
  cbn.
  unfold bad_length, Config.validation.minStationNameLength,
    Config.validation.maxStationNameLength in Hls, Hle.
  apply orb_false_iff in Hls as [Hs1 Hs2]. apply orb_false_iff in Hle as [He1 He2].
  apply Z.ltb_ge in Hs1, Hs2, He1, He2.
  pose proof (trim_length s). pose proof (trim_length e).
  split; [exists s, e; repeat split; (done || lia)|].
  split; [done|]. split; [apply trim_idempotent|]. split; [apply trim_idempotent|].
  split; [lia|]. split; [lia|]. split.
  - intros m Hmax. rewrite Hmax in Hm. injection Hm as Hm.
    apply orb_false_iff in Hm as [H1 H2].
    apply Z.ltb_ge in H1, H2. unfold Config.validation.maxTransfers in H2. lia.
  - intros w Hwin. rewrite Hwin in Hw. injection Hw as Hw.
    apply orb_false_iff in Hw as [H1 H2].
    apply Z.ltb_ge in H1, H2. unfold Config.validation.maxTimeWindowMinutes in H2. lia.
Qed.

Lemma validation_refuses_or_cleans_witness :
  safe_numbers padded_request /\
  validatePathfindingRequest padded_request
  = inr (mkValidBody "X" "Z" (Some 3) (Some 60) None) /\
  exists v,
    validatePathfindingRequest padded_request = inr v /\
    JS.trim (v_start_station v) = v_start_station v /\
    (forall m, v_max_transfers v = Some m -> 0 <= m <= 5) /\
    (forall w, v_window_minutes v = Some w -> 0 <= w <= 480).
Proof.
  assert (Hdec : safe_numbers padded_request).
  { split; intros n [= <-]; reflexivity. }
  assert (Hv : validatePathfindingRequest padded_request
               = inr (mkValidBody "X" "Z" (Some 3) (Some 60) None))
    by (vm_compute; reflexivity).
  split; [exact Hdec|]. split; [exact Hv|].
  pose proof (validation_refuses_or_cleans padded_request Hdec) as H.
  rewrite Hv in H. destruct H as (_ & _ & Htrim & _ & _ & _ & Hm & Hw).
  eexists. split; [exact Hv|]. split; [exact Htrim|]. split; [exact Hm | exact Hw].
Defined.

(** ** The adjacency list built from the graph file *)

Lemma nodeLookup_of_snoc (nodes : list Node) (node : Node) :
  nodeLookup_of (nodes ++ [node]) = <[node := length nodes]> (nodeLookup_of nodes).
Proof.
  unfold nodeLookup_of. rewrite imap_app, foldl_app. cbn. by rewrite Nat.add_0_r.
Qed.

Lemma nodeLookup_of_spec (nodes : list Node) (node : Node) (i : nat) :
  nodeLookup_of nodes !! node = Some i <-> last_index_of nodes node i.
Proof.
  unfold last_index_of.
  induction nodes as [|x nodes IH] using rev_ind.
  { unfold nodeLookup_of. cbn. rewrite lookup_empty. split; [done | by intros [? _]]. }
  rewrite nodeLookup_of_snoc.
  destruct (decide (x = node)) as [->|Hne].
  - rewrite lookup_insert_eq. split.
    + intros [= <-]. split; [by apply list_lookup_middle|].
      intros j Hj Hlook. apply lookup_lt_Some in Hlook. rewrite length_app in Hlook.
      cbn in Hlook. lia.
    + intros [Hi Hlast]. f_equal.
      pose proof (lookup_lt_Some _ _ _ Hi) as Hlt. rewrite length_app in Hlt. cbn in Hlt.
      destruct (decide (i = length nodes)) as [->|Hi']; [done|].
      exfalso. apply (Hlast (length nodes)); [lia|]. by apply list_lookup_middle.
  - rewrite lookup_insert_ne by done. rewrite IH. split.
    + intros [Hi Hlast]. pose proof (lookup_lt_Some _ _ _ Hi) as Hlt. split.
      * by rewrite lookup_app_l.
      * intros j Hj Hlook. apply lookup_snoc_Some in Hlook as [[_ Hlook]|[_ Hx]];
          [by eapply Hlast | done].
    + intros [Hi Hlast].
      apply lookup_snoc_Some in Hi as [[Hlt Hi]|[_ Hx]]; [|done].
      split; [done|]. intros j Hj Hlook. apply (Hlast j Hj).
      rewrite lookup_app_l; [done|]. by eapply lookup_lt_Some.
Qed.

Lemma empty_adjacency_lookup (n i : nat) :
  empty_adjacency n !! i = if decide (i < n)%nat then Some [] else None.
Proof.
  unfold empty_adjacency. induction n as [|n IH].
  { cbn. rewrite lookup_empty. by destruct (decide (i < 0)%nat); [lia|]. }
  rewrite seq_S, foldl_app. cbn.
  destruct (decide (i = n)) as [->|Hne].
  - rewrite lookup_insert_eq. by destruct (decide (n < S n)%nat); [|lia].
  - rewrite lookup_insert_ne by done. rewrite IH.
    destruct (decide (i < n)%nat), (decide (i < S n)%nat); (done || lia).
Qed.

(** The adjacency list after the edges [before] of the file. *)
Lemma add_edges (nodes : list Node) (edges : list GraphEdge) :
  forall (before : list GraphEdge) (adjacency : gmap nat (list Edge)),
    (forall i : nat,
       adjacency !! i
       = if decide (i < length nodes)%nat
         then Some (omap (entry_for (nodeLookup_of nodes) i) before) else None) ->
    exists adjacency',
      for_of (add_edge (nodeLookup_of nodes)) edges adjacency = Ok adjacency' /\
      forall i : nat,
        adjacency' !! i
        = if decide (i < length nodes)%nat
          then Some (omap (entry_for (nodeLookup_of nodes) i) (before ++ edges)) else None.
Proof.
  induction edges as [|edge edges IH]; intros before adjacency Hinv; cbn [for_of].
  { exists adjacency. by rewrite app_nil_r. }
  assert (Hstep : exists adjacency1,
    add_edge (nodeLookup_of nodes) edge adjacency = Ok adjacency1 /\
    forall i : nat,
      adjacency1 !! i
      = if decide (i < length nodes)%nat
        then Some (omap (entry_for (nodeLookup_of nodes) i) (before ++ [edge])) else None).
  { unfold add_edge.
    assert (Hsame : forall i : nat,
              entry_for (nodeLookup_of nodes) i edge = None ->
              adjacency !! i
              = if decide (i < length nodes)%nat
                then Some (omap (entry_for (nodeLookup_of nodes) i) (before ++ [edge]))
                else None).
    { intros i Hnone. rewrite Hinv, omap_app. cbn. rewrite Hnone. by rewrite app_nil_r. }
    destruct (nodeLookup_of nodes !! g_from edge) as [fromIdx|] eqn:Hfrom.
    2: { exists adjacency. split; [done|]. intros i. apply Hsame.
         unfold entry_for. by rewrite Hfrom. }
    destruct (nodeLookup_of nodes !! g_to edge) as [toIdx|] eqn:Hto.
    2: { exists adjacency. split; [done|]. intros i. apply Hsame.
         unfold entry_for. by rewrite Hfrom, Hto. }
    cbn zeta.
    set (duration := number_or (g_weight edge) (number_or (g_segment_travel_time edge) 0)).
    destruct (duration <=? 0) eqn:Hdur.
    { exists adjacency. split; [done|]. intros i. apply Hsame.
      unfold entry_for. rewrite Hfrom, Hto. cbn zeta. fold duration.
      apply Z.leb_le in Hdur. rewrite (proj2 (Z.ltb_ge 0 duration)) by lia.
      by rewrite andb_false_r. }
    apply Z.leb_gt in Hdur.
    assert (Hlt : (fromIdx < length nodes)%nat).
    { apply nodeLookup_of_spec in Hfrom as [Hfrom _]. by eapply lookup_lt_Some. }
    rewrite (Hinv fromIdx). destruct (decide (fromIdx < length nodes)%nat); [|lia].
    eexists. split; [done|]. intros i.
    destruct (decide (i = fromIdx)) as [->|Hne].
    - rewrite lookup_insert_eq. destruct (decide (fromIdx < length nodes)%nat); [|lia].
      rewrite omap_app. cbn. unfold entry_for at 3. rewrite Hfrom, Hto. cbn zeta.
      fold duration. rewrite bool_decide_eq_true_2 by done.
      by rewrite (proj2 (Z.ltb_lt 0 duration)) by lia.
    - rewrite lookup_insert_ne by done. apply Hsame.
      unfold entry_for. rewrite Hfrom, Hto. cbn zeta.
      by rewrite bool_decide_eq_false_2 by done. }
  destruct Hstep as (adjacency1 & -> & Hinv1). cbn [bind].
  destruct (IH (before ++ [edge]) adjacency1 Hinv1) as (adjacency' & Hrun & Hinv').
  exists adjacency'. split; [done|]. intros i. rewrite Hinv'. by rewrite <- app_assoc.
Qed.

Lemma buildAdjacencyList_entries (nodes : list Node) (edges : list GraphEdge) :
  exists adjacency,
    buildAdjacencyList nodes edges = Ok adjacency /\
    forall i : nat,
      adjacency !! i
      = if decide (i < length nodes)%nat
        then Some (omap (entry_for (nodeLookup_of nodes) i) edges) else None.
Proof.
  unfold buildAdjacencyList.
  apply (add_edges nodes edges []). intros i. apply empty_adjacency_lookup.
Qed.

Lemma entry_for_sound (nodes : list Node) (i : nat) (edge : GraphEdge) (entry : Edge) :
  entry_for (nodeLookup_of nodes) i edge = Some entry ->
  last_index_of nodes (g_from edge) i /\
  last_index_of nodes (g_to edge) (edge_to entry) /\
  0 < edge_duration entry /\
  edge_duration entry
  = number_or (g_weight edge) (number_or (g_segment_travel_time edge) 0) /\
  edge_type entry = string_or (g_type edge) "travel".
Proof.
  unfold entry_for.
  destruct (nodeLookup_of nodes !! g_from edge) as [fromIdx|] eqn:Hfrom; [|done].
  destruct (nodeLookup_of nodes !! g_to edge) as [toIdx|] eqn:Hto; [|done].
  cbn zeta. destruct (bool_decide (fromIdx = i) && _) eqn:Hok; [|done].
  apply andb_true_iff in Hok as [Hi Hdur].
  apply bool_decide_eq_true in Hi as ->. apply Z.ltb_lt in Hdur.
  intros [= <-]. cbn. by rewrite <- !nodeLookup_of_spec.
Qed.

Lemma built_entries_in_range (nodes : list Node) (edges : list GraphEdge)
    (adjacency : gmap nat (list Edge)) :
  buildAdjacencyList nodes edges = Ok adjacency ->
  forall (i : nat) entries entry,
    adjacency !! i = Some entries -> entry ∈ entries ->
    (edge_to entry < length nodes)%nat /\ 0 < edge_duration entry.
Proof.
  intros Hrun.
  destruct (buildAdjacencyList_entries nodes edges) as (adjacency' & Hrun' & Hentries).
  rewrite Hrun in Hrun'. injection Hrun' as <-.
  intros i entries entry Hi Hin. rewrite Hentries in Hi.
  destruct (decide (i < length nodes)%nat); [|done]. injection Hi as <-.
  apply list_elem_of_omap in Hin as (edge & _ & Hedge).
  apply entry_for_sound in Hedge as (_ & [Hto _] & Hdur & _).
  split; [by eapply lookup_lt_Some | done].
Qed.

Lemma built_targets_in_range (nodes : list Node) (edges : list GraphEdge)
    (adjacency : gmap nat (list Edge)) :
  buildAdjacencyList nodes edges = Ok adjacency -> targets_in_range nodes adjacency.
Proof.
  intros Hrun i entries entry Hi Hin.
  by destruct (built_entries_in_range _ _ _ Hrun i entries entry Hi Hin).
Qed.

(** X17. [buildAdjacencyList] never throws, and the adjacency list it
    returns is sound: it has an entry, possibly empty, for exactly the
    indices of the nodes, every target is the index of a node and every
    duration is positive, so that [findAllPaths] on it never throws a
    [TypeError] and, when the node times are written [HH:MM], returns. *)
Theorem built_adjacency_is_sound (nodes : list Node) (edges : list GraphEdge) :
  exists adjacency,
    buildAdjacencyList nodes edges = Ok adjacency /\
    (forall i : nat, is_Some (adjacency !! i) <-> (i < length nodes)%nat) /\
    targets_in_range nodes adjacency /\
    (forall (i : nat) entries entry,
       adjacency !! i = Some entries -> entry ∈ entries -> 0 < edge_duration entry) /\
    (forall localeCompare startStation endStation trainInfo directionMap maxTransfers
            allowSameStationConsecutiveTransfers,
       findAllPaths localeCompare nodes adjacency startStation endStation trainInfo
         directionMap maxTransfers allowSameStationConsecutiveTransfers
       <> Err TypeError /\
       (clock_times nodes ->
        exists st,
          findAllPaths localeCompare nodes adjacency startStation endStation trainInfo
            directionMap maxTransfers allowSameStationConsecutiveTransfers = Ok st)).
Proof.
  destruct (buildAdjacencyList_entries nodes edges) as (adjacency & Hrun & Hentries).
  exists adjacency. split; [done|].
  pose proof (built_entries_in_range _ _ _ Hrun) as Hentry.
  pose proof (built_targets_in_range _ _ _ Hrun) as Htargets.
  split; [|split; [done|split]].
  - intros i. rewrite Hentries. destruct (decide (i < length nodes)%nat).
    + split; [done | by eexists].
    + split; [by intros [? ?] | done].
  - intros i entries entry Hi Hin. by eapply Hentry.
  - intros lc startStation endStation trainInfo directionMap maxTransfers allow. split.
    + pose proof (findAllPaths_returns lc nodes adjacency startStation endStation trainInfo
                    directionMap maxTransfers allow) as Hret.
      intros Herr. rewrite Herr in Hret. done.
    + intros Hclock. by apply findAllPaths_total.
Qed.

(** X18. The entries [buildAdjacencyList] gives to the node [i] are, in
    the order of the file, those of the edges that leave from a node
    written as node [i] for a node of the graph with a positive duration,
    the weight or else the segment travel time; of the nodes written
    alike, the last one stands for all: it receives the entries, and the
    others none. The type of an entry is that of the edge, or [travel]
    when the edge has none. *)
Theorem built_adjacency_lists_the_valid_edges (nodes : list Node) (edges : list GraphEdge) :
  exists adjacency,
    buildAdjacencyList nodes edges = Ok adjacency /\
    (forall i : nat, (i < length nodes)%nat ->
       adjacency !! i = Some (omap (entry_for (nodeLookup_of nodes) i) edges)) /\
    (forall node (i : nat),
       nodeLookup_of nodes !! node = Some i <-> last_index_of nodes node i) /\
    (forall (i : nat) entries entry,
       adjacency !! i = Some entries ->
       (entry ∈ entries <->
        exists edge,
          edge ∈ edges /\
          last_index_of nodes (g_from edge) i /\
          last_index_of nodes (g_to edge) (edge_to entry) /\
          0 < edge_duration entry /\
          edge_duration entry
          = number_or (g_weight edge) (number_or (g_segment_travel_time edge) 0) /\
          edge_type entry = string_or (g_type edge) "travel")).
Proof.
  destruct (buildAdjacencyList_entries nodes edges) as (adjacency & Hrun & Hentries).
  exists adjacency. split; [done|]. split; [|split].
  - intros i Hi. rewrite Hentries. by destruct (decide (i < length nodes)%nat).
  - apply nodeLookup_of_spec.
  - intros i entries entry Hi. rewrite Hentries in Hi.
    destruct (decide (i < length nodes)%nat); [|done]. injection Hi as <-.
    rewrite list_elem_of_omap. split.
    + intros (edge & Hin & Hedge). exists edge. split; [done|].
      by apply entry_for_sound.
    + intros (edge & Hin & Hfrom & Hto & Hdur & Hval & Htype). exists edge.
      split; [done|]. unfold entry_for.
      apply nodeLookup_of_spec in Hfrom, Hto. rewrite Hfrom, Hto. cbn zeta.
      rewrite bool_decide_eq_true_2 by done. rewrite <- Hval.
      rewrite (proj2 (Z.ltb_lt 0 _) Hdur). cbn. f_equal.
      destruct entry. cbn in *. by subst.
Qed.

(** ** The maps read off the schedule *)

Lemma extractTrainInfo_snoc (trains : list ScheduleTrain) (tr : ScheduleTrain) :
  extractTrainInfo (Some (trains ++ [tr]))
  = <[train_id tr := mkTrainInfo (default false (train_is_fast tr))
                       (train_directionality tr)]> (extractTrainInfo (Some trains)).
Proof. unfold extractTrainInfo. cbn. by rewrite foldl_app. Qed.

Lemma extractDirectionalityMap_snoc (trains : list ScheduleTrain) (tr : ScheduleTrain) :
  extractDirectionalityMap (Some (trains ++ [tr]))
  = match train_directionality tr with
    | Some v => <[train_id tr := v]> (extractDirectionalityMap (Some trains))
    | None => extractDirectionalityMap (Some trains)
    end.
Proof. unfold extractDirectionalityMap. cbn. by rewrite foldl_app. Qed.

Lemma extractTrainInfo_lookup (trains : list ScheduleTrain) (t : string) :
  extractTrainInfo (Some trains) !! t
  = (fun tr => mkTrainInfo (default false (train_is_fast tr)) (train_directionality tr))
      <$> last (List.filter (fun tr => bool_decide (train_id tr = t)) trains).
Proof.
  induction trains as [|tr trains IH] using rev_ind; [done|].
  rewrite extractTrainInfo_snoc, List.filter_app. cbn.
  destruct (decide (train_id tr = t)) as [Heq|Hne].
  - rewrite (bool_decide_eq_true_2 _ Heq), Heq, lookup_insert_eq. by rewrite last_snoc.
  - rewrite (bool_decide_eq_false_2 _ Hne), lookup_insert_ne by done.
    by rewrite app_nil_r.
Qed.

Lemma extractDirectionalityMap_lookup (trains : list ScheduleTrain) (t : string) :
  extractDirectionalityMap (Some trains) !! t
  = last (omap (fun tr => if bool_decide (train_id tr = t)
                          then train_directionality tr else None) trains).
Proof.
  induction trains as [|tr trains IH] using rev_ind; [done|].
  rewrite extractDirectionalityMap_snoc, omap_app. cbn.
  destruct (train_directionality tr) as [v|] eqn:Hv.
  - destruct (decide (train_id tr = t)) as [Heq|Hne].
    + rewrite (bool_decide_eq_true_2 _ Heq), Heq, lookup_insert_eq. by rewrite last_snoc.
    + rewrite (bool_decide_eq_false_2 _ Hne), lookup_insert_ne by done.
      by rewrite app_nil_r.
  - destruct (bool_decide (train_id tr = t)); by rewrite app_nil_r.
Qed.

Lemma unique_id_filter (trains : list ScheduleTrain) (t : string) :
  NoDup (train_id <$> trains) ->
  List.filter (fun tr => bool_decide (train_id tr = t)) trains = []
  \/ exists tr, List.filter (fun tr => bool_decide (train_id tr = t)) trains = [tr].
Proof.
  induction trains as [|tr trains IH]; intros Hnd; cbn; [by left|].
  cbn in Hnd. apply NoDup_cons in Hnd as [Hfresh Hnd].
  destruct (IH Hnd) as [Hnone|[tr' Hone]].
  - rewrite Hnone. case_bool_decide; [right; by exists tr | by left].
  - rewrite Hone. case_bool_decide as Hid; [|right; by exists tr'].
    exfalso. apply Hfresh.
    assert (Hin : tr' ∈ List.filter (fun tr => bool_decide (train_id tr = t)) trains)
      by (rewrite Hone; by left).
    apply filter_elem in Hin as [Hin Ht]. apply bool_decide_eq_true in Ht.
    rewrite Hid, <- Ht. by apply list_elem_of_fmap_2.
Qed.

(** X19. [extractTrainInfo] and [extractDirectionalityMap] keep, for
    every train id, the last train of the schedule with that id, the
    second among the trains whose [directionality] is an array only; no
    train of another schedule enters them. When the ids of the schedule
    are pairwise distinct, the direction map holds for every train the
    direction vector its train info holds. *)
Theorem schedule_maps_keep_the_last_train (trains : list ScheduleTrain) (t : string) :
  extractTrainInfo (Some trains) !! t
  = (fun tr => mkTrainInfo (default false (train_is_fast tr)) (train_directionality tr))
      <$> last (List.filter (fun tr => bool_decide (train_id tr = t)) trains) /\
  (forall v, extractDirectionalityMap (Some trains) !! t = Some v ->
     exists tr, tr ∈ trains /\ train_id tr = t /\ train_directionality tr = Some v) /\
  (NoDup (train_id <$> trains) ->
   extractDirectionalityMap (Some trains) !! t
   = extractTrainInfo (Some trains) !! t ≫= directionality) /\
  extractTrainInfo None = ∅ /\ extractDirectionalityMap None = ∅.
Proof.
  split; [apply extractTrainInfo_lookup|]. split; [|split; [|done]].
  - intros v Hv. rewrite extractDirectionalityMap_lookup in Hv.
    apply last_Some_elem_of, list_elem_of_omap in Hv as (tr & Hin & Htr).
    exists tr. case_bool_decide; done.
  - intros Hnd. rewrite extractDirectionalityMap_lookup, extractTrainInfo_lookup.
    assert (Homap : omap (fun tr => if bool_decide (train_id tr = t)
                                    then train_directionality tr else None) trains
                    = omap train_directionality
                        (List.filter (fun tr => bool_decide (train_id tr = t)) trains)).
    { clear Hnd. induction trains as [|tr trains IH]; cbn; [done|].
      destruct (bool_decide (train_id tr = t)); cbn; by rewrite IH. }
    rewrite Homap.
    destruct (unique_id_filter trains t Hnd) as [->|[tr ->]]; [done|]. cbn.
    by destruct (train_directionality tr).
Qed.

(** ** The station directory *)

Lemma string_compare_le_trans (a : string) :
  forall b c,
    String.compare a b <> Gt -> String.compare b c <> Gt -> String.compare a c <> Gt.
Proof.
  induction a as [|x a IH]; intros [|y b] [|z c]; cbn; try done.
  unfold Ascii.compare.
  destruct (N.compare_spec (N_of_ascii x) (N_of_ascii y)) as [Hxy|Hxy|Hxy];
    destruct (N.compare_spec (N_of_ascii y) (N_of_ascii z)) as [Hyz|Hyz|Hyz];
    destruct (N.compare_spec (N_of_ascii x) (N_of_ascii z)) as [Hxz|Hxz|Hxz];
    try done; try lia.
  apply IH.
Qed.

Lemma sort_in_order {A} (cmp : A -> A -> Z) (R : A -> A -> Prop) (l : list A) :
  (forall a b, if 0 <? cmp a b then R b a else R a b) ->
  (forall a b c, R a b -> R b c -> R a c) ->
  in_order R (JS.sort cmp l).
Proof.
  intros Hcmp Htrans.
  assert (Hcons : forall x l, (forall y, y ∈ l -> R x y) -> in_order R l ->
                              in_order R (x :: l)).
  { intros x k Hx Hk i j a b Hij Ha Hb.
    destruct j as [|j]; [lia|]. cbn in Hb. destruct i as [|i]; cbn in Ha.
    - injection Ha as <-. apply Hx. by eapply list_elem_of_lookup_2.
    - apply (Hk i j); [lia|done..]. }
  assert (Huncons : forall x l, in_order R (x :: l) ->
                                (forall y, y ∈ l -> R x y) /\ in_order R l).
  { intros x k Hk. split.
    - intros y Hy. apply list_elem_of_lookup in Hy as [j Hj].
      by apply (Hk 0%nat (S j) x y); [lia|..].
    - intros i j a b Hij Ha Hb. by apply (Hk (S i) (S j)); [lia|..]. }
  unfold JS.sort. induction l as [|x l IH]; cbn; [by intros i j a b _ Ha|].
  generalize dependent (foldr (JS.insert_sorted cmp) [] l). clear l.
  intros l. induction l as [|y l IHl]; intros Hl; cbn.
  - apply Hcons; [by intros y ?%elem_of_nil | done].
  - apply Huncons in Hl as [Hy Hl]. pose proof (Hcmp x y) as Hxy.
    destruct (0 <? cmp x y).
    + apply Hcons; [|by apply IHl].
      intros z Hz. rewrite insert_sorted_perm in Hz.
      apply elem_of_cons in Hz as [->|Hz]; [done | by apply Hy].
    + apply Hcons.
      * intros z Hz. apply elem_of_cons in Hz as [->|Hz]; [done|].
        eapply Htrans; [exact Hxy | by apply Hy].
      * by apply Hcons.
Qed.

(** X20. [GET /stations] answers 503 while no graph is loaded; once one
    is, it answers with the names of the stations of the nodes: every
    name once, in the strictly ascending order of their code units, and
    [total_count] is their number. *)
Theorem stations_are_the_sorted_directory (graphData : option (list Node)) :
  match graphData with
  | None =>
      get_stations graphData
      = StationsUnavailable 503 "Service Unavailable" "Data not loaded"
  | Some nodes =>
      exists stations,
        get_stations graphData = StationList stations (Z.of_nat (length stations)) /\
        (forall name, name ∈ stations <-> exists node, node ∈ nodes /\ station node = name) /\
        NoDup stations /\
        in_order (fun a b => String.compare a b = Lt) stations
  end.
Proof.
  destruct graphData as [nodes|]; [|done]. cbn. eexists. split; [done|].
  destruct (foldl_Set_add (station <$> nodes) [] (NoDup_nil_2)) as (Hnd & Hin & _).
  assert (Hnodup : NoDup (JS.sort compare_code_units (foldl Set_add [] (station <$> nodes))))
    by (by rewrite sort_perm).
  split; [|split; [done|]].
  - intros name. rewrite sort_perm, Hin, list_elem_of_fmap. split.
    + intros [Hnil%elem_of_nil|(node & -> & Hnode)]; [done | by exists node].
    + intros (node & Hnode & <-). right. by exists node.
  - assert (Hle : in_order (fun a b => String.compare a b <> Gt)
                    (JS.sort compare_code_units (foldl Set_add [] (station <$> nodes)))).
    { apply sort_in_order.
      - intros a b. unfold compare_code_units.
        destruct (String.compare a b) eqn:Hab; cbn; try done.
        rewrite String.compare_antisym, Hab. done.
      - intros a b c. apply string_compare_le_trans. }
    intros i j a b Hij Ha Hb. specialize (Hle i j a b Hij Ha Hb).
    destruct (String.compare a b) eqn:Hab; [|done..].
    apply String.compare_eq_iff in Hab as ->.
    pose proof (NoDup_lookup _ _ _ _ Hnodup Ha Hb). lia.
Qed.

(** ** More on the time utilities *)

(** X21. For two minute counts less than a day apart, [timeDifference]
    is their difference modulo 1440, the time from the first to the next
    occurrence of the second: it lies between 0 and 1439, and adding it
    to the start gives the end on the clock. *)
Theorem timeDifference_wraps_over_midnight (startTime endTime : Z) :
  -1440 <= endTime - startTime < 1440 ->
  timeDifference startTime endTime = (endTime - startTime) mod 1440 /\
  0 <= timeDifference startTime endTime < 1440 /\
  (0 <= startTime -> 0 <= endTime ->
   toTime (startTime + timeDifference startTime endTime) = toTime endTime).
Proof.
  intros Hrange. unfold timeDifference.
  destruct (endTime - startTime <? 0) eqn:Hneg;
    [apply Z.ltb_lt in Hneg | apply Z.ltb_ge in Hneg].
  - split; [|split; [lia|]].
    + rewrite <- (Z.mod_small (endTime - startTime + 1440) 1440) by lia.
      rewrite <- (Z_mod_plus_full (endTime - startTime) 1 1440). f_equal; lia.
    + intros Hs He. replace (startTime + (endTime - startTime + 1440)) with (endTime + 1440)
        by lia.
      rewrite (toTime_mod (endTime + 1440)), (toTime_mod endTime) by lia.
      f_equal. rewrite <- (Z_mod_plus_full endTime 1 1440). f_equal; lia.
  - split; [|split; [lia|]].
    + by rewrite Z.mod_small by lia.
    + intros _ _. f_equal; lia.
Qed.

Lemma timeDifference_wraps_over_midnight_witness :
  -1440 <= 30 - 1380 < 1440 /\
  timeDifference 1380 30 = 90 /\
  timeDifference 1380 30 = (30 - 1380) mod 1440 /\
  toTime (1380 + timeDifference 1380 30) = toTime 30.
Proof.
  assert (Hrange : -1440 <= 30 - 1380 < 1440) by lia.
  destruct (timeDifference_wraps_over_midnight 1380 30 Hrange) as (Hmod & _ & Hclock).
  split; [exact Hrange|]. split; [reflexivity|]. split; [exact Hmod|].
  apply Hclock; lia.
Defined.

(** X22. On minute counts that are not negative, [toTime] writes two
    counts alike exactly when they are congruent modulo 1440: it names
    every minute of the day, and no two by the same string. *)
Theorem toTime_names_the_minute_of_the_day (a b : Z) :
  0 <= a -> 0 <= b ->
  (toTime a = toTime b <-> a mod 1440 = b mod 1440).
Proof.
  intros Ha Hb. split.
  - intros Heq.
    destruct (parseTime_toTime_nonneg a Ha) as (va & Hva & Hmoda & _).
    destruct (parseTime_toTime_nonneg b Hb) as (vb & Hvb & Hmodb & _).
    rewrite Heq, Hvb in Hva. injection Hva as <-. congruence.
  - intros Hmod. rewrite (toTime_mod a), (toTime_mod b) by done. by rewrite Hmod.
Qed.

Lemma toTime_names_the_minute_of_the_day_witness :
  0 <= 510 /\ 0 <= 1950 /\
  toTime 510 = "08:30" /\ toTime 1950 = "08:30" /\
  (toTime 510 = toTime 1950 <-> 510 mod 1440 = 1950 mod 1440).
Proof.
  split; [lia|]. split; [lia|]. split; [reflexivity|]. split; [reflexivity|].
  apply (toTime_names_the_minute_of_the_day 510 1950); lia.
Defined.

(** X23. The [toTime] of the port brings every integer, negative ones
    too, to the minute of the day before it writes it: the result is the
    backend's [toTime] of the count modulo 1440, a time of day that
    [parseTime] reads back. The backend's [toTime] has no such step: of
    -1 it writes [-1:-1]. *)
Theorem port_toTime_normalises (totalMinutes : Z) :
  Port.toTime totalMinutes = toTime (totalMinutes mod 1440) /\
  clock_time (Port.toTime totalMinutes) /\
  parseTime (Port.toTime totalMinutes)
  = Some (if totalMinutes mod 1440 =? 0 then 1440 else totalMinutes mod 1440) /\
  toTime (-1) = "-1:-1".
Proof.
  assert (Hmod : 0 <= totalMinutes mod 1440 < 1440) by (apply Z.mod_pos_bound; lia).
  assert (Hnorm : Z.rem (Z.rem totalMinutes 1440 + 1440) 1440 = totalMinutes mod 1440).
  { Z.to_euclidean_division_equations. lia. }
  assert (Heq : Port.toTime totalMinutes = toTime (totalMinutes mod 1440)).
  { unfold Port.toTime, toTime. rewrite Hnorm.
    assert (Z.rem (totalMinutes mod 1440) 1440 = totalMinutes mod 1440) as ->
      by (apply Z.rem_small; lia).
    done. }
  split; [done|]. rewrite Heq. split; [by exists (totalMinutes mod 1440)|].
  split; [|done].
  rewrite parseTime_toTime_day by lia. by rewrite Z.mod_mod by lia.
Qed.

(** ** The rate limiter *)

Lemma filter_filter_implied {A} (f g : A -> bool) (l : list A) :
  (forall x, f x = true -> g x = true) ->
  List.filter f (List.filter g l) = List.filter f l.
Proof.
  intros Himp. induction l as [|x l IH]; cbn; [done|].
  destruct (g x) eqn:Hg; cbn.
  - by rewrite IH.
  - destruct (f x) eqn:Hf; [|done]. apply Himp in Hf. congruence.
Qed.

Lemma clean_old_entries_keeps (windowMs now now' : Z) (requests : gmap string (list Z))
    (client : string) :
  now <= now' ->
  List.filter (fun timestamp => now' - timestamp <? windowMs)
    (default [] (clean_old_entries windowMs now requests !! client))
  = List.filter (fun timestamp => now' - timestamp <? windowMs)
      (default [] (requests !! client)).
Proof.
  intros Hnow. unfold clean_old_entries.
  destruct (10000 <? Z.of_nat (size requests)); [|done].
  cbn zeta. rewrite lookup_omap.
  destruct (requests !! client) as [timestamps|]; [|done]. cbn.
  assert (Hkept : List.filter (fun timestamp => now' - timestamp <? windowMs)
                    (List.filter (fun timestamp => now - windowMs <? timestamp) timestamps)
                  = List.filter (fun timestamp => now' - timestamp <? windowMs) timestamps).
  { apply filter_filter_implied. intros t Ht.
    apply Z.ltb_lt in Ht. apply Z.ltb_lt. lia. }
  destruct (List.filter (fun timestamp => now - windowMs <? timestamp) timestamps)
    as [|t kept]; cbn [default from_option]; by rewrite <- Hkept.
Qed.

Lemma passed_on_snoc (client : string) (calls : list (Caller * Z))
    (outcomes : list LimiterOutcome) (call : Caller * Z) (outcome : LimiterOutcome) :
  length outcomes = length calls ->
  passed_on client (calls ++ [call]) (outcomes ++ [outcome])
  = passed_on client calls outcomes
    ++ match outcome with
       | Next => if bool_decide (clientId_of call.1 = client) then [call.2] else []
       | TooManyRequests _ => []
       end.
Proof.
  intros Hlen. unfold passed_on.
  rewrite zip_with_app by done. rewrite omap_app. cbn.
  destruct outcome; [|done]. by destruct (bool_decide _).
Qed.

Lemma rate_limiter_tracks (maxRequests windowMs : Z) (calls : list (Caller * Z))
    (outcomes : list LimiterOutcome) (requests : gmap string (list Z))
    (req : Caller) (now : Z) :
  length outcomes = length calls ->
  (forall call, call ∈ calls -> call.2 <= now) ->
  limiter_tracks windowMs calls outcomes requests ->
  limiter_tracks windowMs (calls ++ [(req, now)])
    (outcomes ++ [(rate_limiter maxRequests windowMs req now requests).2])
    (rate_limiter maxRequests windowMs req now requests).1.
Proof.
  intros Hlen Hpast Htracks client now' Hnow'.
  assert (Hnow : now <= now').
  { apply (Hnow' (req, now)). apply elem_of_app. right. by apply list_elem_of_singleton. }
  assert (Hbefore : forall call, call ∈ calls -> call.2 <= now').
  { intros call Hcall. apply Hnow'. apply elem_of_app. by left. }
  rewrite passed_on_snoc by done. rewrite List.filter_app.
  unfold rate_limiter. cbn zeta.
  set (cleaned := clean_old_entries windowMs now requests).
  set (recent := List.filter (fun timestamp => now - timestamp <? windowMs)
                   (default [] (cleaned !! clientId_of req))).
  destruct (maxRequests <=? Z.of_nat (length recent)); cbn [fst snd].
  - rewrite app_nil_r. unfold cleaned. rewrite clean_old_entries_keeps by done.
    by apply Htracks.
  - destruct (decide (clientId_of req = client)) as [<-|Hne].
    + rewrite lookup_insert_eq. cbn [default from_option Datatypes.id].
      rewrite bool_decide_eq_true_2 by done. rewrite List.filter_app. f_equal.
      unfold recent. rewrite filter_filter_implied.
      * unfold cleaned. rewrite clean_old_entries_keeps by done. by apply Htracks.
      * intros t Ht. apply Z.ltb_lt in Ht. apply Z.ltb_lt. lia.
    + rewrite lookup_insert_ne by done. rewrite bool_decide_eq_false_2 by done.
      cbn. rewrite app_nil_r. unfold cleaned. rewrite clean_old_entries_keeps by done.
      by apply Htracks.
Qed.

Lemma serve_length (maxRequests windowMs : Z) (calls : list (Caller * Z)) :
  forall requests, length (serve maxRequests windowMs calls requests) = length calls.
Proof. induction calls as [|call calls IH]; intros requests; cbn; [done | by rewrite IH]. Qed.

Lemma serve_within_limit (maxRequests windowMs : Z) (calls : list (Caller * Z)) :
  forall (before : list (Caller * Z)) (outcomes : list LimiterOutcome)
         (requests : gmap string (list Z)),
    length outcomes = length before ->
    ascending snd (before ++ calls) ->
    limiter_tracks windowMs before outcomes requests ->
    forall (k : nat) req now,
      calls !! k = Some (req, now) ->
      serve maxRequests windowMs calls requests !! k = Some Next ->
      Z.of_nat (length (List.filter (fun timestamp => now - timestamp <? windowMs)
                          (passed_on (clientId_of req)
                             (before ++ take (S k) calls)
                             (outcomes ++ take (S k)
                                            (serve maxRequests windowMs calls requests)))))
      <= maxRequests.
Proof.
  induction calls as [|[req0 now0] calls IH];
    intros before outcomes requests Hlen Hasc Htracks k req now Hk Hout; [done|].
  assert (Hpast : forall call, call ∈ before -> call.2 <= now0).
  { intros call Hcall. apply list_elem_of_lookup in Hcall as [i Hi].
    apply (Hasc i (length before) call (req0, now0)).
    - apply lookup_lt_Some in Hi. lia.
    - by rewrite lookup_app_l by (by eapply lookup_lt_Some).
    - by apply list_lookup_middle. }
  cbn [serve fst snd] in Hout |- *.
  destruct k as [|k].
  - cbn in Hk. injection Hk as <- <-. cbn in Hout. cbn [take].
    rewrite passed_on_snoc by done. rewrite List.filter_app, length_app.
    rewrite <- (Htracks (clientId_of req0) now0 Hpast).
    erewrite <- clean_old_entries_keeps by reflexivity.
    unfold rate_limiter in Hout |- *. cbn zeta in Hout |- *.
    destruct (maxRequests <=? _) eqn:Hfull; [done|]. apply Z.leb_gt in Hfull.
    cbn [snd]. rewrite bool_decide_eq_true_2 by done.
    cbn [List.filter]. destruct (now0 - now0 <? windowMs); cbn [length]; lia.
  - cbn in Hk, Hout. cbn [take].
    replace (before ++ (req0, now0) :: take (S k) calls)
      with ((before ++ [(req0, now0)]) ++ take (S k) calls) by (by rewrite <- app_assoc).
    replace (outcomes ++ (rate_limiter maxRequests windowMs req0 now0 requests).2
               :: take (S k) (serve maxRequests windowMs calls
                                (rate_limiter maxRequests windowMs req0 now0 requests).1))
      with ((outcomes ++ [(rate_limiter maxRequests windowMs req0 now0 requests).2])
              ++ take (S k) (serve maxRequests windowMs calls
                               (rate_limiter maxRequests windowMs req0 now0 requests).1))
      by (by rewrite <- app_assoc).
    apply IH; [|by rewrite <- app_assoc| |done..].
    + rewrite !length_app. cbn. lia.
    + by apply rate_limiter_tracks.
Qed.

(** X24. The rate limiter never passes on more than [maxRequests] calls
    of one client within a window: when the readings of the clock do not
    go back, then as often as a call is passed on, the calls of the same
    client passed on so far, this one included, that reach back less than
    [windowMs] from it are at most [maxRequests]. *)
Theorem limiter_keeps_the_limit (maxRequests windowMs : Z) (calls : list (Caller * Z))
    (k : nat) (req : Caller) (now : Z) :
  ascending snd calls ->
  calls !! k = Some (req, now) ->
  serve maxRequests windowMs calls ∅ !! k = Some Next ->
  Z.of_nat (length (List.filter (fun timestamp => now - timestamp <? windowMs)
                      (passed_on (clientId_of req) (take (S k) calls)
                         (take (S k) (serve maxRequests windowMs calls ∅)))))
  <= maxRequests.
Proof.
  intros Hasc Hk Hout.
  apply (serve_within_limit maxRequests windowMs calls [] [] ∅); try done.
Qed.

Lemma rush_in_order_of_time : ascending snd rush.
Proof.
  unfold rush.
  repeat (apply ascending_cons; split; [intros y Hy; list_cases Hy; cbn; lia|]).
  by intros i j a b _ Ha.
Qed.

Lemma limiter_keeps_the_limit_witness :
  ascending snd rush /\
  rush !! 1%nat = Some (mkCaller (Some "10.0.0.1") None, 100) /\
  serve 2 1000 rush ∅ = [Next; Next; TooManyRequests 429; Next] /\
  Z.of_nat (length (List.filter (fun timestamp => 100 - timestamp <? 1000)
                      (passed_on (clientId_of (mkCaller (Some "10.0.0.1") None))
                         (take 2 rush) (take 2 (serve 2 1000 rush ∅)))))
  <= 2.
Proof.
  split; [exact rush_in_order_of_time|]. split; [reflexivity|].
  split; [vm_compute; reflexivity|].
  apply (limiter_keeps_the_limit 2 1000 rush 1 (mkCaller (Some "10.0.0.1") None) 100
           rush_in_order_of_time eq_refl).
  vm_compute. reflexivity.
Defined.

(** ** The port's loading of the graph *)

Lemma list_ascii_of_string_app (a b : string) :
  String.list_ascii_of_string (a +:+ b)
  = String.list_ascii_of_string a ++ String.list_ascii_of_string b.
Proof.
  induction a as [|c a IH]; [done|].
  change (String.list_ascii_of_string (String c (a +:+ b))
          = c :: (String.list_ascii_of_string a ++ String.list_ascii_of_string b)).
  cbn [String.list_ascii_of_string]. by rewrite IH.
Qed.

(** The number of characters [|] of a list. *)
Lemma bars_app (a b : list ascii) :
  length (List.filter (fun c => bool_decide (c = "|"%char)) (a ++ b))
  = (length (List.filter (fun c => bool_decide (c = "|"%char)) a)
     + length (List.filter (fun c => bool_decide (c = "|"%char)) b))%nat.
Proof. by rewrite List.filter_app, length_app. Qed.

Lemma no_bars (a : list ascii) :
  length (List.filter (fun c => bool_decide (c = "|"%char)) a) = 0%nat <->
  ("|"%char ∉ a).
Proof.
  induction a as [|c a IH]; cbn.
  - split; [intros _ ?%elem_of_nil; done | done].
  - rewrite not_elem_of_cons. case_bool_decide as Hc; cbn.
    + split; [done | by intros [? _]].
    + rewrite IH. split; [by split | by intros [_ ?]].
Qed.

Lemma split_at_first_bar (a a' r r' : list ascii) :
  ("|"%char ∉ a) -> ("|"%char ∉ a') ->
  a ++ "|"%char :: r = a' ++ "|"%char :: r' -> a = a' /\ r = r'.
Proof.
  revert a'. induction a as [|c a IH]; intros [|c' a'] Ha Ha' Heq; cbn in Heq.
  - by injection Heq.
  - injection Heq as <- _. exfalso. apply Ha'. by left.
  - injection Heq as -> _. exfalso. apply Ha. by left.
  - injection Heq as -> Heq.
    apply not_elem_of_cons in Ha as [_ Ha]. apply not_elem_of_cons in Ha' as [_ Ha'].
    destruct (IH a' Ha Ha' Heq) as [-> ->]. done.
Qed.

Lemma string_of_list_inj (a b : string) :
  String.list_ascii_of_string a = String.list_ascii_of_string b -> a = b.
Proof.
  intros H. rewrite <- (String.string_of_list_ascii_of_string a),
    <- (String.string_of_list_ascii_of_string b). by rewrite H.
Qed.

Lemma nodeKey_list (n : Node) :
  String.list_ascii_of_string (nodeKey n)
  = String.list_ascii_of_string (station n)
    ++ "|"%char :: "|"%char :: "|"%char
       :: String.list_ascii_of_string (train n)
    ++ "|"%char :: "|"%char :: "|"%char :: String.list_ascii_of_string (time n).
Proof. unfold nodeKey. by rewrite !list_ascii_of_string_app. Qed.

(** The key of a node without bars is the key of no other node. *)
Lemma nodeKey_inj (x n : Node) :
  no_bar (station n) -> no_bar (train n) -> no_bar (time n) ->
  nodeKey x = nodeKey n -> x = n.
Proof.
  unfold no_bar. intros Hs Ht Hm Hkey.
  apply (f_equal String.list_ascii_of_string) in Hkey. rewrite !nodeKey_list in Hkey.
  assert (Hbars : forall y : Node,
            length (List.filter (fun c => bool_decide (c = "|"%char))
                      (String.list_ascii_of_string (nodeKey y)))
            = (length (List.filter (fun c => bool_decide (c = "|"%char))
                         (String.list_ascii_of_string (station y)))
               + length (List.filter (fun c => bool_decide (c = "|"%char))
                           (String.list_ascii_of_string (train y)))
               + length (List.filter (fun c => bool_decide (c = "|"%char))
                           (String.list_ascii_of_string (time y))) + 6)%nat).
  { intros y. rewrite nodeKey_list, bars_app. cbn [List.filter].
    rewrite bool_decide_eq_true_2 by done. cbn [length].
    rewrite bars_app. cbn [List.filter]. rewrite bool_decide_eq_true_2 by done.
    cbn [length]. lia. }
  pose proof (Hbars x) as Hx. pose proof (Hbars n) as Hn.
  rewrite !nodeKey_list in Hx, Hn. rewrite Hkey in Hx. rewrite Hx in Hn.
  apply no_bars in Hs as Hs0, Ht as Ht0, Hm as Hm0.
  assert (Hxs : "|"%char ∉ String.list_ascii_of_string (station x)) by (apply no_bars; lia).
  assert (Hxt : "|"%char ∉ String.list_ascii_of_string (train x)) by (apply no_bars; lia).
  clear Hbars Hx Hn.
  apply split_at_first_bar in Hkey as [Hstation Hkey]; [|done..].
  injection Hkey as Hkey.
  apply split_at_first_bar in Hkey as [Htrain Hkey]; [|done..].
  injection Hkey as Htime.
  apply string_of_list_inj in Hstation, Htrain, Htime.
  destruct x, n. cbn in *. by subst.
Qed.

Lemma port_nodeLookup_of_snoc (nodes : list Node) (node : Node) :
  port_nodeLookup_of (nodes ++ [node])
  = <[nodeKey node := length nodes]> (port_nodeLookup_of nodes).
Proof.
  unfold port_nodeLookup_of. rewrite imap_app, foldl_app. cbn. by rewrite Nat.add_0_r.
Qed.

Lemma port_nodeLookup (nodes : list Node) (x : Node) :
  nodes_without_bars nodes ->
  port_nodeLookup_of nodes !! nodeKey x = nodeLookup_of nodes !! x.
Proof.
  induction nodes as [|n nodes IH] using rev_ind; intros Hbars; [done|].
  rewrite port_nodeLookup_of_snoc, nodeLookup_of_snoc.
  assert (Hn : no_bar (station n) /\ no_bar (train n) /\ no_bar (time n)).
  { apply Hbars. apply elem_of_app. right. by apply list_elem_of_singleton. }
  destruct Hn as (Hs & Ht & Hm).
  destruct (decide (n = x)) as [->|Hne].
  - by rewrite !lookup_insert_eq.
  - rewrite !lookup_insert_ne; [|done|].
    + apply IH. intros node Hnode. apply Hbars. apply elem_of_app. by left.
    + intros Hkey. apply Hne. symmetry. by apply nodeKey_inj.
Qed.

Lemma port_add_edge_plain (nodes : list Node) (e : GraphEdge)
    (adjacency : gmap nat (list Edge)) :
  nodes_without_bars nodes -> plain_edge e ->
  port_add_edge (port_nodeLookup_of nodes) e adjacency
  = add_edge (nodeLookup_of nodes) e adjacency.
Proof.
  intros Hbars [Hweight Htype]. unfold port_add_edge, add_edge.
  rewrite !port_nodeLookup by done.
  destruct (nodeLookup_of nodes !! g_from e) as [fromIdx|]; [|done].
  destruct (nodeLookup_of nodes !! g_to e) as [toIdx|]; [|done].
  cbn zeta.
  assert (Hduration : default (default 0 (g_segment_travel_time e)) (g_weight e)
                      = number_or (g_weight e) (number_or (g_segment_travel_time e) 0)).
  { assert (Hseg : default 0 (g_segment_travel_time e)
                   = number_or (g_segment_travel_time e) 0).
    { destruct (g_segment_travel_time e) as [s|]; cbn; [|done].
      destruct (s =? 0) eqn:E; [by apply Z.eqb_eq in E | done]. }
    rewrite Hseg. destruct (g_weight e) as [w|]; cbn; [|done].
    destruct (w =? 0) eqn:E; [|done]. apply Z.eqb_eq in E. by subst. }
  assert (Htypes : default "travel" (g_type e) = string_or (g_type e) "travel").
  { destruct (g_type e) as [t|]; cbn; [|done]. case_bool_decide; [by subst | done]. }
  by rewrite Hduration, Htypes.
Qed.

Lemma buildAdjacency_plain (nodes : list Node) (edges : list GraphEdge) :
  nodes_without_bars nodes ->
  Forall plain_edge edges ->
  buildAdjacency nodes edges = buildAdjacencyList nodes edges.
Proof.
  intros Hbars Hedges. unfold buildAdjacency, buildAdjacencyList.
  apply for_of_ext. intros e adjacency He.
  apply port_add_edge_plain; [done|]. rewrite Forall_forall in Hedges. by apply Hedges.
Qed.

(** X25. The port's [buildAdjacency] returns the adjacency list of the
    backend's [buildAdjacencyList] when no field of a node holds the
    character [|], so that the keys of the port tell the nodes apart, and
    no edge has the weight 0 or the empty type, on which [||] and [??]
    differ. *)
Theorem port_builds_the_same_adjacency (nodes : list Node) (edges : list GraphEdge) :
  nodes_without_bars nodes ->
  Forall plain_edge edges ->
  buildAdjacency nodes edges = buildAdjacencyList nodes edges.
Proof. apply buildAdjacency_plain. Qed.

Lemma one_transfer_nodes_without_bars : nodes_without_bars one_transfer_nodes.
Proof.
  intros node Hnode. unfold no_bar.
  list_cases Hnode; cbn; repeat split; intros Hin; list_cases Hin.
Qed.

Lemma one_transfer_edges_plain : Forall plain_edge one_transfer_edges.
Proof. repeat constructor; done. Qed.

Lemma port_builds_the_same_adjacency_witness :
  nodes_without_bars one_transfer_nodes /\
  Forall plain_edge one_transfer_edges /\
  buildAdjacencyList one_transfer_nodes one_transfer_edges = Ok one_transfer_adjacency /\
  buildAdjacency one_transfer_nodes one_transfer_edges
  = buildAdjacencyList one_transfer_nodes one_transfer_edges.
Proof.
  split; [exact one_transfer_nodes_without_bars|].
  split; [exact one_transfer_edges_plain|].
  split; [vm_compute; reflexivity|].
  exact (port_builds_the_same_adjacency one_transfer_nodes one_transfer_edges
           one_transfer_nodes_without_bars one_transfer_edges_plain).
Defined.

Lemma nodeLookup_of_known (nodes : list Node) (x : Node) :
  x ∈ nodes -> exists i : nat, nodeLookup_of nodes !! x = Some i /\ (i < length nodes)%nat.
Proof.
  induction nodes as [|n nodes IH] using rev_ind; [by intros ?%elem_of_nil|].
  intros Hx. rewrite nodeLookup_of_snoc, length_app. cbn.
  destruct (decide (n = x)) as [->|Hne].
  - exists (length nodes). rewrite lookup_insert_eq. split; [done | lia].
  - rewrite lookup_insert_ne by done.
    apply elem_of_app in Hx as [Hx|Hx%list_elem_of_singleton]; [|done].
    destruct (IH Hx) as (i & Hi & Hlt). exists i. split; [done | lia].
Qed.

(** X26. An edge of weight 0 shows the two loaders apart: when its
    segment travel time is positive and its ends are nodes of the graph,
    the backend's [buildAdjacencyList] gives it an entry with that time,
    and the port's [buildAdjacency], for which the weight 0 stands, gives
    it none. *)
Theorem port_drops_edges_of_weight_zero (nodes : list Node) (e : GraphEdge) (d : Z) :
  g_from e ∈ nodes -> g_to e ∈ nodes ->
  g_weight e = Some 0 -> g_segment_travel_time e = Some d -> 0 < d ->
  exists (i j : nat),
    nodeLookup_of nodes !! g_from e = Some i /\
    nodeLookup_of nodes !! g_to e = Some j /\
    buildAdjacencyList nodes [e]
    = Ok (<[i := [mkEdge j (string_or (g_type e) "travel") d]]>
            (empty_adjacency (length nodes))) /\
    buildAdjacency nodes [e] = Ok (empty_adjacency (length nodes)) /\
    buildAdjacency nodes [e] <> buildAdjacencyList nodes [e].
Proof.
  intros Hfrom Hto Hw Hs Hd.
  destruct (nodeLookup_of_known _ _ Hfrom) as (i & Hi & Hlt).
  destruct (nodeLookup_of_known _ _ Hto) as (j & Hj & _).
  exists i, j. split; [done|]. split; [done|].
  assert (Hbackend : buildAdjacencyList nodes [e]
                     = Ok (<[i := [mkEdge j (string_or (g_type e) "travel") d]]>
                             (empty_adjacency (length nodes)))).
  { unfold buildAdjacencyList. cbn [for_of]. unfold add_edge.
    rewrite Hi, Hj, Hw, Hs. cbn.
    assert (Hnz : (d =? 0) = false) by (apply Z.eqb_neq; lia). rewrite Hnz.
    assert (Hpos : (d <=? 0) = false) by (apply Z.leb_gt; lia). rewrite Hpos.
    rewrite empty_adjacency_lookup. by destruct (decide (i < length nodes)%nat); [|lia]. }
  assert (Hport : buildAdjacency nodes [e] = Ok (empty_adjacency (length nodes))).
  { unfold buildAdjacency. cbn [for_of]. unfold port_add_edge. rewrite Hw.
    destruct (port_nodeLookup_of nodes !! nodeKey (g_from e)); [|done].
    by destruct (port_nodeLookup_of nodes !! nodeKey (g_to e)). }
  split; [done|]. split; [done|].
  rewrite Hbackend, Hport. intros [= Heq].
  apply (f_equal (fun m => m !! i)) in Heq.
  rewrite lookup_insert_eq, empty_adjacency_lookup in Heq.
  by destruct (decide (i < length nodes)%nat).
Qed.

Lemma port_drops_edges_of_weight_zero_witness :
  buildAdjacencyList one_transfer_nodes
    [mkGraphEdge (mkNode "X" "T1" "08:00") (mkNode "Y" "T1" "08:30") (Some 0) (Some 30) None]
  = Ok (<[0%nat := [mkEdge 1 "travel" 30]]> (empty_adjacency 4)) /\
  buildAdjacency one_transfer_nodes
    [mkGraphEdge (mkNode "X" "T1" "08:00") (mkNode "Y" "T1" "08:30") (Some 0) (Some 30) None]
  = Ok (empty_adjacency 4).
Proof.
  destruct (port_drops_edges_of_weight_zero one_transfer_nodes
              (mkGraphEdge (mkNode "X" "T1" "08:00") (mkNode "Y" "T1" "08:30")
                 (Some 0) (Some 30) None) 30
              ltac:(cbn; apply list_elem_of_here)
              ltac:(cbn; apply list_elem_of_further, list_elem_of_here)
              eq_refl eq_refl ltac:(lia))
    as (i & j & Hi & Hj & Hbackend & Hport & _).
  assert (Hi' : nodeLookup_of one_transfer_nodes !! mkNode "X" "T1" "08:00" = Some 0%nat)
    by (vm_compute; reflexivity).
  assert (Hj' : nodeLookup_of one_transfer_nodes !! mkNode "Y" "T1" "08:30" = Some 1%nat)
    by (vm_compute; reflexivity).
  pose proof (eq_trans (eq_sym Hi) Hi') as Hi0.
  pose proof (eq_trans (eq_sym Hj) Hj') as Hj0.
  injection Hi0 as ->. injection Hj0 as ->.
  split; [exact Hbackend | exact Hport].
Defined.

(** ** The answers of [computePaths] *)

Lemma assign_ids_map_details {D E} (f : D -> E) (l : list (PathRec D)) :
  assign_ids (map_details f <$> l) = map_details f <$> assign_ids l.
Proof.
  unfold assign_ids. rewrite imap_fmap, fmap_imap. done.
Qed.

Lemma ascending_sublist {A} (key : A -> Z) (l1 l2 : list A) :
  sublist l1 l2 -> ascending key l2 -> ascending key l1.
Proof.
  induction 1 as [|x l1 l2 Hsub IH|x l1 l2 Hsub IH]; intros Hasc; [done|..].
  - apply ascending_cons in Hasc as [Hx Hasc]. apply ascending_cons. split; [|by apply IH].
    intros y Hy. apply Hx. by eapply elem_of_sublist.
  - apply ascending_cons in Hasc as [_ Hasc]. by apply IH.
Qed.

Lemma ascending_fmap {A B} (f : A -> B) (key : B -> Z) (l : list A) :
  ascending key (f <$> l) <-> ascending (fun a => key (f a)) l.
Proof.
  split.
  - intros Hasc i j a b Hij Ha Hb.
    apply (Hasc i j (f a) (f b)); [done|by rewrite list_lookup_fmap, ?Ha, ?Hb..].
  - intros Hasc i j a b Hij Ha Hb. rewrite list_lookup_fmap in Ha, Hb.
    destruct (l !! i) as [a'|] eqn:Ha'; [|done]. destruct (l !! j) as [b'|] eqn:Hb'; [|done].
    injection Ha as <-. injection Hb as <-. by eapply Hasc.
Qed.

Lemma filtered_count_matches (paths : list PathSummary) (windowMinutes : Z) :
  Forall count_matches_details paths ->
  Forall count_matches_details (filterPathsByTimeWindow paths windowMinutes).1.
Proof.
  intros Hall. destruct paths as [|p ps]; [done|].
  unfold filterPathsByTimeWindow. cbn [fst].
  rewrite Forall_forall in Hall. apply Forall_forall.
  intros q Hq. apply filter_elem in Hq as [Hq _]. by apply Hall.
Qed.

Lemma filtered_paths (paths : list PathSummary) (windowMinutes : Z) :
  let kept := (filterPathsByTimeWindow paths windowMinutes).1 in
  let fastest := (filterPathsByTimeWindow paths windowMinutes).2 in
  sublist kept paths /\
  (forall p, p ∈ kept ->
     fastest <= total_minutes p <= fastest + Z.max windowMinutes 0) /\
  (paths <> [] -> exists p, p ∈ kept /\ total_minutes p = fastest).
Proof.
  destruct paths as [|p0 ps]; cbn zeta.
  { cbn. split; [done|]. split; [by intros p ?%elem_of_nil | done]. }
  pose (fastest := JS.Math_min (total_minutes p0) (total_minutes <$> ps)).
  pose (keep := fun p : PathSummary => total_minutes p <=? fastest + Z.max windowMinutes 0).
  change (filterPathsByTimeWindow (p0 :: ps) windowMinutes)
    with (List.filter keep (p0 :: ps), fastest).
  cbn [fst snd].
  split; [apply filter_sublist|]. split.
  - intros p Hp. apply filter_elem in Hp as [Hp Hkeep].
    unfold keep in Hkeep. apply Z.leb_le in Hkeep. split; [|done].
    apply Math_min_lower.
    change (total_minutes p ∈ total_minutes <$> (p0 :: ps)). by apply list_elem_of_fmap_2.
  - intros _.
    pose proof (Math_min_attained (total_minutes p0) (total_minutes <$> ps)) as Hat.
    change (fastest ∈ total_minutes <$> (p0 :: ps)) in Hat.
    apply list_elem_of_fmap in Hat as (p & Hp & Hin). exists p. split; [|done].
    apply filter_elem. split; [done|]. unfold keep. apply Z.leb_le. lia.
Qed.

Lemma merge_key_total_minutes (a b : PathSummary) :
  merge_key a = merge_key b -> total_minutes a = total_minutes b.
Proof. unfold merge_key. by intros [= _ _ _ _ _ ?]. Qed.

Lemma assign_ids_keys (l : list PathSummary) :
  merge_key <$> assign_ids l = merge_key <$> l.
Proof.
  apply list_eq. intros i. rewrite !list_lookup_fmap. unfold assign_ids.
  rewrite list_lookup_imap. by destruct (l !! i).
Qed.

Lemma assign_ids_length {D} (l : list (PathRec D)) : length (assign_ids l) = length l.
Proof. unfold assign_ids. apply length_imap. Qed.

Lemma merged_entry (entries merged : list PathSummary) (m : PathSummary) :
  Forall count_matches_details entries ->
  mergePathsByTrainSequence entries = Ok merged ->
  m ∈ merged ->
  exists e, e ∈ entries /\ forget_options m = forget_options e.
Proof.
  intros Hentries Hrun Hm.
  destruct (merged_from_group _ _ _ Hentries Hrun Hm)
    as (s & g & [_ Htracks] & Hg & Hgroup & ->).
  destruct (Htracks _ _ Hg) as [(i & Hi & _) _].
  destruct (finish_group_fields _ _ Hgroup) as [Hforget _].
  exists (base g). split; [by eapply list_elem_of_lookup_2 | done].
Qed.

(** On a record whose [transfer_count] is the length of its
    [transfer_details], the grouping key is made of the six fields as
    they stand. *)
Lemma merge_key_record (p : PathSummary) :
  count_matches_details p -> merge_key p = record_key p.
Proof.
  intros Hp. unfold merge_key, record_key. by rewrite transferCount_of_matching.
Qed.

(** The itineraries that the services make of the paths of the
    enumerator: the filter by the window, the merge and the new ids. *)
Lemma merged_within_window
    (localeCompare : string -> string -> Z) (nodes : list Node)
    (adjacency : gmap nat (list Edge)) (startStation endStation : string)
    (trainInfo : gmap string TrainInfo) (directionMap : option (gmap string (list Z)))
    (maxTransfers : Z) (allowSameStationConsecutiveTransfers : bool)
    (st : ServiceState) (window : Z) (merged : list PathSummary) :
  findAllPaths localeCompare nodes adjacency startStation endStation trainInfo
    directionMap maxTransfers allowSameStationConsecutiveTransfers = Ok st ->
  paths st <> [] ->
  mergePathsByTrainSequence (filterPathsByTimeWindow (paths st) window).1 = Ok merged ->
  let kept := (filterPathsByTimeWindow (paths st) window).1 in
  let fastest := (filterPathsByTimeWindow (paths st) window).2 in
  let itineraries := assign_ids merged in
  (forall (i : nat) p, itineraries !! i = Some p -> id p = Some (Z.of_nat i + 1)) /\
  NoDup (record_key <$> itineraries) /\
  ascending total_minutes itineraries /\
  (forall p, p ∈ itineraries ->
     fastest <= total_minutes p <= fastest + Z.max window 0) /\
  (forall p, head itineraries = Some p -> total_minutes p = fastest) /\
  (0 < length itineraries <= length kept)%nat /\
  (length kept <= length (paths st))%nat.
Proof.
  intros Hfind Hsome Hmerge. cbn zeta.
  destruct (filtered_paths (paths st) window) as (Hsub & Hwin & Hfast).
  cbn zeta in Hsub, Hwin, Hfast.
  set (kept := (filterPathsByTimeWindow (paths st) window).1) in *.
  set (fastest := (filterPathsByTimeWindow (paths st) window).2) in *.
  pose proof (findAllPaths_count_matches _ _ _ _ _ _ _ _ _ _ Hfind) as Hwf.
  pose proof (filtered_count_matches (paths st) window Hwf) as Hkeptwf. fold kept in Hkeptwf.
  destruct (merge_keys kept Hkeptwf) as (merged' & Hmerge' & Hkeys).
  rewrite Hmerge in Hmerge'. injection Hmerge' as <-.
  destruct (distinct_in_order_spec (merge_key <$> kept)) as (Hnd & Hin & Hsubkeys).
  rewrite <- Hkeys in Hnd, Hin, Hsubkeys.
  assert (Hfrom : forall m, m ∈ merged -> exists e, e ∈ kept /\ merge_key e = merge_key m).
  { intros m Hm. apply (list_elem_of_fmap_2 merge_key) in Hm. apply Hin in Hm.
    apply list_elem_of_fmap in Hm as (e & He & Hin'). by exists e. }
  assert (Hasc : ascending total_minutes merged).
  { destruct (findAllPaths_ordered _ _ _ _ _ _ _ _ _ _ Hfind) as [Hsorted _].
    assert (Hk : ascending (fun k : MergeKey => k.2) (merge_key <$> merged)).
    { eapply ascending_sublist; [exact Hsubkeys|].
      apply (proj2 (ascending_fmap merge_key (fun k : MergeKey => k.2) kept)).
      eapply ascending_sublist; [exact Hsub | exact Hsorted]. }
    exact (proj1 (ascending_fmap merge_key (fun k : MergeKey => k.2) merged) Hk). }
  assert (Hbounds : forall m, m ∈ merged ->
            fastest <= total_minutes m <= fastest + Z.max window 0).
  { intros m Hm. destruct (Hfrom m Hm) as (e & He & Hkey).
    rewrite <- (merge_key_total_minutes _ _ Hkey). by apply Hwin. }
  assert (Hthere : exists m, m ∈ merged /\ total_minutes m = fastest).
  { destruct (Hfast Hsome) as (e & He & Htot).
    apply (list_elem_of_fmap_2 merge_key) in He. apply Hin in He.
    apply list_elem_of_fmap in He as (m & Hkey & Hm). exists m. split; [done|].
    by rewrite <- (merge_key_total_minutes _ _ Hkey). }
  assert (Hrecords : record_key <$> assign_ids merged = merge_key <$> merged).
  { rewrite <- assign_ids_keys. apply list_fmap_ext. intros i p Hp. symmetry.
    apply merge_key_record.
    apply assign_ids_lookup in Hp as (q & Hq & ->).
    apply list_elem_of_lookup_2 in Hq.
    destruct (merged_entry _ _ _ Hkeptwf Hmerge Hq) as (e & He & Hforget).
    rewrite Forall_forall in Hkeptwf. pose proof (Hkeptwf e He) as Hcount.
    unfold count_matches_details in *. cbn.
    assert (Hc : transfer_count q = transfer_count e)
      by (by apply (f_equal transfer_count) in Hforget).
    assert (Hd : transfer_details q = transfer_details e)
      by (by apply (f_equal transfer_details) in Hforget).
    by rewrite Hc, Hd. }
  split; [|split; [|split; [|split; [|split; [|split]]]]].
  - intros i p Hp. by apply assign_ids_lookup in Hp as (q & _ & ->).
  - by rewrite Hrecords.
  - by apply assign_ids_ascending.
  - intros p Hp. apply assign_ids_elem in Hp as (k & q & Hq & ->). cbn. by apply Hbounds.
  - intros p Hp. destruct Hthere as (m & Hm & Htot).
    destruct merged as [|m0 merged0]; [done|]. cbn in Hp. injection Hp as <-. cbn.
    pose proof (Hbounds m0 ltac:(by left)) as [Hlow _].
    apply list_elem_of_lookup in Hm as [j Hj].
    pose proof (Hasc 0%nat j m0 m ltac:(lia) eq_refl Hj). lia.
  - rewrite assign_ids_length.
    apply sublist_length in Hsubkeys. rewrite !length_fmap in Hsubkeys.
    destruct Hthere as (m & Hm & _). destruct merged; [by apply elem_of_nil in Hm|].
    cbn in *. lia.
  - by apply sublist_length in Hsub.
Qed.

(** X13. On a graph whose nodes have a station, a train and a time
    written [HH:MM], an answer of [computePaths] with itineraries is
    consistent: the itineraries are numbered from 1 in the order of the
    array, no two of them agree on the six fields of the grouping key,
    they come in the order of [total_minutes], each one takes at least
    [fastest_minutes] and at most the window more, and the first one
    takes [fastest_minutes]; [window_minutes] is the window given, or
    90; [merged_path_count] is their number, which is at least 1 and at
    most [filtered_path_count], which is at most [raw_path_count], the
    number of the raw paths. When moreover no field of a node holds the
    character [|] and no edge has the weight 0 or the empty type,
    [computePaths] returns. *)
Theorem computed_answer_is_consistent
    (localeCompare : string -> string -> Z)
    (nodes : list Node) (edges : list GraphEdge) (trains : option (list ScheduleTrain))
    (start end_ : string) (maxTransfers windowMinutes : option Z)
    (allowSameStationConsecutiveTransfers : option bool) :
  nodes_named nodes ->
  clock_times nodes ->
  let computed :=
    computePaths localeCompare nodes edges trains start end_ maxTransfers windowMinutes
      allowSameStationConsecutiveTransfers in
  (nodes_without_bars nodes -> Forall plain_edge edges ->
   exists answer, computed = Ok answer) /\
  forall (merged : list (PathRec (option TransferDetail))) (raw : list PathSummary)
         (counts : ComputedSummary),
    computed = Ok (Itineraries merged raw counts) ->
    (forall (i : nat) p, merged !! i = Some p -> id p = Some (Z.of_nat i + 1)) /\
    NoDup (record_key <$> merged) /\
    ascending total_minutes merged /\
    (forall p, p ∈ merged ->
       c_fastest_minutes counts <= total_minutes p
       <= c_fastest_minutes counts + Z.max (c_window_minutes counts) 0) /\
    (forall p, head merged = Some p -> total_minutes p = c_fastest_minutes counts) /\
    c_window_minutes counts = default 90 windowMinutes /\
    c_merged_path_count counts = Z.of_nat (length merged) /\
    0 < c_merged_path_count counts <= c_filtered_path_count counts /\
    c_filtered_path_count counts <= c_raw_path_count counts /\
    c_raw_path_count counts = Z.of_nat (length raw).
Proof.
  intros Hnamed Hclock. cbn zeta.
  set (maxT := default 2 maxTransfers).
  set (window := default 90 windowMinutes).
  set (allow := default false allowSameStationConsecutiveTransfers).
  assert (Hcut : (if 0 <=? window then window else 0) = Z.max window 0).
  { destruct (0 <=? window) eqn:E; [apply Z.leb_le in E | apply Z.leb_gt in E]; lia. }
  assert (Hsteps : forall adjacency,
    buildAdjacency nodes edges = Ok adjacency ->
    computePaths localeCompare nodes edges trains start end_ maxTransfers windowMinutes
      allowSameStationConsecutiveTransfers
    = let* st := findAllPaths localeCompare nodes adjacency start end_
                   (loadSchedule trains) (Some (loadDirectionalityMap trains)) maxT allow in
      match paths st with
      | [] => Ok (NoPaths (skipped_same_station_transfers st))
      | _ :: _ =>
          let filtered := filterPathsByTimeWindow (paths st) window in
          let* merged := Port.mergePathsByTrainSequence filtered.1 in
          Ok (Itineraries (assign_ids merged) (paths st)
                (mkComputedSummary (Z.of_nat (length (paths st))) window filtered.2
                   (Z.of_nat (length filtered.1)) (Z.of_nat (length (assign_ids merged)))
                   (skipped_same_station_transfers st)))
      end).
  { intros adjacency Hbuild. unfold computePaths. rewrite Hbuild. cbn [bind].
    fold maxT window allow.
    rewrite (port_findAllPaths _ _ _ _ _ _ _ _ _ Hnamed Hclock).
    destruct (findAllPaths _ _ _ _ _ _ _ _ _) as [st|e]; [|done]. cbn [bind].
    destruct (paths st) as [|p ps]; [done|]. cbn zeta. rewrite Hcut. reflexivity. }
  split.
  - intros Hbars Hedges.
    destruct (buildAdjacencyList_entries nodes edges) as (adjacency & Hbuild & _).
    pose proof (built_targets_in_range _ _ _ Hbuild) as Htargets.
    rewrite <- (buildAdjacency_plain _ _ Hbars Hedges) in Hbuild.
    rewrite (Hsteps adjacency Hbuild).
    destruct (findAllPaths_total localeCompare nodes adjacency start end_
                (loadSchedule trains) (Some (loadDirectionalityMap trains)) maxT allow
                Htargets Hclock) as [st Hfind].
    rewrite Hfind. cbn [bind].
    destruct (paths st) as [|p ps] eqn:Hpaths; [by eexists|]. cbn zeta.
    pose proof (findAllPaths_count_matches _ _ _ _ _ _ _ _ _ _ Hfind) as Hwf.
    rewrite Hpaths in Hwf.
    pose proof (filtered_count_matches (p :: ps) window Hwf) as Hkeptwf.
    destruct (merge_keys _ Hkeptwf) as (merged & Hmerge & _).
    rewrite (port_merge _ Hkeptwf), Hmerge. cbn [as_port_records bind]. by eexists.
  - intros merged raw counts Hrun.
    destruct (buildAdjacency nodes edges) as [adjacency|e] eqn:Hbuild;
      [|by (unfold computePaths in Hrun; rewrite Hbuild in Hrun)].
    rewrite (Hsteps adjacency eq_refl) in Hrun.
    destruct (findAllPaths _ _ _ _ _ _ _ _ _) as [st|e] eqn:Hfind; [|done].
    cbn [bind] in Hrun.
    destruct (paths st) as [|p ps] eqn:Hpaths; [done|]. cbn zeta in Hrun.
    pose proof (findAllPaths_count_matches _ _ _ _ _ _ _ _ _ _ Hfind) as Hwf.
    rewrite Hpaths in Hwf.
    pose proof (filtered_count_matches (p :: ps) window Hwf) as Hkeptwf.
    rewrite (port_merge _ Hkeptwf) in Hrun.
    destruct (mergePathsByTrainSequence _) as [backend|e] eqn:Hmerge; [|done].
    cbn [as_port_records bind] in Hrun.
    rewrite <- Hpaths in Hmerge.
    destruct (merged_within_window _ _ _ _ _ _ _ _ _ _ _ _ Hfind
                ltac:(by rewrite Hpaths) Hmerge)
      as (Hids & Hnd & Hasc & Hbounds & Hhead & Hcount & Hkept).
    cbn zeta in Hids, Hnd, Hasc, Hbounds, Hhead, Hcount, Hkept.
    rewrite Hpaths in Hbounds, Hhead, Hcount, Hkept.
    rewrite assign_ids_map_details in Hrun.
    remember (filterPathsByTimeWindow (p :: ps) window) as filtered eqn:Hfiltered.
    clear Hfiltered Hmerge Hkeptwf.
    injection Hrun as <- <- <-.
    cbn [c_fastest_minutes c_window_minutes c_merged_path_count c_filtered_path_count
         c_raw_path_count].
    split; [|split; [|split; [|split; [|split; [|split; [|split; [|split; [|split]]]]]]]].
    + intros i q Hq. rewrite list_lookup_fmap in Hq.
      destruct (assign_ids backend !! i) as [m|] eqn:Hm; [|done].
      injection Hq as <-. cbn. by apply Hids.
    + rewrite <- list_fmap_compose.
      by rewrite (list_fmap_ext (record_key ∘ map_details Some) record_key
                    (assign_ids backend) (fun _ _ _ => eq_refl)).
    + by apply (proj2 (ascending_fmap (map_details Some) total_minutes (assign_ids backend))).
    + intros q Hq. apply list_elem_of_fmap in Hq as (m & -> & Hm). cbn. by apply Hbounds.
    + intros q Hq. destruct (assign_ids backend) as [|m ms] eqn:Hl; [done|].
      cbn in Hq. injection Hq as <-. cbn. by apply Hhead.
    + done.
    + by rewrite !length_fmap.
    + rewrite length_fmap. lia.
    + cbn [length] in Hkept. lia.
    + done.
Qed.

Lemma computed_answer_is_consistent_witness :
  nodes_named two_trains_nodes /\
  clock_times two_trains_nodes /\
  exists merged raw counts,
    computePaths compare_code_units two_trains_nodes two_trains_edges None "X" "Z"
      None None None = Ok (Itineraries merged raw counts) /\
    total_minutes <$> merged = [30; 60] /\
    id <$> merged = [Some 1; Some 2] /\
    c_fastest_minutes counts = 30 /\
    c_window_minutes counts = 90 /\
    ascending total_minutes merged /\
    NoDup (record_key <$> merged).
Proof.
  assert (Hnamed : nodes_named two_trains_nodes).
  { intros node Hnode. list_cases Hnode; by split. }
  assert (Hclock : clock_times two_trains_nodes).
  { intros node Hnode. list_cases Hnode; cbn.
    - exists 480. by split.
    - exists 540. by split.
    - exists 490. by split.
    - exists 520. by split. }
  split; [exact Hnamed|]. split; [exact Hclock|].
  eassert (Hrun : computePaths compare_code_units two_trains_nodes two_trains_edges None
                    "X" "Z" None None None = Ok (Itineraries _ _ _))
    by (vm_compute; reflexivity).
  eexists _, _, _. split; [exact Hrun|].
  split; [reflexivity|]. split; [reflexivity|]. split; [reflexivity|].
  split; [reflexivity|].
  destruct (computed_answer_is_consistent compare_code_units two_trains_nodes
              two_trains_edges None "X" "Z" None None None Hnamed Hclock) as [_ H].
  destruct (H _ _ _ Hrun) as (_ & Hnd & Hasc & _).
  split; [exact Hasc | exact Hnd].
Defined.

(** ** The duration of an itinerary as it is shown *)

Lemma duration_of_positive (l : list HistoryEdge) :
  l <> [] -> Forall (fun h => 0 < h_duration h) l -> 0 < duration_of l.
Proof.
  intros Hne Hall. destruct Hall as [|h l Hh Hall]; [done|].
  cbn. fold (duration_of l). pose proof (duration_of_nonneg l Hall). lia.
Qed.

(** X28. Every itinerary returned by [findAllPaths] takes time:
    [total_minutes] is positive, and [total_time] is [formatDuration] of
    it, which shows it as hours and less than sixty minutes that add up
    to it. *)
Theorem total_time_shows_total_minutes
    (localeCompare : string -> string -> Z) (nodes : list Node)
    (adjacency : gmap nat (list Edge)) (startStation endStation : string)
    (trainInfo : gmap string TrainInfo) (directionMap : option (gmap string (list Z)))
    (maxTransfers : Z) (allowSameStationConsecutiveTransfers : bool)
    (st : ServiceState) (p : PathSummary) :
  findAllPaths localeCompare nodes adjacency startStation endStation trainInfo
    directionMap maxTransfers allowSameStationConsecutiveTransfers = Ok st ->
  p ∈ paths st ->
  0 < total_minutes p /\
  total_time p = formatDuration (total_minutes p) /\
  exists hours mins,
    total_time p = JS.toString hours +:+ "h " +:+ JS.toString mins +:+ "m" /\
    0 <= hours /\ 0 <= mins < 60 /\
    total_minutes p = 60 * hours + mins.
Proof.
  intros Hrun Hp.
  destruct (findAllPaths_emits _ _ _ _ _ _ _ _ _ _ _ Hrun Hp)
    as (k & q & f & -> & Hreach & (dest & Hdest & Hst & Hne) & Hsum & _).
  destruct (reachable_time _ _ _ _ _ _ f Hreach) as (Htime & Hpos & _).
  pose proof (duration_of_positive _ Hne Hpos) as Hlong.
  assert (Hshown : total_time q = formatDuration (total_minutes q)).
  { unfold summarizePath in Hsum.
    destruct (walk_history _ _ _ _) as [[timeline details]|e]; [|done].
    cbn in Hsum. by injection Hsum as <-. }
  apply summarizePath_ok in Hsum as (_ & _ & _ & _ & _ & _ & Htotal & _).
  rewrite Htime in Htotal.
  replace (f_start f + duration_of (f_history f) - f_start f)
    with (duration_of (f_history f)) in Htotal by lia.
  rewrite (proj2 (Z.ltb_ge _ 0)) in Htotal by lia.
  cbn. rewrite Hshown, Htotal. split; [done|]. split; [done|].
  exists (duration_of (f_history f) / 60), (Z.rem (duration_of (f_history f)) 60).
  split; [done|].
  rewrite Z.rem_mod_nonneg by lia.
  pose proof (Z.div_mod (duration_of (f_history f)) 60 ltac:(lia)).
  pose proof (Z.mod_pos_bound (duration_of (f_history f)) 60 ltac:(lia)).
  pose proof (Z.div_pos (duration_of (f_history f)) 60 ltac:(lia) ltac:(lia)).
  lia.
Qed.

Lemma total_time_shows_total_minutes_witness :
  exists st p,
    findAllPaths compare_code_units one_transfer_nodes one_transfer_adjacency
      "X" "Z" ∅ (Some ∅) 2 false = Ok st /\
    p ∈ paths st /\
    total_minutes p = 70 /\ total_time p = "1h 10m" /\
    0 < total_minutes p /\
    total_time p = formatDuration (total_minutes p).
Proof.
  eassert (Hrun : findAllPaths compare_code_units one_transfer_nodes one_transfer_adjacency
                    "X" "Z" ∅ (Some ∅) 2 false = Ok (mkState [_] _))
    by (vm_compute; reflexivity).
  destruct (total_time_shows_total_minutes compare_code_units one_transfer_nodes
              one_transfer_adjacency "X" "Z" ∅ (Some ∅) 2 false _ _
              Hrun (list_elem_of_here _ _)) as (H1 & H2 & _).
  eexists _, _. split; [exact Hrun|]. split; [apply list_elem_of_here|].
  split; [reflexivity|]. split; [reflexivity|]. split; [exact H1 | exact H2].
Defined.
